(** * dupefile: duplicate detection and rule-based resolution

    A shallow embedding of the two programs that resolve duplicates:

    - [Hardcoded]: the variant whose rule table is embedded in
      [resolveDuplicate] (functions [reportDupes], [resolveDuplicate]);
    - [Configured]: the variant that loads its rules from a JSON document
      (functions [readRules], [reportAndResolveDuplicates],
      [resolveDuplicate]).

    Both share [calculateChecksums], [readFile] and [isIdentical], which
    differ between the two programs only in the wording of their error
    messages.

    The operating system is modelled by a finite map from paths to inodes;
    [log.Printf] appends a line to the log carried by the [World]. *)

From Stdlib Require Import Strings.Byte Strings.Ascii ZArith Lia.
From stdpp Require Import gmap strings list fin_maps.

(** ** Bytes as map keys *)

#[global] Instance byte_eq_dec : EqDecision byte := Byte.byte_eq_dec.

#[global] Instance byte_countable : Countable byte :=
  inj_countable Byte.to_N Byte.of_N Byte.of_to_N.

(** ** Data model *)

(** [type File struct { Basename, Path string; Size int64; Hash []byte }] *)
Record File := mkFile {
  Basename : string;
  Path : string;
  Size : Z;
  Hash : list byte
}.

#[global] Instance File_eq_dec : EqDecision File.
Proof. solve_decision. Defined.

(** ** Errors

    One constructor per [fmt.Errorf] site; the operating system's own error
    text (the trailing [%s]) is not modelled. *)
Inductive Error :=
| ErrOpen (path : string)              (* "open: %s: %s" *)
| ErrWriteToHash (path : string)       (* "writing to hash failed: %s: %s" *)
| ErrShortReadWrite (path : string)    (* "short read/write: %s" *)
| ErrClose (path : string)             (* "close: %s: %s" *)
| ErrReadAll (path : string)           (* "failed ReadAll: %s: %s" *)
| ErrShortRead (path : string)         (* "short read: %s" *)
| ErrCompare (found new : string) (cause : Error)
                                       (* "unable to compare files: %s %s: %s" *)
| ErrHashCollision (new found : string)
             (* "hash collision but the files are not identical! %s and %s" *)
| ErrRemove (path : string)            (* "unable to remove: %s: %s" *)
| ErrReadConfig                        (* "unable to read config: %s" *)
| ErrDecodeConfig                      (* "unable to decode config: %s" *)
| ErrNoRules                           (* "no rules found" *)
| ErrRuleMissingDir (n : nat)
                            (* "rule %d is missing keep/remove directory" *)
| ErrRuleNotAbsolute (n : nat)
                   (* "rule %d is has non-absolute keep/remove directory" *)
| ErrRuleIdentical (n : nat)
                      (* "rule %d is has identical keep/remove directory" *)
| PanicIndexOutOfRange.                (* run-time panic of an array store *)

(** The error taxonomy: which class each message belongs to. *)
Inductive ErrorKind :=
| IOError | ShortReadError | ConfigError | DeletionError
| HashCollisionWithoutIdentity | RuntimePanic.

Fixpoint kindOf (e : Error) : ErrorKind :=
  match e with
  | ErrOpen _ | ErrWriteToHash _ | ErrClose _ | ErrReadAll _ => IOError
  | ErrShortReadWrite _ | ErrShortRead _ => ShortReadError
  | ErrCompare _ _ cause => kindOf cause
  | ErrHashCollision _ _ => HashCollisionWithoutIdentity
  | ErrRemove _ => DeletionError
  | ErrReadConfig | ErrDecodeConfig | ErrNoRules
  | ErrRuleMissingDir _ | ErrRuleNotAbsolute _ | ErrRuleIdentical _ =>
      ConfigError
  | PanicIndexOutOfRange => RuntimePanic
  end.

(** A Go [(T, error)] result in which [T] is meaningless on failure. *)
Inductive result (A : Type) :=
| Ok (a : A)
| Fail (e : Error).
Arguments Ok {A} a.
Arguments Fail {A} e.

(** ** The filesystem *)

(** What can go wrong with a file that exists. *)
Inductive Fault := NoFault | OpenFails | ReadFails | CloseFails.

#[global] Instance Fault_eq_dec : EqDecision Fault.
Proof. solve_decision. Defined.

Record Inode := mkInode {
  contents : list byte;
  fault : Fault;
  removable : bool
}.

Abbreviation FS := (gmap string Inode).

(** [os.Open]: fails on a missing path or on a file that cannot be opened. *)
Definition osOpen (fs : FS) (path : string) : option Inode :=
  match fs !! path with
  | Some fh => if decide (fault fh = OpenFails) then None else Some fh
  | None => None
  end.

(** [ioutil.ReadAll] and [bufio.Reader.WriteTo]: everything up to the end of
    the file, or an error. *)
Definition readAll (fh : Inode) : option (list byte) :=
  if decide (fault fh = ReadFails) then None else Some (contents fh).

(** [fh.Close()]: [true] when it returns a nil error. *)
Definition closeOk (fh : Inode) : bool :=
  if decide (fault fh = CloseFails) then false else true.

(** [os.Remove]: fails on a missing path or when removal is denied. *)
Definition osRemove (fs : FS) (path : string) : option FS :=
  match fs !! path with
  | Some fh => if removable fh then Some (delete path fs) else None
  | None => None
  end.

(** The part of the world the programs act on: the disk, and the lines
    written with [log.Printf]. *)
Record World := mkWorld {
  disk : FS;
  logged : list string
}.

Definition logPrintf (line : string) (w : World) : World :=
  {| disk := disk w; logged := logged w ++ [line] |}.

Definition setDisk (fs : FS) (w : World) : World :=
  {| disk := fs; logged := logged w |}.

(** ** [path.Split] of Go's standard library

    [Split] cuts immediately after the final slash; without a slash the
    directory is empty and the file is the whole path. *)
Fixpoint pathSplit (path : string) : string * string :=
  match path with
  | EmptyString => (EmptyString, EmptyString)
  | String c rest =>
      let '(dir, file) := pathSplit rest in
      if decide (dir = EmptyString) then
        if decide (c = "/"%char) then (String c EmptyString, rest)
        else (EmptyString, String c rest)
      else (String c dir, file)
  end.

(** Does the string end with the separator? *)
Fixpoint endsWithSlash (s : string) : bool :=
  match s with
  | EmptyString => false
  | String c EmptyString => bool_decide (c = "/"%char)
  | String _ rest => endsWithSlash rest
  end.

Fixpoint hasSlash (s : string) : bool :=
  match s with
  | EmptyString => false
  | String c rest => bool_decide (c = "/"%char) || hasSlash rest
  end.

(** ** Reading and comparing files *)

(** [readFile]: open, read everything, close, then check the length against
    the size recorded at scan time. *)
Definition readFile (fs : FS) (file : File) : result (list byte) :=
  match osOpen fs (Path file) with
  | None => Fail (ErrOpen (Path file))
  | Some fh =>
      match readAll fh with
      | None => Fail (ErrReadAll (Path file))
      | Some contents =>
          if negb (closeOk fh) then Fail (ErrClose (Path file))
          else if decide (Z.of_nat (length contents) ≠ Size file)
               then Fail (ErrShortRead (Path file))
               else Ok contents
      end
  end.

(** The loop [for i := range contents1 { if contents1[i] != contents2[i]
    { return false } }; return true], run on two slices in step.  It is only
    entered with slices of one length, so [contents2[i]] is always in
    range. *)
Fixpoint sameBytes (contents1 contents2 : list byte) : bool :=
  match contents1, contents2 with
  | [], _ => true
  | b1 :: rest1, b2 :: rest2 =>
      if decide (b1 ≠ b2) then false else sameBytes rest1 rest2
  | _ :: _, [] => false
  end.

(** [isIdentical] returns [(bool, error)]; the boolean is [false] whenever
    the error is set. *)
Definition isIdentical (fs : FS) (file1 file2 : File) : bool * option Error :=
  match readFile fs file1 with
  | Fail err => (false, Some err)
  | Ok contents1 =>
      match readFile fs file2 with
      | Fail err => (false, Some err)
      | Ok contents2 =>
          if decide (length contents1 ≠ length contents2) then (false, None)
          else (sameBytes contents1 contents2, None)
      end
  end.

(** ** Fingerprints *)

Definition setHash (sum : list byte) (file : File) : File :=
  {| Basename := Basename file; Path := Path file; Size := Size file;
     Hash := sum |}.

Section Fingerprint.
(** [md5.New()] fed with the whole file, then [hasher.Sum(nil)]. *)
Variable md5sum : list byte → list byte.

(** [calculateChecksums] assigns [file.Hash] in place and stops at the
    first error; the list returned is the slice as the loop leaves it.
    The progress counter written to standard output is left out. *)
Fixpoint calculateChecksums (fs : FS) (files : list File)
  : list File * option Error :=
  match files with
  | [] => ([], None)
  | file :: rest =>
      match osOpen fs (Path file) with
      | None => (file :: rest, Some (ErrOpen (Path file)))
      | Some fh =>
          match readAll fh with
          | None => (file :: rest, Some (ErrWriteToHash (Path file)))
          | Some written =>
              if decide (Z.of_nat (length written) ≠ Size file)
              then (file :: rest, Some (ErrShortReadWrite (Path file)))
              else
                let file' := setHash (md5sum written) file in
                if negb (closeOk fh)
                then (file' :: rest, Some (ErrClose (Path file)))
                else
                  let '(rest', err) := calculateChecksums fs rest in
                  (file' :: rest', err)
          end
      end
  end.
End Fingerprint.

(** [md5.Size] *)
Definition md5Size : nat := 16.

(** [var checksum [md5.Size]byte; for i, b := range file.Hash
    { checksum[i] = b }]: the hash copied into a zeroed array; storing past
    the end of the array panics. *)
Definition checksumKey (hash : list byte) : option (list byte) :=
  if decide (length hash ≤ md5Size)
  then Some (hash ++ replicate (md5Size - length hash) x00)
  else None.

(** * The variant with the embedded rule table *)
Module Hardcoded.

Record Rule := mkRule { KeepDir : string; RmDir : string }.

Definition rules : list Rule := [
  {| KeepDir := "/home/will/t/testing/";
     RmDir := "/home/will/t/testing/2/" |};
  {| KeepDir := "/home/will/images/game screenshots/WoW_screenshots/";
     RmDir := "/home/will/images/game screenshots/WoW_screenshots/" |};
  {| KeepDir := "/home/will/images/storey_albums/Albums/2016 Italy/";
     RmDir := "/home/will/images/tablet-2016-05-25/" |};
  {| KeepDir := "/home/will/images/storey_albums/Albums/2016 Mexico/";
     RmDir := "/home/will/images/nexus-5x/" |};
  {| KeepDir := "/home/will/images/storey_albums/Baltimore 2010 before alter/";
     RmDir := "/home/will/images/dad camera backup 2012-10-13/" |};
  {| KeepDir := "/home/will/images/storey_albums/2011 Harrison hotsprings before alter/";
     RmDir := "/home/will/images/dad camera backup 2012-10-13/" |};
  {| KeepDir := "/home/will/images/storey_albums/2010 Tofino before alter/";
     RmDir := "/home/will/images/dad camera backup 2012-10-13/" |};
  {| KeepDir := "/home/will/images/storey_albums/2012 Father office photos/";
     RmDir := "/home/will/images/dad camera backup 2012-10-13/" |};
  {| KeepDir := "/home/will/images/storey_albums/Florida 2011 before alter/";
     RmDir := "/home/will/images/dad camera backup 2012-10-13/" |};
  {| KeepDir := "/home/will/images/storey_albums/2011 Block party before alter/";
     RmDir := "/home/will/images/dad camera backup 2012-10-13/" |};
  {| KeepDir := "/home/will/images/storey_albums/2011 Granny birthday before alter/";
     RmDir := "/home/will/images/dad camera backup 2012-10-13/" |}
].

(** The loop [for _, rule := range rules] of [resolveDuplicate].  Both
    branches end in [continue]: the loop goes on to the next rule after a
    match, and stops early only when [os.Remove] fails. *)
Fixpoint resolveLoop (rules : list Rule) (file1 file2 : File)
    (dir1 dir2 : string) (live : bool) (w : World) : World * option Error :=
  match rules with
  | [] => (w, None)
  | rule :: rest =>
      if bool_decide (dir1 = KeepDir rule) && bool_decide (dir2 = RmDir rule)
      then
        let w := logPrintf ("Deleting " +:+ Path file2) w in
        if live then
          match osRemove (disk w) (Path file2) with
          | None => (w, Some (ErrRemove (Path file2)))
          | Some fs => resolveLoop rest file1 file2 dir1 dir2 live (setDisk fs w)
          end
        else resolveLoop rest file1 file2 dir1 dir2 live w
      else if bool_decide (dir1 = RmDir rule) && bool_decide (dir2 = KeepDir rule)
      then
        let w := logPrintf ("Deleting " +:+ Path file1) w in
        if live then
          match osRemove (disk w) (Path file1) with
          | None => (w, Some (ErrRemove (Path file1)))
          | Some fs => resolveLoop rest file1 file2 dir1 dir2 live (setDisk fs w)
          end
        else resolveLoop rest file1 file2 dir1 dir2 live w
      else resolveLoop rest file1 file2 dir1 dir2 live w
  end.

Definition resolveDuplicate (file1 file2 : File) (live : bool) (w : World)
  : World * option Error :=
  let dir1 := (pathSplit (Path file1)).1 in
  let dir2 := (pathSplit (Path file2)).1 in
  resolveLoop rules file1 file2 dir1 dir2 live w.

(** The loop of [reportDupes]; [checksumToFile] is threaded through and
    returned with the world and the error. *)
Fixpoint reportLoop (files : list File) (live : bool)
    (checksumToFile : gmap (list byte) File) (w : World)
  : gmap (list byte) File * World * option Error :=
  match files with
  | [] => (checksumToFile, w, None)
  | file :: rest =>
      match checksumKey (Hash file) with
      | None => (checksumToFile, w, Some PanicIndexOutOfRange)
      | Some checksum =>
          match checksumToFile !! checksum with
          | Some foundFile =>
              match isIdentical (disk w) foundFile file with
              | (_, Some err) =>
                  (checksumToFile, w,
                   Some (ErrCompare (Path foundFile) (Path file) err))
              | (true, None) =>
                  let w := logPrintf ("Duplicate found: " +:+ Path file
                                      +:+ " and " +:+ Path foundFile) w in
                  match resolveDuplicate foundFile file live w with
                  | (w, Some err) => (checksumToFile, w, Some err)
                  | (w, None) => reportLoop rest live checksumToFile w
                  end
              | (false, None) =>
                  let w := logPrintf ("Hash collision but not identical: "
                                      +:+ Path file +:+ " and "
                                      +:+ Path foundFile) w in
                  reportLoop rest live checksumToFile w
              end
          | None =>
              reportLoop rest live (<[checksum := file]> checksumToFile) w
          end
      end
  end.

Definition reportDupes (files : list File) (live : bool) (w : World)
  : gmap (list byte) File * World * option Error :=
  reportLoop files live ∅ w.

(** *** Specification side *)

(** The rule applies to the pair of parent directories, in either
    orientation. *)
Definition matchesRule (rule : Rule) (dir1 dir2 : string) : bool :=
  bool_decide (dir1 = KeepDir rule) && bool_decide (dir2 = RmDir rule)
  || bool_decide (dir1 = RmDir rule) && bool_decide (dir2 = KeepDir rule).

(** The first rule of the list that applies. *)
Fixpoint firstMatch (rules : list Rule) (dir1 dir2 : string) : option Rule :=
  match rules with
  | [] => None
  | rule :: rest =>
      if matchesRule rule dir1 dir2 then Some rule
      else firstMatch rest dir1 dir2
  end.

(** Two rules that can apply to one and the same pair of directories. *)
Definition overlaps (r1 r2 : Rule) : bool :=
  bool_decide (KeepDir r1 = KeepDir r2) && bool_decide (RmDir r1 = RmDir r2)
  || bool_decide (KeepDir r1 = RmDir r2) && bool_decide (RmDir r1 = KeepDir r2).

Fixpoint noOverlap (rules : list Rule) : bool :=
  match rules with
  | [] => true
  | rule :: rest =>
      forallb (λ other, negb (overlaps rule other)) rest && noOverlap rest
  end.

End Hardcoded.

(** * The variant that reads its rules from a configuration file *)
Module Configured.

(** [type Rule struct { KeepDir string `json:"keep"`;
    RemoveDir string `json:"remove"` }] *)
Record Rule := mkRule { KeepDir : string; RemoveDir : string }.

(** What [ioutil.ReadFile] and [json.Unmarshal] make of the configuration
    file: it cannot be read, it is not a JSON document of the expected
    shape, or it decodes to a list of rules (a missing key decodes to the
    empty string, a missing list to the empty list). *)
Inductive ConfigDocument :=
| Unreadable
| Malformed
| Decoded (rules : list Rule).

(** The loop [for i, rule := range config.Rules] of [readRules]; the rule
    number put in the message is [i+i]. *)
Fixpoint checkRules (i : nat) (rules : list Rule) : option Error :=
  match rules with
  | [] => None
  | rule :: rest =>
      if bool_decide (String.length (KeepDir rule) = 0)
         || bool_decide (String.length (RemoveDir rule) = 0)
      then Some (ErrRuleMissingDir (i + i))
      else if bool_decide (String.get 0 (KeepDir rule) ≠ Some "/"%char)
              || bool_decide (String.get 0 (RemoveDir rule) ≠ Some "/"%char)
      then Some (ErrRuleNotAbsolute (i + i))
      else if bool_decide (KeepDir rule = RemoveDir rule)
      then Some (ErrRuleIdentical (i + i))
      else checkRules (S i) rest
  end.

Definition readRules (configFile : ConfigDocument) : result (list Rule) :=
  match configFile with
  | Unreadable => Fail ErrReadConfig
  | Malformed => Fail ErrDecodeConfig
  | Decoded rules =>
      if bool_decide (length rules = 0) then Fail ErrNoRules
      else match checkRules 0 rules with
           | Some err => Fail err
           | None => Ok rules
           end
  end.

(** The loop [for _, rule := range rules] of [resolveDuplicate]: the first
    rule that matches in either orientation returns.  The result is Go's
    pair: whether a rule was found, and the error of [os.Remove]. *)
Fixpoint resolveLoop (rules : list Rule) (file1 file2 : File)
    (dir1 dir2 : string) (live : bool) (w : World)
  : World * (bool * option Error) :=
  match rules with
  | [] => (w, (false, None))
  | rule :: rest =>
      if bool_decide (dir1 = KeepDir rule)
         && bool_decide (dir2 = RemoveDir rule)
      then
        if live then
          let w := logPrintf ("Deleting " +:+ Path file2) w in
          match osRemove (disk w) (Path file2) with
          | None => (w, (true, Some (ErrRemove (Path file2))))
          | Some fs => (setDisk fs w, (true, None))
          end
        else
          (logPrintf ("Non-live mode. Would delete " +:+ Path file2) w,
           (true, None))
      else if bool_decide (dir1 = RemoveDir rule)
              && bool_decide (dir2 = KeepDir rule)
      then
        if live then
          let w := logPrintf ("Deleting " +:+ Path file1) w in
          match osRemove (disk w) (Path file1) with
          | None => (w, (true, Some (ErrRemove (Path file1))))
          | Some fs => (setDisk fs w, (true, None))
          end
        else
          (logPrintf ("Non-live mode. Would delete " +:+ Path file2) w,
           (true, None))
      else resolveLoop rest file1 file2 dir1 dir2 live w
  end.

Definition resolveDuplicate (rules : list Rule) (file1 file2 : File)
    (live : bool) (w : World) : World * (bool * option Error) :=
  let dir1 := (pathSplit (Path file1)).1 in
  let dir2 := (pathSplit (Path file2)).1 in
  resolveLoop rules file1 file2 dir1 dir2 live w.

(** The loop of [reportAndResolveDuplicates]; [checksumToFile] is threaded
    through and returned with the world and the error. *)
Fixpoint reportLoop (rules : list Rule) (files : list File) (live : bool)
    (checksumToFile : gmap (list byte) File) (w : World)
  : gmap (list byte) File * World * option Error :=
  match files with
  | [] => (checksumToFile, w, None)
  | file :: rest =>
      match checksumKey (Hash file) with
      | None => (checksumToFile, w, Some PanicIndexOutOfRange)
      | Some checksum =>
          match checksumToFile !! checksum with
          | None =>
              reportLoop rules rest live
                (<[checksum := file]> checksumToFile) w
          | Some foundFile =>
              match isIdentical (disk w) foundFile file with
              | (_, Some err) =>
                  (checksumToFile, w,
                   Some (ErrCompare (Path foundFile) (Path file) err))
              | (false, None) =>
                  (checksumToFile, w,
                   Some (ErrHashCollision (Path file) (Path foundFile)))
              | (true, None) =>
                  let w := logPrintf ("Duplicate files found: "
                                      +:+ Path file +:+ " and "
                                      +:+ Path foundFile) w in
                  match resolveDuplicate rules foundFile file live w with
                  | (w, (_, Some err)) => (checksumToFile, w, Some err)
                  | (w, (foundRule, None)) =>
                      let w :=
                        if negb foundRule
                        then logPrintf ("No rule found for duplicate files: "
                                        +:+ Path file +:+ " and "
                                        +:+ Path foundFile) w
                        else w in
                      reportLoop rules rest live checksumToFile w
                  end
              end
          end
      end
  end.

Definition reportAndResolveDuplicates (rules : list Rule)
    (files : list File) (live : bool) (w : World)
  : gmap (list byte) File * World * option Error :=
  reportLoop rules files live ∅ w.

(** *** Specification side *)

(** The rule applies to the pair of parent directories, in either
    orientation. *)
Definition matchesRule (rule : Rule) (dir1 dir2 : string) : bool :=
  bool_decide (dir1 = KeepDir rule) && bool_decide (dir2 = RemoveDir rule)
  || bool_decide (dir1 = RemoveDir rule) && bool_decide (dir2 = KeepDir rule).

(** The first rule of the list that applies. *)
Fixpoint firstMatch (rules : list Rule) (dir1 dir2 : string) : option Rule :=
  match rules with
  | [] => None
  | rule :: rest =>
      if matchesRule rule dir1 dir2 then Some rule
      else firstMatch rest dir1 dir2
  end.

(** An absolute path starts with the separator. *)
Definition absolute (dir : string) : Prop :=
  ∃ rest, dir = String "/"%char rest.

(** The requirements on one rule of the configuration. *)
Definition validRule (rule : Rule) : Prop :=
  KeepDir rule ≠ EmptyString ∧ RemoveDir rule ≠ EmptyString
  ∧ absolute (KeepDir rule) ∧ absolute (RemoveDir rule)
  ∧ KeepDir rule ≠ RemoveDir rule.

End Configured.

(** * Specification of the effect on the disk *)

(** What a call of [resolveDuplicate] may do to the disk: nothing, or remove
    exactly one of the two files, and only in live mode. *)
Definition atMostOneRemoved (file1 file2 : File) (live : bool)
    (before after : FS) : Prop :=
  after = before
  ∨ (live = true ∧ after = delete (Path file1) before)
  ∨ (live = true ∧ after = delete (Path file2) before).


(** * Specification of the duplicate index *)

(** [file] is the first record of [files] whose digest is [k]. *)
Definition firstWithDigest (k : list byte) (file : File) (files : list File)
  : Prop :=
  ∃ pre post, files = pre ++ file :: post
    ∧ checksumKey (Hash file) = Some k
    ∧ ∀ g, g ∈ pre → checksumKey (Hash g) ≠ Some k.

(** * Sample data *)

Definition plain (bytes : list byte) : Inode :=
  {| contents := bytes; fault := NoFault; removable := true |}.

Definition exDigest : list byte := replicate 16 x2a.

Definition exKept : File :=
  {| Basename := "x.png"; Path := "/a/x.png"; Size := 3; Hash := exDigest |}.
Definition exCopy : File :=
  {| Basename := "y.png"; Path := "/b/y.png"; Size := 3; Hash := exDigest |}.
Definition exOdd : File :=
  {| Basename := "odd.png"; Path := "/b/odd.png"; Size := 3; Hash := exDigest |}.
Definition exBare : File :=
  {| Basename := "x.png"; Path := "x.png"; Size := 3; Hash := exDigest |}.

Definition exDisk : FS :=
  <["/a/x.png" := plain [x01; x02; x03]]>
    (<["/b/y.png" := plain [x01; x02; x03]]>
       (<["/b/odd.png" := plain [x01; x02; x04]]> ∅)).

Definition exWorld : World := {| disk := exDisk; logged := [] |}.

Definition exRules : list Configured.Rule :=
  [ {| Configured.KeepDir := "/a/"; Configured.RemoveDir := "/b/" |} ].

(** [/a/x.png] as recorded before it lost two bytes. *)
Definition exStale : File :=
  {| Basename := "x.png"; Path := "/a/x.png"; Size := 5; Hash := [] |}.

Definition exMissing : File :=
  {| Basename := "gone.png"; Path := "/a/gone.png"; Size := 3; Hash := [] |}.

(** A file that lost two bytes since the scan and whose handle fails to
    close. *)
Definition exShortDisk : FS :=
  {[ "/a/x.png" :=
       {| contents := [x01; x02; x03]; fault := CloseFails;
          removable := true |} ]}.

Definition exShort : File :=
  {| Basename := "x.png"; Path := "/a/x.png"; Size := 5; Hash := [] |}.

(** A rule written without the trailing separators, and one whose keep
    directory is empty. *)
Definition exBareRule : Configured.Rule :=
  {| Configured.KeepDir := "/a"; Configured.RemoveDir := "/b" |}.

Definition exEmptyRule : Configured.Rule :=
  {| Configured.KeepDir := ""; Configured.RemoveDir := "/b/" |}.

(** * Specification of what a whole run may do to the disk *)

(** Every path is as it was, or is gone and is one of [paths]: nothing is
    created, nothing is rewritten, nothing else is removed. *)
Definition onlyRemoves (paths : list string) (before after : FS) : Prop :=
  ∀ path,
    after !! path = before !! path ∨ (after !! path = None ∧ path ∈ paths).

(** * Specification of fingerprinting *)

(** The file can be fingerprinted: it is there, nothing fails on it, and it
    has the size recorded at scan time. *)
Definition hashable (fs : FS) (file : File) : Prop :=
  ∃ fh, fs !! Path file = Some fh ∧ fault fh = NoFault
        ∧ Z.of_nat (length (contents fh)) = Size file.

#[global] Instance hashable_dec (fs : FS) (file : File) :
  Decision (hashable fs file).
Proof.
  unfold hashable. destruct (fs !! Path file) as [fh|].
  - destruct (decide (fault fh = NoFault
                      ∧ Z.of_nat (length (contents fh)) = Size file))
      as [[? ?]|Hno].
    + left. by exists fh.
    + right. intros (fh' & [= <-] & ? & ?). tauto.
  - right. intros (fh' & ? & _). discriminate.
Defined.

(** [file'] is [file] with the digest of what the disk holds under its
    path. *)
Definition hashedAs (md5sum : list byte → list byte) (fs : FS)
    (file file' : File) : Prop :=
  ∃ fh, fs !! Path file = Some fh ∧ file' = setHash (md5sum (contents fh)) file.

(** A stand-in digest of sixteen bytes for the sample data: the first
    sixteen bytes of the content, padded with zeros. *)
Definition exSum (bytes : list byte) : list byte :=
  take 16 (bytes ++ replicate 16 x00).

(** * [File.String]: the path, a space, the digest in hexadecimal *)

(** The digits of [%x], lower case. *)
Definition hexAlphabet : list ascii :=
  String.list_ascii_of_string "0123456789abcdef".

(** One hexadecimal digit: the entry of the alphabet at [n]. *)
Definition hexDigit (n : N) : ascii :=
  default "0"%char (hexAlphabet !! N.to_nat n).

(** [%x] of a byte slice: two digits for each byte, nothing between them. *)
Fixpoint hexBytes (bytes : list byte) : string :=
  match bytes with
  | [] => EmptyString
  | b :: rest =>
      String (hexDigit (Byte.to_N b / 16))
        (String (hexDigit (Byte.to_N b mod 16)) (hexBytes rest))
  end.

(** [func (f *File) String() string], the same in the three programs:
    [fmt.Sprintf("%s %x", f.Path, f.Hash)]. *)
Definition fileString (f : File) : string :=
  Path f +:+ " " +:+ hexBytes (Hash f).

(** * The first program: report by digest alone *)
Module Reporting.

(** [sha256.Size] *)
Definition sha256Size : nat := 32.

(** The copy of [file.Hash] into a [[sha256.Size]byte] array. *)
Definition checksumKey (hash : list byte) : option (list byte) :=
  if decide (length hash ≤ sha256Size)
  then Some (hash ++ replicate (sha256Size - length hash) x00)
  else None.

Section Fingerprint.
(** [sha256.New()] fed with the whole file, then [hasher.Sum(nil)]. *)
Variable sha256sum : list byte → list byte.

(** [calculateChecksums] of this program never closes the files it opens,
    so no close can fail. *)
Fixpoint calculateChecksums (fs : FS) (files : list File)
  : list File * option Error :=
  match files with
  | [] => ([], None)
  | file :: rest =>
      match osOpen fs (Path file) with
      | None => (file :: rest, Some (ErrOpen (Path file)))
      | Some fh =>
          match readAll fh with
          | None => (file :: rest, Some (ErrWriteToHash (Path file)))
          | Some written =>
              if decide (Z.of_nat (length written) ≠ Size file)
              then (file :: rest, Some (ErrShortReadWrite (Path file)))
              else
                let file' := setHash (sha256sum written) file in
                let '(rest', err) := calculateChecksums fs rest in
                (file' :: rest', err)
          end
      end
  end.
End Fingerprint.

(** The loop of [reportDupes]: every file is printed, then looked up; a hit
    is logged as a duplicate without comparing contents.  The function
    returns nil unless the key copy panics. *)
Fixpoint reportLoop (files : list File)
    (checksumToFile : gmap (list byte) File) (w : World)
  : gmap (list byte) File * World * option Error :=
  match files with
  | [] => (checksumToFile, w, None)
  | file :: rest =>
      match checksumKey (Hash file) with
      | None => (checksumToFile, w, Some PanicIndexOutOfRange)
      | Some checksum =>
          let w := logPrintf (fileString file) w in
          match checksumToFile !! checksum with
          | Some foundFile =>
              let w := logPrintf ("Duplicate found: " +:+ Path file
                                  +:+ " and " +:+ Path foundFile) w in
              reportLoop rest checksumToFile w
          | None => reportLoop rest (<[checksum := file]> checksumToFile) w
          end
      end
  end.

Definition reportDupes (files : list File) (w : World)
  : gmap (list byte) File * World * option Error :=
  reportLoop files ∅ w.

(** [file] is the first record of [files] whose key is [k]. *)
Definition firstWithKey (k : list byte) (file : File) (files : list File)
  : Prop :=
  ∃ pre post, files = pre ++ file :: post
    ∧ checksumKey (Hash file) = Some k
    ∧ ∀ g, g ∈ pre → checksumKey (Hash g) ≠ Some k.

End Reporting.

(** * Reading hexadecimal back, to tell log lines apart *)

(** The place of a character in the alphabet, if it is a digit. *)
Definition unhexDigit (c : ascii) : option N :=
  (λ found, N.of_nat found.1) <$> list_find (λ digit, digit = c) hexAlphabet.

Fixpoint unhexBytes (s : string) : option (list byte) :=
  match s with
  | EmptyString => Some []
  | String hi (String lo rest) =>
      match unhexDigit hi, unhexDigit lo, unhexBytes rest with
      | Some h, Some l, Some bytes =>
          match Byte.of_N (16 * h + l) with
          | Some b => Some (b :: bytes)
          | None => None
          end
      | _, _, _ => None
      end
  | String _ EmptyString => None
  end.

Fixpoint hasSpace (s : string) : bool :=
  match s with
  | EmptyString => false
  | String c rest => bool_decide (c = " "%char) || hasSpace rest
  end.

(** * [path.Clean] and [path.Join] of Go's standard library *)

(** The elements between the slashes of a path ([strings.Split(path, "/")]);
    there is always at least one. *)
Fixpoint splitSlash (path : string) : list string :=
  match path with
  | EmptyString => [EmptyString]
  | String c rest =>
      if decide (c = "/"%char) then EmptyString :: splitSlash rest
      else match splitSlash rest with
           | [] => [String c EmptyString]
           | first :: others => String c first :: others
           end
  end.

Fixpoint joinSlash (elems : list string) : string :=
  match elems with
  | [] => EmptyString
  | [elem] => elem
  | elem :: rest => elem +:+ "/" +:+ joinSlash rest
  end.

(** One element of the path met by [Clean]; [kept] holds the elements
    written so far, the last one first.  An empty element and [.] are
    dropped; [..] takes back the last element unless there is none or it is
    itself [..], in which case it is dropped in a rooted path and kept in
    any other; every other element is written. *)
Definition cleanElem (rooted : bool) (kept : list string) (elem : string)
  : list string :=
  if decide (elem = EmptyString ∨ elem = ".") then kept
  else if decide (elem = "..") then
    match kept with
    | last :: before =>
        if decide (last = "..") then ".." :: kept else before
    | [] => if rooted then [] else [".."]
    end
  else elem :: kept.

Definition isRooted (path : string) : bool :=
  bool_decide (String.get 0 path = Some "/"%char).

Definition keptElems (path : string) : list string :=
  foldl (cleanElem (isRooted path)) [] (splitSlash path).

(** The path written from the elements kept: a rooted path starts with a
    slash, and an empty result is turned into [.]. *)
Definition renderPath (rooted : bool) (kept : list string) : string :=
  if rooted then "/" +:+ joinSlash (reverse kept)
  else if decide (kept = []) then "." else joinSlash (reverse kept).

(** [path.Clean] *)
Definition pathClean (path : string) : string :=
  if decide (path = EmptyString) then "."
  else renderPath (isRooted path) (keptElems path).

(** [path.Join(dir, name)]: the non-empty arguments joined by a slash, then
    cleaned; the empty string when both are empty. *)
Definition pathJoin (dir name : string) : string :=
  if decide (dir = EmptyString) then
    if decide (name = EmptyString) then EmptyString else pathClean name
  else pathClean (dir +:+ "/" +:+ name).

(** * Finding the files *)

(** What can go wrong with a directory. *)
Inductive DirFault :=
  DirOk | StatFails | OpenDirFails | ReaddirFails | CloseDirFails.

#[global] Instance DirFault_eq_dec : EqDecision DirFault.
Proof. solve_decision. Defined.

(** The tree as [os.Stat] and [Readdir] show it: an entry that is not a
    directory, with its size, or a directory with its entries in the order
    [Readdir] returns them. *)
#[warnings="-register-all"]
Inductive Tree :=
| Leaf (size : Z)
| Dir (fault : DirFault) (entries : list (string * Tree)).

(** One constructor per [fmt.Errorf] site of [findFiles]. *)
Inductive FindError :=
| ErrStat (dir : string)             (* "stat: %s: %s" *)
| ErrNotDirectory (dir : string)     (* "%s is not a directory" *)
| ErrOpenDir (dir : string)          (* "open: %s: %s" *)
| ErrReaddir (dir : string)          (* "readdir: %s: %s" *)
| ErrCloseDir (dir : string).        (* "close: %s: %s" *)

Section Walk.
(** [findFiles] itself, for the call on a subdirectory. *)
Variable find : string → Tree → FindError + list File.
Variable dir : string.

(** The loop [for _, fi := range fis] of [findFiles]. *)
Fixpoint walkEntries (fis : list (string * Tree)) (foundFiles : list File)
  : FindError + list File :=
  match fis with
  | [] => inr foundFiles
  | (name, child) :: rest =>
      if decide (name = "." ∨ name = "..") then walkEntries rest foundFiles
      else
        let filePath := pathJoin dir name in
        match child with
        | Dir _ _ =>
            match find filePath child with
            | inl err => inl err
            | inr dirFiles => walkEntries rest (foundFiles ++ dirFiles)
            end
        | Leaf size =>
            walkEntries rest
              (foundFiles ++ [{| Basename := name; Path := filePath;
                                 Size := size; Hash := [] |}])
        end
  end.
End Walk.

Fixpoint findFiles (dir : string) (node : Tree) : FindError + list File :=
  match node with
  | Leaf _ => inl (ErrNotDirectory dir)
  | Dir StatFails _ => inl (ErrStat dir)
  | Dir OpenDirFails _ => inl (ErrOpenDir dir)
  | Dir ReaddirFails _ => inl (ErrReaddir dir)
  | Dir CloseDirFails _ => inl (ErrCloseDir dir)
  | Dir DirOk fis => walkEntries findFiles dir fis []
  end.

(** Induction over a tree and the entries of its directories. *)
Fixpoint Tree_induction (P : Tree → Prop)
    (HLeaf : ∀ size, P (Leaf size))
    (HDir : ∀ fault entries,
        Forall (λ entry, P entry.2) entries → P (Dir fault entries))
    (node : Tree) {struct node} : P node :=
  match node with
  | Leaf size => HLeaf size
  | Dir fault entries =>
      HDir fault entries
        ((fix all (es : list (string * Tree))
            : Forall (λ entry, P entry.2) es :=
            match es with
            | [] => @List.Forall_nil _ _
            | entry :: rest =>
                @List.Forall_cons _ _ entry rest
                  (Tree_induction P HLeaf HDir entry.2) (all rest)
            end) entries)
  end.

(** * Specification of the walk *)

(** [findFiles] passes over the entries with these names. *)
Definition skippedName (name : string) : bool :=
  bool_decide (name = "." ∨ name = "..").

(** Every directory the walk enters can be listed. *)
Fixpoint faultFree (node : Tree) : bool :=
  match node with
  | Leaf _ => true
  | Dir fault entries =>
      bool_decide (fault = DirOk)
      && forallb (λ entry, skippedName entry.1 || faultFree entry.2) entries
  end.

(** The entries that are not directories, in the directories the walk
    enters. *)
Fixpoint countLeaves (node : Tree) : nat :=
  match node with
  | Leaf _ => 1
  | Dir _ entries =>
      foldr (λ entry total,
               if skippedName entry.1 then total
               else countLeaves entry.2 + total) 0 entries
  end.

(** A name as [Readdir] gives it: not empty, without a slash, and neither
    [.] nor [..]. *)
Definition simpleName (name : string) : bool :=
  negb (bool_decide (name = EmptyString)) && negb (hasSlash name)
  && negb (bool_decide (name = ".")) && negb (bool_decide (name = "..")).

(** In every directory the names are simple and pairwise different. *)
Fixpoint wellNamed (node : Tree) : bool :=
  match node with
  | Leaf _ => true
  | Dir _ entries =>
      bool_decide (NoDup entries.*1)
      && forallb (λ entry, simpleName entry.1 && wellNamed entry.2) entries
  end.

(** * Specification of the paths found *)

(** What one entry contributes to the list. *)
Definition entryFiles (find : string → Tree → FindError + list File)
    (dir : string) (entry : string * Tree) : FindError + list File :=
  if skippedName entry.1 then inr []
  else match entry.2 with
       | Leaf size =>
           inr [{| Basename := entry.1; Path := pathJoin dir entry.1;
                   Size := size; Hash := [] |}]
       | Dir _ _ => find (pathJoin dir entry.1) entry.2
       end.

(** The outcome of [findFiles] on a node, and what a successful result looks
    like. *)
Definition findShape (node : Tree) (dir : string) : Prop :=
  match findFiles dir node with
  | inr files =>
      (∃ fault entries, node = Dir fault entries)
      ∧ faultFree node = true
      ∧ length files = countLeaves node
      ∧ Forall (λ file, Hash file = []) files
  | inl err => (∃ size, node = Leaf size) ∨ faultFree node = false
  end.

(** The elements [Clean] keeps: real names on top of a run of [..], and no
    [..] at all in a rooted path. *)
Definition normalKept (rooted : bool) (kept : list string) : Prop :=
  ∃ tops m,
    kept = tops ++ replicate m ".."
    ∧ Forall (λ elem, elem ≠ EmptyString ∧ elem ≠ "." ∧ elem ≠ ".."
                      ∧ hasSlash elem = false) tops
    ∧ (rooted = true → m = 0).

(** The names from a file up to, and without, the directory searched, for
    every file below a directory, in the order of the walk. *)
Fixpoint relNames (node : Tree) : list (list string) :=
  match node with
  | Leaf _ => []
  | Dir _ entries =>
      flat_map (λ entry,
                  if skippedName entry.1 then []
                  else match entry.2 with
                       | Leaf _ => [[entry.1]]
                       | Dir _ _ =>
                           (λ names, names ++ [entry.1]) <$> relNames entry.2
                       end) entries
  end.

(** The names below one entry. *)
Definition relOf (entry : string * Tree) : list (list string) :=
  if skippedName entry.1 then []
  else match entry.2 with
       | Leaf _ => [[entry.1]]
       | Dir _ _ => (λ names, names ++ [entry.1]) <$> relNames entry.2
       end.

(** An element [Clean] writes as it is. *)
Definition realName (elem : string) : Prop :=
  elem ≠ EmptyString ∧ elem ≠ "." ∧ elem ≠ ".." ∧ hasSlash elem = false.

(** What the names below a well-named directory are like. *)
Definition relShape (node : Tree) : Prop :=
  wellNamed node = true →
  NoDup (relNames node)
  ∧ Forall (λ names, names ≠ [] ∧ Forall realName names) (relNames node).

(** The records found below [dir] against the names below it: each path is
    the cleaned directory followed by the names, and the base name is the
    name of the file itself. *)
Definition filesMatch (dir : string) (files : list File)
    (rels : list (list string)) : Prop :=
  Forall2 (λ file names,
             Path file = renderPath (isRooted dir) (names ++ keptElems dir)
             ∧ head names = Some (Basename file)) files rels.

(** The records found below a well-named node are those of its names. *)
Definition namesShape (node : Tree) : Prop :=
  ∀ dir files,
    dir ≠ EmptyString → wellNamed node = true →
    findFiles dir node = inr files → filesMatch dir files (relNames node).

(** * More sample data *)

(** The tree that holds the files of [exDisk]. *)
Definition exTree : Tree :=
  Dir DirOk
    [("a", Dir DirOk [("x.png", Leaf 3)]);
     ("b", Dir DirOk [("y.png", Leaf 3); ("odd.png", Leaf 3)])].

Definition exFound : list File :=
  [ {| Basename := "x.png"; Path := "/a/x.png"; Size := 3; Hash := [] |};
    {| Basename := "y.png"; Path := "/b/y.png"; Size := 3; Hash := [] |};
    {| Basename := "odd.png"; Path := "/b/odd.png"; Size := 3; Hash := [] |} ].


(** The rule of the embedded table as a rule of the configured program. *)
Definition asConfigured (rule : Hardcoded.Rule) : Configured.Rule :=
  {| Configured.KeepDir := Hardcoded.KeepDir rule;
     Configured.RemoveDir := Hardcoded.RmDir rule |}.

(** * Results *)

(** ** Comparing contents *)

Lemma sameBytes_true_iff (c1 c2 : list byte) :
  length c1 = length c2 → sameBytes c1 c2 = true ↔ c1 = c2.
Proof.
  revert c2. induction c1 as [|b1 c1 IH]; intros [|b2 c2] Hlen;
    simpl in *; try discriminate.
  - done.
  - injection Hlen as Hlen. destruct (decide (b1 ≠ b2)) as [Hne|Heq].
    + split; [discriminate | intros [= ? _]; contradiction].
    + apply dec_stable in Heq. subst b2. rewrite (IH c2 Hlen).
      split; [by intros -> | by intros [= ->]].
Qed.

Lemma readFile_Ok_length (fs : FS) (file : File) (c : list byte) :
  readFile fs file = Ok c → Z.of_nat (length c) = Size file.
Proof.
  unfold readFile. destruct (osOpen fs (Path file)) as [fh|]; [|discriminate].
  destruct (readAll fh) as [bytes|]; [|discriminate].
  destruct (negb (closeOk fh)); [discriminate|].
  destruct (decide (Z.of_nat (length bytes) ≠ Size file)) as [|Heq];
    [discriminate|].
  intros [= <-]. by apply dec_stable in Heq.
Qed.

Lemma isIdentical_read (fs : FS) (file1 file2 : File) (c1 c2 : list byte) :
  readFile fs file1 = Ok c1 → readFile fs file2 = Ok c2 →
  isIdentical fs file1 file2 = (bool_decide (c1 = c2), None).
Proof.
  intros H1 H2. unfold isIdentical. rewrite H1, H2.
  destruct (decide (length c1 ≠ length c2)) as [Hne|Heq].
  - rewrite bool_decide_eq_false_2; [done | by intros ->].
  - apply dec_stable in Heq. f_equal.
    destruct (sameBytes c1 c2) eqn:Hsame.
    + symmetry. apply bool_decide_eq_true_2. by apply sameBytes_true_iff.
    + symmetry. apply bool_decide_eq_false_2. intros Hc.
      apply (sameBytes_true_iff _ _ Heq) in Hc. congruence.
Qed.

Lemma isIdentical_true_inv (fs : FS) (file1 file2 : File) :
  (isIdentical fs file1 file2).1 = true →
  ∃ c, readFile fs file1 = Ok c ∧ readFile fs file2 = Ok c
       ∧ isIdentical fs file1 file2 = (true, None).
Proof.
  destruct (readFile fs file1) as [c1|e1] eqn:H1.
  2:{ unfold isIdentical; rewrite H1; discriminate. }
  destruct (readFile fs file2) as [c2|e2] eqn:H2.
  2:{ unfold isIdentical; rewrite H1, H2; discriminate. }
  rewrite (isIdentical_read _ _ _ _ _ H1 H2). simpl. intros Hb.
  apply bool_decide_eq_true_1 in Hb as Heq. subst c2.
  exists c1. by rewrite Hb.
Qed.

(** C7. [isIdentical] answers [true] exactly when both files are read back in
    full, their sizes agree and every byte agrees position by position; once
    both files are read, any difference in length or at some position makes
    it answer [false] (without error), and the answer [true] never comes with
    an error. *)
Theorem isIdentical_true_iff_same_bytes (fs : FS) (file1 file2 : File) :
  (isIdentical fs file1 file2 = (true, None) ↔
     ∃ c1 c2, readFile fs file1 = Ok c1 ∧ readFile fs file2 = Ok c2
              ∧ Size file1 = Size file2 ∧ ∀ i : nat, c1 !! i = c2 !! i)
  ∧ (∀ c1 c2, readFile fs file1 = Ok c1 → readFile fs file2 = Ok c2 →
       (length c1 ≠ length c2 ∨ ∃ i : nat, c1 !! i ≠ c2 !! i) →
       isIdentical fs file1 file2 = (false, None))
  ∧ ((isIdentical fs file1 file2).1 = true →
       (isIdentical fs file1 file2).2 = None).
Proof.
  split; [split|split].
  - intros Hid. destruct (isIdentical_true_inv fs file1 file2) as (c & H1 & H2 & _).
    { by rewrite Hid. }
    exists c, c. repeat split; try done.
    apply readFile_Ok_length in H1, H2. congruence.
  - intros (c1 & c2 & H1 & H2 & _ & Hall).
    rewrite (isIdentical_read _ _ _ _ _ H1 H2).
    rewrite bool_decide_eq_true_2; [done | by apply list_eq].
  - intros c1 c2 H1 H2 Hdiff.
    rewrite (isIdentical_read _ _ _ _ _ H1 H2).
    rewrite bool_decide_eq_false_2; [done|].
    intros ->. destruct Hdiff as [Hlen | [i Hi]]; contradiction.
  - intros Ht. destruct (isIdentical_true_inv _ _ _ Ht) as (c & _ & _ & ->).
    done.
Qed.

(** ** [path.Split] *)

Lemma pathSplit_join (path : string) :
  path = (pathSplit path).1 +:+ (pathSplit path).2.
Proof.
  induction path as [|c rest IH]; [done|]. simpl.
  destruct (pathSplit rest) as [dir file]. simpl in IH.
  destruct (decide (dir = EmptyString)) as [->|Hne].
  - cbv [String.append] in IH. subst file.
    by destruct (decide (c = "/"%char)).
  - cbn [fst snd]. cbv [String.append]. fold String.append. by rewrite <- IH.
Qed.

Lemma pathSplit_file_no_slash (path : string) :
  hasSlash (pathSplit path).2 = false.
Proof.
  induction path as [|c rest IH]; [done|]. simpl.
  pose proof (pathSplit_join rest) as Hjoin.
  destruct (pathSplit rest) as [dir file]. simpl in *.
  destruct (decide (dir = EmptyString)) as [->|Hne]; [|done].
  cbv [String.append] in Hjoin. rewrite <- Hjoin in IH.
  destruct (decide (c = "/"%char)) as [->|Hc]; simpl; [done|].
  by rewrite bool_decide_eq_false_2.
Qed.

Lemma pathSplit_dir_empty_or_slash (path : string) :
  (pathSplit path).1 = EmptyString ∨ endsWithSlash (pathSplit path).1 = true.
Proof.
  induction path as [|c rest IH]; [by left|]. simpl.
  destruct (pathSplit rest) as [dir file]. simpl in IH.
  destruct (decide (dir = EmptyString)) as [->|Hne].
  - destruct (decide (c = "/"%char)) as [->|Hc]; [by right | by left].
  - right. destruct IH as [?|IH]; [done|]. simpl.
    destruct dir; [done | exact IH].
Qed.

Lemma pathSplit_dir_empty_iff (path : string) :
  (pathSplit path).1 = EmptyString ↔ hasSlash path = false.
Proof.
  induction path as [|c rest IH]; [done|]. simpl.
  destruct (pathSplit rest) as [dir file]. simpl in IH.
  destruct (decide (dir = EmptyString)) as [->|Hne].
  - destruct (decide (c = "/"%char)) as [->|Hc]; simpl.
    + split; discriminate.
    + rewrite bool_decide_eq_false_2 by done. simpl. tauto.
  - simpl. split; [discriminate|]. intros Hs.
    apply orb_false_iff in Hs as [_ Hs]. tauto.
Qed.

(** ** The filesystem primitives *)

Lemma osRemove_Some (fs fs' : FS) (path : string) :
  osRemove fs path = Some fs' → fs' = delete path fs ∧ is_Some (fs !! path).
Proof.
  unfold osRemove. destruct (fs !! path) as [fh|]; [|discriminate].
  destruct (removable fh); [|discriminate]. intros [= <-]. eauto.
Qed.

Lemma readFile_ext (fs fs' : FS) (file : File) :
  fs' !! Path file = fs !! Path file → readFile fs' file = readFile fs file.
Proof. intros Heq. unfold readFile, osOpen. by rewrite Heq. Qed.


(** ** The rule loop of the configured variant *)

Lemma Configured_resolveLoop_firstMatch (rules : list Configured.Rule)
    (file1 file2 : File) (dir1 dir2 : string) (live : bool) (w : World) :
  Configured.resolveLoop rules file1 file2 dir1 dir2 live w =
  match Configured.firstMatch rules dir1 dir2 with
  | Some rule => Configured.resolveLoop [rule] file1 file2 dir1 dir2 live w
  | None => (w, (false, None))
  end.
Proof.
  induction rules as [|rule rest IH]; [done|].
  cbn [Configured.firstMatch].
  destruct (Configured.matchesRule rule dir1 dir2) eqn:Hm.
  - cbn [Configured.resolveLoop]. unfold Configured.matchesRule in Hm.
    destruct (bool_decide (dir1 = Configured.KeepDir rule)
              && bool_decide (dir2 = Configured.RemoveDir rule)); [done|].
    destruct (bool_decide (dir1 = Configured.RemoveDir rule)
              && bool_decide (dir2 = Configured.KeepDir rule)); [done|].
    discriminate.
  - rewrite <- IH. cbn [Configured.resolveLoop].
    unfold Configured.matchesRule in Hm. apply orb_false_iff in Hm as [-> ->].
    done.
Qed.


Lemma Configured_firstMatch_Some (rules : list Configured.Rule)
    (rule : Configured.Rule) (dir1 dir2 : string) :
  Configured.firstMatch rules dir1 dir2 = Some rule →
  rule ∈ rules ∧ Configured.matchesRule rule dir1 dir2 = true.
Proof.
  induction rules as [|r rest IH]; [discriminate|]. simpl.
  destruct (Configured.matchesRule r dir1 dir2) eqn:Hm.
  - intros [= <-]. split; [apply list_elem_of_here | done].
  - intros H. destruct (IH H). split; [by apply list_elem_of_further | done].
Qed.

Lemma Configured_single_rule_found (rule : Configured.Rule)
    (file1 file2 : File) (dir1 dir2 : string) (live : bool) (w : World) :
  (Configured.resolveLoop [rule] file1 file2 dir1 dir2 live w).2.1
  = Configured.matchesRule rule dir1 dir2.
Proof.
  cbn [Configured.resolveLoop]. unfold Configured.matchesRule.
  destruct (bool_decide (dir1 = Configured.KeepDir rule)
            && bool_decide (dir2 = Configured.RemoveDir rule)).
  { destruct live; [|done]. by destruct (osRemove _ _). }
  destruct (bool_decide (dir1 = Configured.RemoveDir rule)
            && bool_decide (dir2 = Configured.KeepDir rule)); [|done].
  destruct live; [|done]. by destruct (osRemove _ _).
Qed.

Lemma Configured_resolveLoop_disk (rules : list Configured.Rule)
    (file1 file2 : File) (dir1 dir2 : string) (live : bool) (w : World) :
  atMostOneRemoved file1 file2 live (disk w)
    (disk (Configured.resolveLoop rules file1 file2 dir1 dir2 live w).1).
Proof.
  induction rules as [|rule rest IH]; [by left|].
  cbn [Configured.resolveLoop].
  destruct (bool_decide (dir1 = Configured.KeepDir rule)
            && bool_decide (dir2 = Configured.RemoveDir rule)).
  { destruct live; [|by left]. cbn [logPrintf disk].
    destruct (osRemove (disk w) (Path file2)) as [fs|] eqn:Hrm; [|by left].
    apply osRemove_Some in Hrm as [-> _]. right; right. done. }
  destruct (bool_decide (dir1 = Configured.RemoveDir rule)
            && bool_decide (dir2 = Configured.KeepDir rule)); [|exact IH].
  destruct live; [|by left]. cbn [logPrintf disk].
  destruct (osRemove (disk w) (Path file1)) as [fs|] eqn:Hrm; [|by left].
  apply osRemove_Some in Hrm as [-> _]. right; left. done.
Qed.


(** ** The rule loop of the variant with the embedded table *)

Lemma Hardcoded_overlaps_of_matches (r1 r2 : Hardcoded.Rule)
    (dir1 dir2 : string) :
  Hardcoded.matchesRule r1 dir1 dir2 = true →
  Hardcoded.matchesRule r2 dir1 dir2 = true →
  Hardcoded.overlaps r1 r2 = true.
Proof.
  unfold Hardcoded.matchesRule, Hardcoded.overlaps.
  rewrite !orb_true_iff, !andb_true_iff, !bool_decide_eq_true.
  intros [[-> ->]|[-> ->]] [[H1 H2]|[H1 H2]]; auto.
Qed.

Lemma Hardcoded_noOverlap_rest (rule : Hardcoded.Rule)
    (rest : list Hardcoded.Rule) (dir1 dir2 : string) :
  Hardcoded.noOverlap (rule :: rest) = true →
  Hardcoded.matchesRule rule dir1 dir2 = true →
  Hardcoded.firstMatch rest dir1 dir2 = None.
Proof.
  cbn [Hardcoded.noOverlap]. rewrite andb_true_iff. intros [Hall _] Hm.
  induction rest as [|r rest IH]; [done|].
  cbn [forallb] in Hall. apply andb_true_iff in Hall as [Hr Hall].
  cbn [Hardcoded.firstMatch].
  destruct (Hardcoded.matchesRule r dir1 dir2) eqn:Hr'; [|auto].
  rewrite (Hardcoded_overlaps_of_matches _ _ _ _ Hm Hr') in Hr. discriminate.
Qed.

Lemma Hardcoded_resolveLoop_no_match (rules : list Hardcoded.Rule)
    (file1 file2 : File) (dir1 dir2 : string) (live : bool) (w : World) :
  Hardcoded.firstMatch rules dir1 dir2 = None →
  Hardcoded.resolveLoop rules file1 file2 dir1 dir2 live w = (w, None).
Proof.
  induction rules as [|rule rest IH]; [done|].
  cbn [Hardcoded.firstMatch Hardcoded.resolveLoop].
  unfold Hardcoded.matchesRule.
  destruct (bool_decide (dir1 = Hardcoded.KeepDir rule)
            && bool_decide (dir2 = Hardcoded.RmDir rule)); [discriminate|].
  destruct (bool_decide (dir1 = Hardcoded.RmDir rule)
            && bool_decide (dir2 = Hardcoded.KeepDir rule)); [discriminate|].
  exact IH.
Qed.

Lemma Hardcoded_resolveLoop_firstMatch (rules : list Hardcoded.Rule)
    (file1 file2 : File) (dir1 dir2 : string) (live : bool) (w : World) :
  Hardcoded.noOverlap rules = true →
  Hardcoded.resolveLoop rules file1 file2 dir1 dir2 live w =
  match Hardcoded.firstMatch rules dir1 dir2 with
  | Some rule => Hardcoded.resolveLoop [rule] file1 file2 dir1 dir2 live w
  | None => (w, None)
  end.
Proof.
  induction rules as [|rule rest IH]; [done|]. intros Hno.
  destruct (Hardcoded.matchesRule rule dir1 dir2) eqn:Hm.
  - pose proof (Hardcoded_noOverlap_rest _ _ _ _ Hno Hm) as Hrest.
    cbn [Hardcoded.firstMatch]. rewrite Hm.
    cbn [Hardcoded.resolveLoop].
    destruct (bool_decide (dir1 = Hardcoded.KeepDir rule)
              && bool_decide (dir2 = Hardcoded.RmDir rule)).
    { destruct live; [destruct (osRemove _ _); [|done]|];
        by rewrite Hardcoded_resolveLoop_no_match. }
    destruct (bool_decide (dir1 = Hardcoded.RmDir rule)
              && bool_decide (dir2 = Hardcoded.KeepDir rule)).
    { destruct live; [destruct (osRemove _ _); [|done]|];
        by rewrite Hardcoded_resolveLoop_no_match. }
    by rewrite Hardcoded_resolveLoop_no_match.
  - cbn [Hardcoded.firstMatch]. rewrite Hm.
    cbn [Hardcoded.noOverlap] in Hno. apply andb_true_iff in Hno as [_ Hno].
    rewrite <- (IH Hno). cbn [Hardcoded.resolveLoop].
    unfold Hardcoded.matchesRule in Hm. apply orb_false_iff in Hm as [-> ->].
    done.
Qed.

Lemma Hardcoded_rules_noOverlap : Hardcoded.noOverlap Hardcoded.rules = true.
Proof. vm_compute. reflexivity. Qed.

Lemma Hardcoded_single_rule_disk (rule : Hardcoded.Rule)
    (file1 file2 : File) (dir1 dir2 : string) (live : bool) (w : World) :
  atMostOneRemoved file1 file2 live (disk w)
    (disk (Hardcoded.resolveLoop [rule] file1 file2 dir1 dir2 live w).1).
Proof.
  cbn [Hardcoded.resolveLoop].
  destruct (bool_decide (dir1 = Hardcoded.KeepDir rule)
            && bool_decide (dir2 = Hardcoded.RmDir rule)).
  { destruct live; [|by left]. cbn [logPrintf disk].
    destruct (osRemove (disk w) (Path file2)) as [fs|] eqn:Hrm; [|by left].
    apply osRemove_Some in Hrm as [-> _]. right; right. done. }
  destruct (bool_decide (dir1 = Hardcoded.RmDir rule)
            && bool_decide (dir2 = Hardcoded.KeepDir rule)); [|by left].
  destruct live; [|by left]. cbn [logPrintf disk].
  destruct (osRemove (disk w) (Path file1)) as [fs|] eqn:Hrm; [|by left].
  apply osRemove_Some in Hrm as [-> _]. right; left. done.
Qed.

Lemma Hardcoded_resolveDuplicate_disk (file1 file2 : File) (live : bool)
    (w : World) :
  atMostOneRemoved file1 file2 live (disk w)
    (disk (Hardcoded.resolveDuplicate file1 file2 live w).1).
Proof.
  unfold Hardcoded.resolveDuplicate.
  rewrite Hardcoded_resolveLoop_firstMatch by apply Hardcoded_rules_noOverlap.
  destruct (Hardcoded.firstMatch _ _ _); [|by left].
  apply Hardcoded_single_rule_disk.
Qed.

Lemma Hardcoded_resolveLoop_dry (rules : list Hardcoded.Rule)
    (file1 file2 : File) (dir1 dir2 : string) (w : World) :
  let r := Hardcoded.resolveLoop rules file1 file2 dir1 dir2 false w in
  disk r.1 = disk w ∧ r.2 = None ∧ ∃ lines, logged r.1 = logged w ++ lines.
Proof.
  revert w. induction rules as [|rule rest IH]; intros w;
    cbn [Hardcoded.resolveLoop].
  { repeat split. exists []. by rewrite app_nil_r. }
  destruct (bool_decide (dir1 = Hardcoded.KeepDir rule)
            && bool_decide (dir2 = Hardcoded.RmDir rule)).
  { destruct (IH (logPrintf ("Deleting " +:+ Path file2) w))
      as (Hd & He & lines & Hl).
    repeat split; [done | done |]. eexists (_ :: lines).
    rewrite Hl. cbn [logPrintf logged]. by rewrite <- app_assoc. }
  destruct (bool_decide (dir1 = Hardcoded.RmDir rule)
            && bool_decide (dir2 = Hardcoded.KeepDir rule)); [|apply IH].
  destruct (IH (logPrintf ("Deleting " +:+ Path file1) w))
    as (Hd & He & lines & Hl).
  repeat split; [done | done |]. eexists (_ :: lines).
  rewrite Hl. cbn [logPrintf logged]. by rewrite <- app_assoc.
Qed.

(** ** The loops over the files in report-only mode *)



(** ** Resolution: which rule decides, what is removed *)





(** ** Over a whole run no content disappears *)

Lemma readFile_Ok_contents (fs : FS) (file : File) (c : list byte) :
  readFile fs file = Ok c →
  ∃ fh, fs !! Path file = Some fh ∧ contents fh = c.
Proof.
  unfold readFile, osOpen, readAll.
  destruct (fs !! Path file) as [fh|]; [|discriminate].
  destruct (decide (fault fh = OpenFails)); [discriminate|].
  destruct (decide (fault fh = ReadFails)); [discriminate|].
  destruct (negb (closeOk fh)); [discriminate|].
  destruct (decide _); [discriminate|]. intros [= <-]. eauto.
Qed.





(** ** Symmetry of a rule in the two orders of discovery *)

Lemma Configured_matchesRule_sym (rule : Configured.Rule)
    (dir1 dir2 : string) :
  Configured.matchesRule rule dir2 dir1 = Configured.matchesRule rule dir1 dir2.
Proof.
  unfold Configured.matchesRule.
  destruct (bool_decide (dir1 = _)), (bool_decide (dir2 = _)),
    (bool_decide (dir1 = _)), (bool_decide (dir2 = _)); done.
Qed.

Lemma Configured_firstMatch_sym (rules : list Configured.Rule)
    (dir1 dir2 : string) :
  Configured.firstMatch rules dir2 dir1 = Configured.firstMatch rules dir1 dir2.
Proof.
  induction rules as [|rule rest IH]; [done|]. simpl.
  by rewrite Configured_matchesRule_sym, IH.
Qed.

(** In live mode a rule whose two directories differ removes the same file
    and writes the same line in both orders. *)
Lemma Configured_live_symmetric (rules : list Configured.Rule)
    (file1 file2 : File) (w : World) :
  Forall (λ rule, Configured.KeepDir rule ≠ Configured.RemoveDir rule) rules →
  Configured.resolveDuplicate rules file2 file1 true w
  = Configured.resolveDuplicate rules file1 file2 true w.
Proof.
  intros Hvalid. unfold Configured.resolveDuplicate.
  rewrite !(Configured_resolveLoop_firstMatch rules).
  rewrite (Configured_firstMatch_sym rules).
  destruct (Configured.firstMatch rules _ _) as [rule|] eqn:Hfirst; [|done].
  apply Configured_firstMatch_Some in Hfirst as [Hin _].
  rewrite Forall_forall in Hvalid. specialize (Hvalid rule Hin).
  cbn [Configured.resolveLoop].
  repeat case_bool_decide; simpl; try done; congruence.
Qed.

(** C4. With the single rule keep [/a/], remove [/b/] and the identical
    files [/a/x.png] and [/b/y.png], the report-only run names [/b/y.png]
    when the file under [/a/] was discovered first and names [/a/x.png], the
    file to keep, when the file under [/b/] was discovered first; in live
    mode both orders log and remove [/b/y.png]. *)
Theorem dry_run_report_depends_on_discovery_order :
  logged (Configured.resolveDuplicate exRules exKept exCopy false exWorld).1
  = ["Non-live mode. Would delete /b/y.png"]
  ∧ logged (Configured.resolveDuplicate exRules exCopy exKept false exWorld).1
    = ["Non-live mode. Would delete /a/x.png"]
  ∧ logged (Configured.resolveDuplicate exRules exKept exCopy true exWorld).1
    = ["Deleting /b/y.png"]
  ∧ logged (Configured.resolveDuplicate exRules exCopy exKept true exWorld).1
    = ["Deleting /b/y.png"]
  ∧ disk (Configured.resolveDuplicate exRules exCopy exKept true exWorld).1
    = delete "/b/y.png" exDisk.
Proof. repeat split; vm_compute; reflexivity. Qed.

(** In report-only mode the swapped orientation names [file2], the file in
    the keep directory, although live mode removes [file1]. *)
Lemma Configured_swapped_orientation (rule : Configured.Rule)
    (file1 file2 : File) (w : World) :
  (pathSplit (Path file1)).1 = Configured.RemoveDir rule →
  (pathSplit (Path file2)).1 = Configured.KeepDir rule →
  Configured.KeepDir rule ≠ Configured.RemoveDir rule →
  Configured.resolveDuplicate [rule] file1 file2 false w
  = (logPrintf ("Non-live mode. Would delete " +:+ Path file2) w, (true, None))
  ∧ ∀ fs, osRemove (disk w) (Path file1) = Some fs →
      Configured.resolveDuplicate [rule] file1 file2 true w
      = (setDisk fs (logPrintf ("Deleting " +:+ Path file1) w), (true, None)).
Proof.
  intros H1 H2 Hne. unfold Configured.resolveDuplicate.
  cbn [Configured.resolveLoop]. rewrite H1, H2.
  rewrite (bool_decide_eq_false_2 (_ = Configured.KeepDir rule)) by congruence.
  cbn [andb]. rewrite !bool_decide_eq_true_2 by done. cbn [andb].
  split; [done|]. intros fs Hrm. cbn [logPrintf disk] in *. by rewrite Hrm.
Qed.

(** ** Digest collisions between different contents *)

Lemma collision_line_is_not_duplicate_line (new found new' found' : string) :
  "Hash collision but not identical: " +:+ new +:+ " and " +:+ found
  ≠ "Duplicate found: " +:+ new' +:+ " and " +:+ found'.
Proof. cbv [String.append]. discriminate. Qed.

(** C2 (as amended). When the index already holds a record for the digest
    of the file being processed and the two files, read back in full, differ
    in content, neither program removes anything while handling the pair and
    each reports the collision apart from a duplicate: the configured
    program returns the hash-collision error, which ends the run with the
    world as it was, while the embedded-table variant writes its own
    collision line and goes on with the remaining files. *)
Theorem hash_collision_reported_without_deletion
    (file found : File) (rest : list File) (live : bool)
    (index : gmap (list byte) File) (w : World) (k c1 c2 : list byte) :
  checksumKey (Hash file) = Some k →
  index !! k = Some found →
  readFile (disk w) found = Ok c1 →
  readFile (disk w) file = Ok c2 →
  c1 ≠ c2 →
  (∀ rules,
     Configured.reportLoop rules (file :: rest) live index w
     = (index, w, Some (ErrHashCollision (Path file) (Path found))))
  ∧ kindOf (ErrHashCollision (Path file) (Path found))
    = HashCollisionWithoutIdentity
  ∧ Hardcoded.reportLoop (file :: rest) live index w
    = Hardcoded.reportLoop rest live index
        (logPrintf ("Hash collision but not identical: " +:+ Path file
                    +:+ " and " +:+ Path found) w)
  ∧ disk (logPrintf ("Hash collision but not identical: " +:+ Path file
                     +:+ " and " +:+ Path found) w) = disk w
  ∧ ∀ new' found',
      "Hash collision but not identical: " +:+ Path file +:+ " and "
        +:+ Path found
      ≠ "Duplicate found: " +:+ new' +:+ " and " +:+ found'.
Proof.
  intros Hk Hidx H1 H2 Hne.
  pose proof (isIdentical_read _ _ _ _ _ H1 H2) as Hid.
  rewrite bool_decide_eq_false_2 in Hid by done.
  repeat split.
  - intros rules. cbn [Configured.reportLoop]. by rewrite Hk, Hidx, Hid.
  - cbn [Hardcoded.reportLoop]. by rewrite Hk, Hidx, Hid.
  - intros. apply collision_line_is_not_duplicate_line.
Qed.

Lemma hash_collision_reported_without_deletion_witness :
  Configured.reportLoop exRules [exOdd; exCopy] true
    {[ exDigest := exKept ]} exWorld
  = ({[ exDigest := exKept ]}, exWorld,
     Some (ErrHashCollision "/b/odd.png" "/a/x.png"))
  ∧ Hardcoded.reportLoop [exOdd; exCopy] true {[ exDigest := exKept ]} exWorld
    = Hardcoded.reportLoop [exCopy] true {[ exDigest := exKept ]}
        (logPrintf
           "Hash collision but not identical: /b/odd.png and /a/x.png"
           exWorld).
Proof.
  destruct (hash_collision_reported_without_deletion exOdd exKept [exCopy]
              true {[ exDigest := exKept ]} exWorld exDigest
              [x01; x02; x03] [x01; x02; x04])
    as (Hconf & _ & Hhard & _).
  - reflexivity.
  - vm_compute. reflexivity.
  - vm_compute. reflexivity.
  - vm_compute. reflexivity.
  - discriminate.
  - split; [apply Hconf | apply Hhard].
Defined.

(** C2 (as stated) fails on the configured program: with [/a/x.png] first,
    then [/b/odd.png] of the same digest and other content, then the true
    duplicate [/b/y.png], the live run ends with the hash-collision error
    before [/b/y.png] is looked at, so the duplicate is neither reported nor
    removed; without [/b/odd.png] the same run reports and removes it. *)
Lemma hash_collision_ends_configured_run :
  let run :=
    Configured.reportAndResolveDuplicates exRules [exKept; exOdd; exCopy]
      true exWorld in
  run.2 = Some (ErrHashCollision "/b/odd.png" "/a/x.png")
  ∧ run.1.2 = exWorld
  ∧ logged (Configured.reportAndResolveDuplicates exRules [exKept; exCopy]
              true exWorld).1.2
    = ["Duplicate files found: /b/y.png and /a/x.png"; "Deleting /b/y.png"]
  ∧ logged (Hardcoded.reportDupes [exKept; exOdd; exCopy] true exWorld).1.2
    = ["Hash collision but not identical: /b/odd.png and /a/x.png";
       "Duplicate found: /b/y.png and /a/x.png"].
Proof. repeat split; vm_compute; reflexivity. Qed.

(** ** The duplicate index *)

Lemma firstWithDigest_here (k : list byte) (file : File) (rest : list File) :
  checksumKey (Hash file) = Some k → firstWithDigest k file (file :: rest).
Proof.
  intros Hk. exists [], rest. repeat split; [done|].
  intros g Hg. by apply elem_of_nil in Hg.
Qed.

Lemma firstWithDigest_later (k : list byte) (file other : File)
    (rest : list File) :
  checksumKey (Hash other) ≠ Some k →
  firstWithDigest k file rest → firstWithDigest k file (other :: rest).
Proof.
  intros Hother (pre & post & -> & Hk & Hpre).
  exists (other :: pre), post. repeat split; [done|].
  intros g [->|Hg]%elem_of_cons; auto.
Qed.

(** The case analysis shared by the two loops: after it, every remaining
    goal is either closed or about the recursive call. *)
Ltac loop_cases file index w k found Hk Hidx :=
  destruct (checksumKey (Hash file)) as [k|] eqn:Hk;
  [ destruct (index !! k) as [found|] eqn:Hidx;
    [ destruct (isIdentical (disk w) found file) as [[] [?|]] | ]
  | ].

Lemma Configured_reportLoop_index_kept (rules : list Configured.Rule)
    (files : list File) (live : bool) (index : gmap (list byte) File)
    (w : World) (k : list byte) (f : File) :
  index !! k = Some f →
  (Configured.reportLoop rules files live index w).1.1 !! k = Some f.
Proof.
  revert index w. induction files as [|file rest IH]; intros index w Hf;
    [done|].
  cbn [Configured.reportLoop].
  loop_cases file index w k0 found Hk Hidx; try done.
  - destruct (Configured.resolveDuplicate _ _ _ _ _) as [w' [b [?|]]];
      [done | by apply IH].
  - apply IH. rewrite lookup_insert_ne; [done | congruence].
Qed.

Lemma Configured_reportLoop_index_first (rules : list Configured.Rule)
    (files : list File) (live : bool) (index : gmap (list byte) File)
    (w : World) (k : list byte) (f : File) :
  (Configured.reportLoop rules files live index w).1.1 !! k = Some f →
  index !! k = Some f ∨ (index !! k = None ∧ firstWithDigest k f files).
Proof.
  revert index w. induction files as [|file rest IH]; intros index w;
    [by left|].
  cbn [Configured.reportLoop].
  loop_cases file index w k0 found Hk Hidx; try (by left).
  - destruct (Configured.resolveDuplicate _ _ _ _ _) as [w' [b [?|]]];
      [by left|].
    intros [?|[Hnone Hfirst]]%IH; [by left|]. right. split; [done|].
    apply firstWithDigest_later; [congruence | done].
  - intros [Hins|[Hnone Hfirst]]%IH.
    + destruct (decide (k0 = k)) as [->|Hne].
      * rewrite lookup_insert_eq in Hins. injection Hins as ->.
        right. split; [done | by apply firstWithDigest_here].
      * rewrite lookup_insert_ne in Hins by done. by left.
    + destruct (decide (k0 = k)) as [->|Hne].
      * by rewrite lookup_insert_eq in Hnone.
      * rewrite lookup_insert_ne in Hnone by done. right. split; [done|].
        apply firstWithDigest_later; [congruence | done].
Qed.

Lemma Hardcoded_reportLoop_index_kept (files : list File) (live : bool)
    (index : gmap (list byte) File) (w : World) (k : list byte) (f : File) :
  index !! k = Some f →
  (Hardcoded.reportLoop files live index w).1.1 !! k = Some f.
Proof.
  revert index w. induction files as [|file rest IH]; intros index w Hf;
    [done|].
  cbn [Hardcoded.reportLoop].
  loop_cases file index w k0 found Hk Hidx; try done.
  - destruct (Hardcoded.resolveDuplicate _ _ _ _) as [w' [?|]];
      [done | by apply IH].
  - by apply IH.
  - apply IH. rewrite lookup_insert_ne; [done | congruence].
Qed.

Lemma Hardcoded_reportLoop_index_first (files : list File) (live : bool)
    (index : gmap (list byte) File) (w : World) (k : list byte) (f : File) :
  (Hardcoded.reportLoop files live index w).1.1 !! k = Some f →
  index !! k = Some f ∨ (index !! k = None ∧ firstWithDigest k f files).
Proof.
  revert index w. induction files as [|file rest IH]; intros index w;
    [by left|].
  cbn [Hardcoded.reportLoop].
  loop_cases file index w k0 found Hk Hidx; try (by left).
  - destruct (Hardcoded.resolveDuplicate _ _ _ _) as [w' [?|]]; [by left|].
    intros [?|[Hnone Hfirst]]%IH; [by left|]. right. split; [done|].
    apply firstWithDigest_later; [congruence | done].
  - intros [?|[Hnone Hfirst]]%IH; [by left|]. right. split; [done|].
    apply firstWithDigest_later; [congruence | done].
  - intros [Hins|[Hnone Hfirst]]%IH.
    + destruct (decide (k0 = k)) as [->|Hne].
      * rewrite lookup_insert_eq in Hins. injection Hins as ->.
        right. split; [done | by apply firstWithDigest_here].
      * rewrite lookup_insert_ne in Hins by done. by left.
    + destruct (decide (k0 = k)) as [->|Hne].
      * by rewrite lookup_insert_eq in Hnone.
      * rewrite lookup_insert_ne in Hnone by done. right. split; [done|].
        apply firstWithDigest_later; [congruence | done].
Qed.

Lemma firstWithDigest_tail (k : list byte) (f g : File) (rest : list File) :
  checksumKey (Hash g) ≠ Some k →
  firstWithDigest k f (g :: rest) → firstWithDigest k f rest.
Proof.
  intros Hg (pre & post & Heq & Hk & Hpre).
  destruct pre as [|g' pre]; [by simplify_eq/=|]. simplify_eq/=.
  exists pre, post. repeat split; [done|].
  intros h Hh. apply Hpre. by apply list_elem_of_further.
Qed.

Lemma Configured_reportLoop_index_complete (rules : list Configured.Rule)
    (files : list File) (live : bool) (index : gmap (list byte) File)
    (w : World) (k : list byte) (f : File) :
  (Configured.reportLoop rules files live index w).2 = None →
  index !! k = None → firstWithDigest k f files →
  (Configured.reportLoop rules files live index w).1.1 !! k = Some f.
Proof.
  revert index w. induction files as [|file rest IH]; intros index w.
  { intros _ _ (pre & post & Heq & _). by destruct pre. }
  intros Herr Hnone Hfirst.
  destruct (decide (checksumKey (Hash file) = Some k)) as [Hfile|Hfile].
  - destruct Hfirst as (pre & post & Heq & Hk & Hpre).
    destruct pre as [|g pre]; simplify_eq/=.
    + rewrite Hk, Hnone. apply Configured_reportLoop_index_kept.
      apply lookup_insert_eq.
    + exfalso. apply (Hpre g); [apply list_elem_of_here | done].
  - apply firstWithDigest_tail in Hfirst; [|done].
    revert Herr. cbn [Configured.reportLoop].
    loop_cases file index w k0 found Hk Hidx; try discriminate.
    + destruct (Configured.resolveDuplicate _ _ _ _ _) as [w' [b [?|]]];
        [discriminate|]. intros Herr. by apply IH.
    + intros Herr. apply IH; [done| |done].
      rewrite lookup_insert_ne; [done | congruence].
Qed.

Lemma Hardcoded_reportLoop_index_complete (files : list File) (live : bool)
    (index : gmap (list byte) File) (w : World) (k : list byte) (f : File) :
  (Hardcoded.reportLoop files live index w).2 = None →
  index !! k = None → firstWithDigest k f files →
  (Hardcoded.reportLoop files live index w).1.1 !! k = Some f.
Proof.
  revert index w. induction files as [|file rest IH]; intros index w.
  { intros _ _ (pre & post & Heq & _). by destruct pre. }
  intros Herr Hnone Hfirst.
  destruct (decide (checksumKey (Hash file) = Some k)) as [Hfile|Hfile].
  - destruct Hfirst as (pre & post & Heq & Hk & Hpre).
    destruct pre as [|g pre]; simplify_eq/=.
    + rewrite Hk, Hnone. apply Hardcoded_reportLoop_index_kept.
      apply lookup_insert_eq.
    + exfalso. apply (Hpre g); [apply list_elem_of_here | done].
  - apply firstWithDigest_tail in Hfirst; [|done].
    revert Herr. cbn [Hardcoded.reportLoop].
    loop_cases file index w k0 found Hk Hidx; try discriminate.
    + destruct (Hardcoded.resolveDuplicate _ _ _ _) as [w' [?|]];
        [discriminate|]. intros Herr. by apply IH.
    + intros Herr. by apply IH.
    + intros Herr. apply IH; [done| |done].
      rewrite lookup_insert_ne; [done | congruence].
Qed.

(** C3. The lookup-or-insert of both loops: when the index holds no record
    for the digest of the file being processed, the file is stored under it
    and the loop moves on to the next file; when it holds one, that record
    is the one the file is compared with and the step leaves the index as it
    was.  Over any sequence of files a stored record is never replaced, the
    record found under a digest at the end is the first file of the sequence
    with that digest, and after a run that ends without error the first file
    with each digest is the record stored under it. *)
Theorem index_keeps_first_record :
  (∀ rules file rest live (index : gmap (list byte) File) w k,
     checksumKey (Hash file) = Some k → index !! k = None →
     Configured.reportLoop rules (file :: rest) live index w
     = Configured.reportLoop rules rest live (<[k := file]> index) w
     ∧ Hardcoded.reportLoop (file :: rest) live index w
       = Hardcoded.reportLoop rest live (<[k := file]> index) w)
  ∧ (∀ rules file live (index : gmap (list byte) File) w k found,
       checksumKey (Hash file) = Some k → index !! k = Some found →
       (Configured.reportLoop rules [file] live index w).1.1 = index
       ∧ (Hardcoded.reportLoop [file] live index w).1.1 = index
       ∧ ∀ b err, isIdentical (disk w) found file = (b, Some err) →
           (Configured.reportLoop rules [file] live index w).2
           = Some (ErrCompare (Path found) (Path file) err)
           ∧ (Hardcoded.reportLoop [file] live index w).2
             = Some (ErrCompare (Path found) (Path file) err))
  ∧ (∀ rules files live (index : gmap (list byte) File) w k f,
       index !! k = Some f →
       (Configured.reportLoop rules files live index w).1.1 !! k = Some f
       ∧ (Hardcoded.reportLoop files live index w).1.1 !! k = Some f)
  ∧ (∀ rules files live w k f,
       ((Configured.reportAndResolveDuplicates rules files live w).1.1 !! k
        = Some f → firstWithDigest k f files)
       ∧ ((Hardcoded.reportDupes files live w).1.1 !! k = Some f →
          firstWithDigest k f files))
  ∧ (∀ rules files live w k f,
       firstWithDigest k f files →
       ((Configured.reportAndResolveDuplicates rules files live w).2 = None →
        (Configured.reportAndResolveDuplicates rules files live w).1.1 !! k
        = Some f)
       ∧ ((Hardcoded.reportDupes files live w).2 = None →
          (Hardcoded.reportDupes files live w).1.1 !! k = Some f)).
Proof.
  split; [|split; [|split; [|split]]].
  - intros rules file rest live index w k Hk Hidx.
    cbn [Configured.reportLoop Hardcoded.reportLoop]. by rewrite Hk, Hidx.
  - intros rules file live index w k found Hk Hidx.
    cbn [Configured.reportLoop Hardcoded.reportLoop]. rewrite Hk, Hidx.
    split; [|split].
    + destruct (isIdentical (disk w) found file) as [[] [?|]]; try done.
      by destruct (Configured.resolveDuplicate _ _ _ _ _) as [w' [b [?|]]].
    + destruct (isIdentical (disk w) found file) as [[] [?|]]; try done.
      by destruct (Hardcoded.resolveDuplicate _ _ _ _) as [w' [?|]].
    + intros b err ->. by destruct b.
  - intros rules files live index w k f Hf. split.
    + by apply Configured_reportLoop_index_kept.
    + by apply Hardcoded_reportLoop_index_kept.
  - intros rules files live w k f. split.
    + intros [Habs|[_ ?]]%Configured_reportLoop_index_first; [|done].
      by rewrite lookup_empty in Habs.
    + intros [Habs|[_ ?]]%Hardcoded_reportLoop_index_first; [|done].
      by rewrite lookup_empty in Habs.
  - intros rules files live w k f Hfirst. split; intros Herr.
    + by apply Configured_reportLoop_index_complete.
    + by apply Hardcoded_reportLoop_index_complete.
Qed.

Lemma index_keeps_first_record_witness :
  (Configured.reportLoop exRules [exKept; exCopy] false ∅ exWorld
   = Configured.reportLoop exRules [exCopy] false {[ exDigest := exKept ]}
       exWorld)
  ∧ (Configured.reportLoop exRules [exCopy] false {[ exDigest := exKept ]}
       exWorld).1.1 = {[ exDigest := exKept ]}
  ∧ (Configured.reportLoop exRules [exOdd; exCopy] true
       {[ exDigest := exKept ]} exWorld).1.1 !! exDigest = Some exKept
  ∧ firstWithDigest exDigest exKept [exKept; exOdd; exCopy].
Proof.
  destruct index_keeps_first_record as (Hmiss & Hhit & Hkept & Hfirst & _).
  split; [|split; [|split]].
  - apply (Hmiss exRules exKept [exCopy] false ∅ exWorld exDigest);
      [reflexivity | apply lookup_empty].
  - apply (Hhit exRules exCopy false {[ exDigest := exKept ]} exWorld
             exDigest exKept); [reflexivity | apply lookup_singleton_eq].
  - apply (Hkept exRules [exOdd; exCopy] true {[ exDigest := exKept ]}
             exWorld exDigest exKept). apply lookup_singleton_eq.
  - apply (Hfirst exRules [exKept; exOdd; exCopy] false exWorld exDigest
             exKept). vm_compute. reflexivity.
Defined.

(** ** Loading the rules *)

Lemma string_length_zero (s : string) :
  String.length s = 0 ↔ s = EmptyString.
Proof. destruct s; split; done. Qed.

Lemma first_byte_slash_iff_absolute (dir : string) :
  String.get 0 dir = Some "/"%char ↔ Configured.absolute dir.
Proof.
  unfold Configured.absolute. destruct dir as [|c rest]; simpl.
  - split; [discriminate | intros [? ?]; discriminate].
  - split; [intros [= ->]; eauto | intros [? [= -> _]]; done].
Qed.

Lemma checkRules_None_iff (i : nat) (rules : list Configured.Rule) :
  Configured.checkRules i rules = None ↔ Forall Configured.validRule rules.
Proof.
  revert i. induction rules as [|rule rest IH]; intros i.
  { split; [constructor | done]. }
  cbn [Configured.checkRules]. rewrite Forall_cons. unfold Configured.validRule.
  rewrite <- !first_byte_slash_iff_absolute, <- !string_length_zero.
  repeat case_bool_decide; cbn [orb];
    try (split; [discriminate | intros [? _]; tauto]).
  rewrite IH. tauto.
Qed.

Lemma checkRules_Some_kind (i : nat) (rules : list Configured.Rule)
    (err : Error) :
  Configured.checkRules i rules = Some err → kindOf err = ConfigError.
Proof.
  revert i. induction rules as [|rule rest IH]; intros i; [discriminate|].
  cbn [Configured.checkRules].
  repeat (match goal with
          | |- context [if ?b then _ else _] => destruct b
          end; [by intros [= <-]|]).
  apply IH.
Qed.

Lemma readRules_valid_inv (configFile : Configured.ConfigDocument)
    (rules : list Configured.Rule) :
  Configured.readRules configFile = Ok rules →
  rules ≠ [] ∧ Forall Configured.validRule rules.
Proof.
  destruct configFile as [| |rules']; simpl; try discriminate.
  case_bool_decide as Hlen; [discriminate|].
  destruct (Configured.checkRules 0 rules') eqn:Hcheck; [discriminate|].
  intros [= ->]. split; [by intros ->|]. by apply (checkRules_None_iff 0).
Qed.

(** C8. [readRules] returns the rules exactly when the configuration decodes
    to a non-empty list in which every rule has a non-empty keep directory
    and a non-empty remove directory, both starting with the separator, and
    the two differ; in every other case it fails, and always with a
    configuration error. *)
Theorem readRules_accepts_exactly_valid_rules
    (configFile : Configured.ConfigDocument) :
  (∀ rules,
     Configured.readRules configFile = Ok rules ↔
     configFile = Configured.Decoded rules ∧ rules ≠ []
     ∧ Forall Configured.validRule rules)
  ∧ (∀ err, Configured.readRules configFile = Fail err →
       kindOf err = ConfigError)
  ∧ ((¬ ∃ rules, configFile = Configured.Decoded rules ∧ rules ≠ []
                 ∧ Forall Configured.validRule rules) →
     ∃ err, Configured.readRules configFile = Fail err
            ∧ kindOf err = ConfigError).
Proof.
  assert (∀ err, Configured.readRules configFile = Fail err →
            kindOf err = ConfigError) as Hkind.
  { intros err. destruct configFile as [| |rules']; simpl;
      try (by intros [= <-]).
    case_bool_decide; [by intros [= <-]|].
    destruct (Configured.checkRules 0 rules') eqn:Hcheck; [|discriminate].
    intros [= <-]. by eapply checkRules_Some_kind. }
  assert (∀ rules,
            Configured.readRules configFile = Ok rules ↔
            configFile = Configured.Decoded rules ∧ rules ≠ []
            ∧ Forall Configured.validRule rules) as Hiff.
  { intros rules. destruct configFile as [| |rules']; simpl;
      try (split; [discriminate | intros [? _]; discriminate]).
    case_bool_decide as Hlen.
    - split; [discriminate|]. intros ([= ->] & Hne & _).
      by destruct rules.
    - destruct (Configured.checkRules 0 rules') eqn:Hcheck.
      + split; [discriminate|]. intros ([= ->] & _ & Hall).
        apply (checkRules_None_iff 0) in Hall. congruence.
      + apply (checkRules_None_iff 0) in Hcheck. split.
        * intros [= ->]. repeat split; [|done]. by intros ->.
        * by intros ([= ->] & _ & _). }
  split; [done|]. split; [done|].
  intros Hnot. destruct (Configured.readRules configFile) as [rules|err] eqn:Hr.
  - exfalso. apply Hnot. exists rules. by apply Hiff.
  - exists err. split; [done | by apply Hkind].
Qed.

(** ** Short reads and I/O failures *)

Lemma calculateChecksums_app (md5sum : list byte → list byte) (fs : FS)
    (pre pre' rest : list File) :
  calculateChecksums md5sum fs pre = (pre', None) →
  calculateChecksums md5sum fs (pre ++ rest)
  = (pre' ++ (calculateChecksums md5sum fs rest).1,
     (calculateChecksums md5sum fs rest).2).
Proof.
  revert pre'. induction pre as [|file pre IH]; intros pre'.
  { intros [= <-]. simpl. by destruct (calculateChecksums md5sum fs rest). }
  cbn [calculateChecksums app].
  destruct (osOpen fs (Path file)) as [fh|]; [|discriminate].
  destruct (readAll fh) as [written|]; [|discriminate].
  destruct (decide _); [discriminate|].
  destruct (negb (closeOk fh)); [discriminate|].
  destruct (calculateChecksums md5sum fs pre) as [pre1 err1] eqn:Hpre.
  intros [= <- ->]. by rewrite (IH pre1 eq_refl).
Qed.

Lemma isIdentical_first_fails (fs : FS) (file other : File) (err : Error) :
  readFile fs file = Fail err → isIdentical fs file other = (false, Some err).
Proof. intros H. unfold isIdentical. by rewrite H. Qed.

Lemma isIdentical_second_fails (fs : FS) (file other : File) (err : Error)
    (c : list byte) :
  readFile fs other = Ok c → readFile fs file = Fail err →
  isIdentical fs other file = (false, Some err).
Proof. intros H1 H2. unfold isIdentical. by rewrite H1, H2. Qed.

(** C9 (as amended). A file that opens and reads but yields a byte count
    other than its recorded size makes [calculateChecksums] stop with the
    short-read error, the file's digest left unassigned; it makes [readFile],
    and with it [isIdentical], fail with the short-read error when the file
    closes without error, and with the close error, an I/O error, when it
    does not.  A file that cannot be opened or read makes all three fail
    with an I/O error. *)
Theorem short_read_or_io_error
    (md5sum : list byte → list byte) (fs : FS) (file : File) :
  (∀ fh bytes,
     osOpen fs (Path file) = Some fh → readAll fh = Some bytes →
     Z.of_nat (length bytes) ≠ Size file →
     (∀ pre pre' post,
        calculateChecksums md5sum fs pre = (pre', None) →
        calculateChecksums md5sum fs (pre ++ file :: post)
        = (pre' ++ file :: post, Some (ErrShortReadWrite (Path file))))
     ∧ kindOf (ErrShortReadWrite (Path file)) = ShortReadError
     ∧ ∃ err,
         readFile fs file = Fail err
         ∧ err = (if closeOk fh then ErrShortRead (Path file)
                  else ErrClose (Path file))
         ∧ kindOf err = (if closeOk fh then ShortReadError else IOError)
         ∧ (∀ other, isIdentical fs file other = (false, Some err))
         ∧ (∀ other c, readFile fs other = Ok c →
              isIdentical fs other file = (false, Some err)))
  ∧ ((osOpen fs (Path file) = None
      ∨ ∃ fh, osOpen fs (Path file) = Some fh ∧ readAll fh = None) →
     (∀ pre pre' post,
        calculateChecksums md5sum fs pre = (pre', None) →
        ∃ err,
          calculateChecksums md5sum fs (pre ++ file :: post)
          = (pre' ++ file :: post, Some err)
          ∧ kindOf err = IOError)
     ∧ ∃ err,
         readFile fs file = Fail err ∧ kindOf err = IOError
         ∧ (∀ other, isIdentical fs file other = (false, Some err))
         ∧ (∀ other c, readFile fs other = Ok c →
              isIdentical fs other file = (false, Some err))).
Proof.
  split.
  - intros fh bytes Hopen Hread Hlen. split; [|split; [done|]].
    + intros pre pre' post Hpre.
      rewrite (calculateChecksums_app _ _ _ _ _ Hpre).
      cbn [calculateChecksums]. rewrite Hopen, Hread.
      by rewrite decide_True by done.
    + assert (readFile fs file
              = Fail (if closeOk fh then ErrShortRead (Path file)
                      else ErrClose (Path file))) as Hfail.
      { unfold readFile. rewrite Hopen, Hread.
        destruct (closeOk fh); [|done]. cbn [negb].
        by rewrite decide_True by done. }
      eexists. split; [exact Hfail|]. split; [done|].
      split; [by destruct (closeOk fh)|]. split.
      * intros other. by apply isIdentical_first_fails.
      * intros other c Hother. by eapply isIdentical_second_fails.
  - intros Hio. split.
    + intros pre pre' post Hpre.
      rewrite (calculateChecksums_app _ _ _ _ _ Hpre).
      cbn [calculateChecksums].
      destruct Hio as [->|(fh & -> & ->)]; eexists; split; done.
    + assert (∃ err, readFile fs file = Fail err ∧ kindOf err = IOError)
        as (err & Hfail & Hkind).
      { unfold readFile.
        destruct Hio as [->|(fh & -> & ->)]; eexists; split; done. }
      exists err. split; [done|]. split; [done|]. split.
      * intros other. by apply isIdentical_first_fails.
      * intros other c Hother. by eapply isIdentical_second_fails.
Qed.

Lemma short_read_or_io_error_witness :
  calculateChecksums (λ bytes, bytes) exDisk ([exKept] ++ exStale :: [exCopy])
  = ([setHash [x01; x02; x03] exKept] ++ exStale :: [exCopy],
     Some (ErrShortReadWrite "/a/x.png"))
  ∧ readFile exDisk exStale = Fail (ErrShortRead "/a/x.png")
  ∧ isIdentical exDisk exCopy exStale = (false, Some (ErrShortRead "/a/x.png"))
  ∧ ∃ err, readFile exDisk exMissing = Fail err ∧ kindOf err = IOError.
Proof.
  destruct (short_read_or_io_error (λ bytes, bytes) exDisk exStale)
    as [Hshort _].
  destruct (Hshort (plain [x01; x02; x03]) [x01; x02; x03])
    as (Hsum & _ & err & Hfail & -> & _ & _ & Hsecond);
    [reflexivity | reflexivity | vm_compute; discriminate |].
  destruct (short_read_or_io_error (λ bytes, bytes) exDisk exMissing)
    as [_ Hio].
  destruct Hio as (_ & err' & Hfail' & Hkind' & _); [left; reflexivity |].
  split; [apply (Hsum [exKept]); reflexivity|].
  split; [exact Hfail|].
  split; [apply (Hsecond exCopy [x01; x02; x03]); reflexivity|].
  by exists err'.
Defined.

(** C9 (as stated) fails in [readFile]: [/a/x.png] holds three bytes where
    five were recorded and its handle fails to close; the read yields a
    byte count other than the recorded size, yet [readFile] and
    [isIdentical] fail with the close error, which is an I/O error and not
    the short-read error. *)
Lemma short_read_hidden_by_close_error :
  osOpen exShortDisk (Path exShort)
  = Some (mkInode [x01; x02; x03] CloseFails true)
  ∧ readAll (mkInode [x01; x02; x03] CloseFails true) = Some [x01; x02; x03]
  ∧ Z.of_nat (length [x01; x02; x03]) ≠ Size exShort
  ∧ readFile exShortDisk exShort = Fail (ErrClose "/a/x.png")
  ∧ isIdentical exShortDisk exShort exShort
    = (false, Some (ErrClose "/a/x.png"))
  ∧ kindOf (ErrClose "/a/x.png") ≠ ShortReadError.
Proof. repeat split; try reflexivity; vm_compute; discriminate. Qed.

(** ** Parent directories and trailing separators *)

Lemma endsWithSlash_dir_ne (path : string) (dir : string) :
  dir ≠ EmptyString → endsWithSlash dir = false →
  (pathSplit path).1 ≠ dir.
Proof.
  intros Hne Hends Heq.
  destruct (pathSplit_dir_empty_or_slash path) as [H|H];
    rewrite Heq in H; congruence.
Qed.

Lemma Configured_no_match_without_slash (rule : Configured.Rule)
    (file1 file2 : File) :
  (Configured.KeepDir rule ≠ EmptyString
   ∧ endsWithSlash (Configured.KeepDir rule) = false)
  ∨ (Configured.RemoveDir rule ≠ EmptyString
     ∧ endsWithSlash (Configured.RemoveDir rule) = false) →
  Configured.matchesRule rule (pathSplit (Path file1)).1
    (pathSplit (Path file2)).1 = false.
Proof.
  intros Hbad. unfold Configured.matchesRule.
  destruct Hbad as [[Hne Hends]|[Hne Hends]].
  - rewrite (bool_decide_eq_false_2 (_ = Configured.KeepDir rule))
      by by apply endsWithSlash_dir_ne.
    rewrite (bool_decide_eq_false_2
               ((pathSplit (Path file2)).1 = Configured.KeepDir rule))
      by by apply endsWithSlash_dir_ne.
    by rewrite andb_false_r.
  - rewrite (bool_decide_eq_false_2
               ((pathSplit (Path file2)).1 = Configured.RemoveDir rule))
      by by apply endsWithSlash_dir_ne.
    rewrite (bool_decide_eq_false_2
               ((pathSplit (Path file1)).1 = Configured.RemoveDir rule))
      by by apply endsWithSlash_dir_ne.
    by rewrite andb_false_r.
Qed.

Lemma Configured_firstMatch_skip (pre post : list Configured.Rule)
    (rule : Configured.Rule) (dir1 dir2 : string) :
  Configured.matchesRule rule dir1 dir2 = false →
  Configured.firstMatch (pre ++ rule :: post) dir1 dir2
  = Configured.firstMatch (pre ++ post) dir1 dir2.
Proof.
  intros Hrule. induction pre as [|r pre IH]; simpl.
  - by rewrite Hrule.
  - by rewrite IH.
Qed.

(** C10 (as amended). The parent directory that [path.Split] computes is
    empty when the path has no separator and ends with the separator
    otherwise.  A rule with a non-empty keep or remove directory that lacks
    the trailing separator therefore applies to no pair of files, and
    dropping it from a rule list changes nothing; this covers every rule that
    [readRules] accepts, since those directories are never empty.  A single
    rule is found exactly when the two parent directories equal its two
    directories, as strings, in one of the two orientations. *)
Theorem rule_without_trailing_separator_never_matches :
  (∀ path,
     (pathSplit path).1 = EmptyString ∨ endsWithSlash (pathSplit path).1 = true)
  ∧ (∀ path, (pathSplit path).1 = EmptyString ↔ hasSlash path = false)
  ∧ (∀ rule,
       (Configured.KeepDir rule ≠ EmptyString
        ∧ endsWithSlash (Configured.KeepDir rule) = false)
       ∨ (Configured.RemoveDir rule ≠ EmptyString
          ∧ endsWithSlash (Configured.RemoveDir rule) = false) →
       ∀ file1 file2 live w,
         Configured.resolveDuplicate [rule] file1 file2 live w
         = (w, (false, None))
         ∧ ∀ pre post,
             Configured.resolveDuplicate (pre ++ rule :: post) file1 file2
               live w
             = Configured.resolveDuplicate (pre ++ post) file1 file2 live w)
  ∧ (∀ configFile rules rule,
       Configured.readRules configFile = Ok rules → rule ∈ rules →
       endsWithSlash (Configured.KeepDir rule) = false
       ∨ endsWithSlash (Configured.RemoveDir rule) = false →
       ∀ file1 file2 live w,
         Configured.resolveDuplicate [rule] file1 file2 live w
         = (w, (false, None)))
  ∧ (∀ rule file1 file2 live w,
       (Configured.resolveDuplicate [rule] file1 file2 live w).2.1 = true ↔
       ((pathSplit (Path file1)).1 = Configured.KeepDir rule
        ∧ (pathSplit (Path file2)).1 = Configured.RemoveDir rule)
       ∨ ((pathSplit (Path file1)).1 = Configured.RemoveDir rule
          ∧ (pathSplit (Path file2)).1 = Configured.KeepDir rule)).
Proof.
  assert (∀ rule,
            (Configured.KeepDir rule ≠ EmptyString
             ∧ endsWithSlash (Configured.KeepDir rule) = false)
            ∨ (Configured.RemoveDir rule ≠ EmptyString
               ∧ endsWithSlash (Configured.RemoveDir rule) = false) →
            ∀ file1 file2 live w,
              Configured.resolveDuplicate [rule] file1 file2 live w
              = (w, (false, None))
              ∧ ∀ pre post,
                  Configured.resolveDuplicate (pre ++ rule :: post) file1
                    file2 live w
                  = Configured.resolveDuplicate (pre ++ post) file1 file2
                      live w) as Hnever.
  { intros rule Hbad file1 file2 live w.
    pose proof (Configured_no_match_without_slash rule file1 file2 Hbad)
      as Hno.
    unfold Configured.resolveDuplicate. split.
    - rewrite Configured_resolveLoop_firstMatch.
      cbn [Configured.firstMatch]. by rewrite Hno.
    - intros pre post.
      rewrite (Configured_resolveLoop_firstMatch (pre ++ rule :: post)).
      rewrite (Configured_resolveLoop_firstMatch (pre ++ post)).
      by rewrite Configured_firstMatch_skip. }
  split; [apply pathSplit_dir_empty_or_slash|].
  split; [apply pathSplit_dir_empty_iff|].
  split; [exact Hnever|]. split.
  - intros configFile rules rule Hread Hin Hbad file1 file2 live w.
    destruct (readRules_valid_inv configFile rules Hread) as [_ Hall].
    rewrite Forall_forall in Hall.
    destruct (Hall rule Hin) as (HK & HR & _).
    apply Hnever. tauto.
  - intros rule file1 file2 live w. unfold Configured.resolveDuplicate.
    rewrite Configured_single_rule_found. unfold Configured.matchesRule.
    rewrite orb_true_iff, !andb_true_iff, !bool_decide_eq_true. done.
Qed.

Lemma rule_without_trailing_separator_never_matches_witness :
  Configured.resolveDuplicate [exBareRule] exKept exCopy true exWorld
  = (exWorld, (false, None))
  ∧ Configured.resolveDuplicate ([] ++ exBareRule :: exRules) exKept exCopy
      true exWorld
    = Configured.resolveDuplicate ([] ++ exRules) exKept exCopy true exWorld.
Proof.
  destruct rule_without_trailing_separator_never_matches
    as (_ & _ & Hnever & _).
  destruct (Hnever exBareRule) with exKept exCopy true exWorld
    as [Hsingle Hdrop].
  - left. split; [discriminate | reflexivity].
  - split; [exact Hsingle | apply Hdrop].
Defined.

(** C10 (as stated) fails at a path without separator: the parent directory
    of [x.png] is the empty string, which does not end with the separator;
    and a rule whose keep directory is empty, which [readRules] refuses, is
    found for that file by [resolveDuplicate]. *)
Lemma parent_directory_of_bare_name_is_empty :
  pathSplit "x.png" = (EmptyString, "x.png")
  ∧ endsWithSlash (pathSplit "x.png").1 = false
  ∧ ¬ (∀ path, endsWithSlash (pathSplit path).1 = true)
  ∧ endsWithSlash (Configured.KeepDir exEmptyRule) = false
  ∧ (Configured.resolveDuplicate [exEmptyRule] exBare exCopy false exWorld).2
    = (true, None)
  ∧ Configured.readRules (Configured.Decoded [exEmptyRule])
    = Fail (ErrRuleMissingDir 0).
Proof.
  repeat split; try (vm_compute; reflexivity).
  intros Hall. specialize (Hall "x.png"). vm_compute in Hall. discriminate.
Qed.

(** ** Instances of the statements above on the sample data *)


Lemma isIdentical_true_iff_same_bytes_witness :
  isIdentical exDisk exKept exCopy = (true, None)
  ∧ isIdentical exDisk exKept exOdd = (false, None).
Proof.
  destruct (isIdentical_true_iff_same_bytes exDisk exKept exCopy)
    as ([_ Hsame] & _ & _).
  destruct (isIdentical_true_iff_same_bytes exDisk exKept exOdd)
    as (_ & Hdiff & _).
  split.
  - apply Hsame. exists [x01; x02; x03], [x01; x02; x03].
    repeat split; vm_compute; reflexivity.
  - apply (Hdiff [x01; x02; x03] [x01; x02; x04]);
      [vm_compute; reflexivity | vm_compute; reflexivity |].
    right. exists 2. discriminate.
Defined.

Lemma readRules_accepts_exactly_valid_rules_witness :
  Configured.readRules (Configured.Decoded exRules) = Ok exRules
  ∧ ∃ err, Configured.readRules (Configured.Decoded []) = Fail err
           ∧ kindOf err = ConfigError.
Proof.
  destruct (readRules_accepts_exactly_valid_rules (Configured.Decoded exRules))
    as (Hiff & _ & _).
  destruct (readRules_accepts_exactly_valid_rules (Configured.Decoded []))
    as (_ & _ & Hrej).
  split.
  - apply Hiff. split; [reflexivity|]. split; [discriminate|].
    repeat constructor; try discriminate; by eexists.
  - apply Hrej. intros (rules & [= <-] & Hne & _). done.
Defined.

(** * Further properties of the programs *)

(** ** Instances on the sample data *)


Lemma Configured_live_symmetric_witness :
  Forall (λ rule, Configured.KeepDir rule ≠ Configured.RemoveDir rule) exRules
  ∧ Configured.resolveDuplicate exRules exCopy exKept true exWorld
    = Configured.resolveDuplicate exRules exKept exCopy true exWorld.
Proof.
  assert (Forall (λ rule, Configured.KeepDir rule ≠ Configured.RemoveDir rule)
            exRules) as Hvalid.
  { repeat constructor. discriminate. }
  split; [exact Hvalid|].
  apply (Configured_live_symmetric exRules exKept exCopy exWorld Hvalid).
Defined.

(** ** A run only removes files of its list *)

Lemma onlyRemoves_refl (paths : list string) (fs : FS) :
  onlyRemoves paths fs fs.
Proof. intros path. by left. Qed.

Lemma onlyRemoves_trans (paths : list string) (fs1 fs2 fs3 : FS) :
  onlyRemoves paths fs1 fs2 → onlyRemoves paths fs2 fs3 →
  onlyRemoves paths fs1 fs3.
Proof.
  intros H12 H23 path. destruct (H23 path) as [Heq|[Hnone Hin]].
  - rewrite Heq. apply H12.
  - right. done.
Qed.

Lemma onlyRemoves_of_atMostOne (paths : list string) (file1 file2 : File)
    (live : bool) (before after : FS) :
  Path file1 ∈ paths → Path file2 ∈ paths →
  atMostOneRemoved file1 file2 live before after →
  onlyRemoves paths before after.
Proof.
  intros H1 H2 [-> | [[_ ->] | [_ ->]]] path; [by left| |].
  - destruct (decide (path = Path file1)) as [->|Hne].
    + right. by rewrite lookup_delete_eq.
    + left. by rewrite lookup_delete_ne.
  - destruct (decide (path = Path file2)) as [->|Hne].
    + right. by rewrite lookup_delete_eq.
    + left. by rewrite lookup_delete_ne.
Qed.

Lemma Configured_reportLoop_onlyRemoves (paths : list string)
    (rules : list Configured.Rule) (files : list File) (live : bool)
    (index : gmap (list byte) File) (w : World) :
  (∀ file, file ∈ files → Path file ∈ paths) →
  (∀ k g, index !! k = Some g → Path g ∈ paths) →
  onlyRemoves paths (disk w)
    (disk (Configured.reportLoop rules files live index w).1.2).
Proof.
  revert index w. induction files as [|file rest IH]; intros index w Hfiles
    Hindex; [apply onlyRemoves_refl|].
  assert (∀ f, f ∈ rest → Path f ∈ paths) as Hrest.
  { intros f Hf. apply Hfiles. by right. }
  cbn [Configured.reportLoop].
  destruct (checksumKey (Hash file)) as [k|] eqn:Hk; [|apply onlyRemoves_refl].
  destruct (index !! k) as [found|] eqn:Hidx.
  - destruct (isIdentical (disk w) found file) as [[] [?|]];
      try apply onlyRemoves_refl.
    pose proof (Configured_resolveLoop_disk rules found file
                  (pathSplit (Path found)).1 (pathSplit (Path file)).1 live
                  (logPrintf ("Duplicate files found: " +:+ Path file
                              +:+ " and " +:+ Path found) w)) as Hat.
    apply (onlyRemoves_of_atMostOne paths) in Hat;
      [|by eapply Hindex|apply Hfiles; left].
    unfold Configured.resolveDuplicate.
    destruct (Configured.resolveLoop _ _ _ _ _ _ _) as [w' [b [?|]]];
      cbn [fst snd] in *; [exact Hat|].
    eapply onlyRemoves_trans; [exact Hat|].
    destruct b; cbn [negb];
      [by apply (IH index w') | by apply (IH index (logPrintf _ w'))].
  - apply IH; [done|]. intros k' g.
    destruct (decide (k = k')) as [<-|Hkk].
    + rewrite lookup_insert_eq. intros [= <-]. apply Hfiles. left.
    + rewrite lookup_insert_ne by done. apply Hindex.
Qed.

Lemma Hardcoded_reportLoop_onlyRemoves (paths : list string)
    (files : list File) (live : bool) (index : gmap (list byte) File)
    (w : World) :
  (∀ file, file ∈ files → Path file ∈ paths) →
  (∀ k g, index !! k = Some g → Path g ∈ paths) →
  onlyRemoves paths (disk w)
    (disk (Hardcoded.reportLoop files live index w).1.2).
Proof.
  revert index w. induction files as [|file rest IH]; intros index w Hfiles
    Hindex; [apply onlyRemoves_refl|].
  assert (∀ f, f ∈ rest → Path f ∈ paths) as Hrest.
  { intros f Hf. apply Hfiles. by right. }
  cbn [Hardcoded.reportLoop].
  destruct (checksumKey (Hash file)) as [k|] eqn:Hk; [|apply onlyRemoves_refl].
  destruct (index !! k) as [found|] eqn:Hidx.
  - destruct (isIdentical (disk w) found file) as [[] [?|]];
      try apply onlyRemoves_refl.
    + pose proof (Hardcoded_resolveDuplicate_disk found file live
                    (logPrintf ("Duplicate found: " +:+ Path file
                                +:+ " and " +:+ Path found) w)) as Hat.
      apply (onlyRemoves_of_atMostOne paths) in Hat;
        [|by eapply Hindex|apply Hfiles; left].
      destruct (Hardcoded.resolveDuplicate _ _ _ _) as [w' [?|]];
        cbn [fst snd] in *; [exact Hat|].
      eapply onlyRemoves_trans; [exact Hat|]. by apply IH.
    + by apply (IH index (logPrintf _ w)).
  - apply IH; [done|]. intros k' g.
    destruct (decide (k = k')) as [<-|Hkk].
    + rewrite lookup_insert_eq. intros [= <-]. apply Hfiles. left.
    + rewrite lookup_insert_ne by done. apply Hindex.
Qed.

(** X3. Whatever the rules, the mode and the outcome, a run leaves every
    path of the disk as it was or removes it, and it removes only paths of
    the files it was given: it creates nothing, rewrites nothing and touches
    no other file. *)
Theorem run_only_removes_listed_files
    (files : list File) (live : bool) (w : World) :
  (∀ rules,
     onlyRemoves (Path <$> files) (disk w)
       (disk (Configured.reportAndResolveDuplicates rules files live w).1.2))
  ∧ onlyRemoves (Path <$> files) (disk w)
      (disk (Hardcoded.reportDupes files live w).1.2).
Proof.
  split; [intros rules|].
  - apply Configured_reportLoop_onlyRemoves.
    + intros file Hin. by apply list_elem_of_fmap_2.
    + intros k g Hg. by rewrite lookup_empty in Hg.
  - apply Hardcoded_reportLoop_onlyRemoves.
    + intros file Hin. by apply list_elem_of_fmap_2.
    + intros k g Hg. by rewrite lookup_empty in Hg.
Qed.

(** ** The key of the index *)

(** X4. The array key made from a digest: a digest of at most sixteen bytes
    gives a key of exactly sixteen bytes that starts with the digest and is
    zero after it, so a digest of sixteen bytes is its own key and digests
    of one length with one key are equal; a longer digest makes the copy
    loop store past the array, which panics. *)
Theorem checksumKey_pads_or_panics (hash : list byte) :
  (length hash ≤ 16 →
   ∃ key, checksumKey hash = Some key ∧ length key = 16
          ∧ take (length hash) key = hash
          ∧ ∀ i, length hash ≤ i < 16 → key !! i = Some x00)
  ∧ (length hash = 16 → checksumKey hash = Some hash)
  ∧ (16 < length hash → checksumKey hash = None)
  ∧ (∀ other key, checksumKey hash = Some key → checksumKey other = Some key →
       length other = length hash → other = hash).
Proof.
  unfold checksumKey, md5Size. repeat split.
  - intros Hlen. rewrite decide_True by done. eexists. split; [done|].
    split; [|split].
    + rewrite length_app, length_replicate. lia.
    + by rewrite take_app_length.
    + intros i [Hlo Hhi]. rewrite lookup_app_r by done.
      apply lookup_replicate_2. lia.
  - intros Hlen. rewrite decide_True by lia. rewrite Hlen.
    by rewrite Nat.sub_diag, app_nil_r.
  - intros Hlen. by rewrite decide_False by lia.
  - intros other key. repeat case_decide; try discriminate.
    intros [= <-] [= Heq] Hlen. rewrite Hlen in Heq.
    by apply app_inv_tail in Heq.
Qed.

Lemma checksumKey_pads_or_panics_witness :
  (∃ key, checksumKey [x0a; x0b] = Some key ∧ length key = 16
          ∧ take (length [x0a; x0b]) key = [x0a; x0b]
          ∧ ∀ i, length [x0a; x0b] ≤ i < 16 → key !! i = Some x00)
  ∧ checksumKey exDigest = Some exDigest
  ∧ checksumKey (x00 :: exDigest) = None.
Proof.
  destruct (checksumKey_pads_or_panics [x0a; x0b]) as (Hpad & _).
  destruct (checksumKey_pads_or_panics exDigest) as (_ & Hid & _).
  destruct (checksumKey_pads_or_panics (x00 :: exDigest)) as (_ & _ & Hlong & _).
  split; [apply Hpad; vm_compute; lia|].
  split; [apply Hid; reflexivity | apply Hlong; vm_compute; lia].
Defined.

(** ** Fingerprinting a list of files *)

Lemma calculateChecksums_cons_hashable (md5sum : list byte → list byte)
    (fs : FS) (file : File) (rest : list File) (fh : Inode) :
  fs !! Path file = Some fh → fault fh = NoFault →
  Z.of_nat (length (contents fh)) = Size file →
  calculateChecksums md5sum fs (file :: rest)
  = (setHash (md5sum (contents fh)) file
       :: (calculateChecksums md5sum fs rest).1,
     (calculateChecksums md5sum fs rest).2).
Proof.
  intros Hfh Hfault Hsize. cbn [calculateChecksums].
  unfold osOpen, readAll, closeOk. rewrite Hfh.
  destruct (decide (fault fh = OpenFails)); [congruence|].
  destruct (decide (fault fh = ReadFails)); [congruence|].
  destruct (decide (Z.of_nat (length (contents fh)) ≠ Size file)); [done|].
  destruct (decide (fault fh = CloseFails)); [congruence|]. cbn [negb].
  by destruct (calculateChecksums md5sum fs rest).
Qed.

Lemma calculateChecksums_cons_not_hashable (md5sum : list byte → list byte)
    (fs : FS) (file : File) (rest : list File) :
  ¬ hashable fs file →
  ∃ file' err,
    calculateChecksums md5sum fs (file :: rest) = (file' :: rest, Some err)
    ∧ (err = ErrOpen (Path file) ∨ err = ErrWriteToHash (Path file)
       ∨ err = ErrShortReadWrite (Path file) ∨ err = ErrClose (Path file))
    ∧ (err ≠ ErrClose (Path file) → file' = file)
    ∧ (err = ErrClose (Path file) → hashedAs md5sum fs file file').
Proof.
  intros Hnot. cbn [calculateChecksums]. unfold osOpen, readAll, closeOk.
  destruct (fs !! Path file) as [fh|] eqn:Hfh.
  2:{ exists file, (ErrOpen (Path file)). repeat split; auto; done. }
  destruct (decide (fault fh = OpenFails)).
  { exists file, (ErrOpen (Path file)). repeat split; auto; done. }
  destruct (decide (fault fh = ReadFails)).
  { exists file, (ErrWriteToHash (Path file)). repeat split; auto; done. }
  destruct (decide (Z.of_nat (length (contents fh)) ≠ Size file)) as [|Hsize].
  { exists file, (ErrShortReadWrite (Path file)). repeat split; auto; done. }
  apply dec_stable in Hsize.
  destruct (decide (fault fh = CloseFails)); cbn [negb].
  { exists (setHash (md5sum (contents fh)) file), (ErrClose (Path file)).
    repeat split; auto; [done|]. intros _. by exists fh. }
  exfalso. apply Hnot. exists fh. repeat split; [done| |done].
  by destruct (fault fh).
Qed.

Lemma calculateChecksums_outcome (md5sum : list byte → list byte) (fs : FS)
    (files : list File) :
  (Forall (hashable fs) files
   ∧ (calculateChecksums md5sum fs files).2 = None
   ∧ Forall2 (hashedAs md5sum fs) files (calculateChecksums md5sum fs files).1)
  ∨ ∃ pre file post pre' file' err,
      files = pre ++ file :: post
      ∧ Forall (hashable fs) pre ∧ ¬ hashable fs file
      ∧ calculateChecksums md5sum fs files
        = (pre' ++ file' :: post, Some err)
      ∧ Forall2 (hashedAs md5sum fs) pre pre'
      ∧ (err = ErrOpen (Path file) ∨ err = ErrWriteToHash (Path file)
         ∨ err = ErrShortReadWrite (Path file) ∨ err = ErrClose (Path file))
      ∧ (err ≠ ErrClose (Path file) → file' = file)
      ∧ (err = ErrClose (Path file) → hashedAs md5sum fs file file').
Proof.
  induction files as [|file rest IH].
  { left. repeat split; constructor. }
  destruct (decide (hashable fs file)) as [Hok|Hnot].
  - destruct Hok as (fh & Hfh & Hfault & Hsize).
    rewrite (calculateChecksums_cons_hashable _ _ _ _ _ Hfh Hfault Hsize).
    assert (hashable fs file) as Hok by (by exists fh).
    assert (hashedAs md5sum fs file (setHash (md5sum (contents fh)) file))
      as Hhashed by (by exists fh).
    destruct IH as [(Hall & Herr & Hres)
                   |(pre & f & post & pre' & f' & err & -> & Hpre & Hf & Hcalc
                     & Hpre' & Herr & Hsame & Hclose)].
    + left. cbn [fst snd]. repeat split; [by constructor|done|by constructor].
    + right. exists (file :: pre), f, post,
        (setHash (md5sum (contents fh)) file :: pre'), f', err.
      rewrite Hcalc. cbn [fst snd].
      repeat split; try done; by constructor.
  - right.
    destruct (calculateChecksums_cons_not_hashable md5sum fs file rest Hnot)
      as (file' & err & Hcalc & Herr & Hsame & Hclose).
    exists [], file, rest, [], file', err. repeat split; try done; constructor.
Qed.

(** X5. [calculateChecksums] returns no error exactly when every file of
    the list is on the disk, opens, reads and closes without failure and has
    its recorded size; the list it then leaves is the same files, in the
    same order, each with the digest of what the disk holds under its
    path. *)
Theorem calculateChecksums_succeeds_iff
    (md5sum : list byte → list byte) (fs : FS) (files : list File) :
  ((calculateChecksums md5sum fs files).2 = None
   ↔ Forall (hashable fs) files)
  ∧ ((calculateChecksums md5sum fs files).2 = None →
     Forall2 (hashedAs md5sum fs) files
       (calculateChecksums md5sum fs files).1).
Proof.
  destruct (calculateChecksums_outcome md5sum fs files)
    as [(Hall & Herr & Hres)
       |(pre & f & post & pre' & f' & err & -> & Hpre & Hf & Hcalc & _)].
  - repeat split; done.
  - rewrite Hcalc. cbn [snd]. split; [split|]; try discriminate.
    intros Hall. apply Forall_app in Hall as [_ Hall].
    apply Forall_cons in Hall as [? _]. done.
Qed.

Lemma calculateChecksums_succeeds_iff_witness :
  (calculateChecksums exSum exDisk [exKept; exCopy]).2 = None
  ∧ Forall2 (hashedAs exSum exDisk) [exKept; exCopy]
      (calculateChecksums exSum exDisk [exKept; exCopy]).1.
Proof.
  destruct (calculateChecksums_succeeds_iff exSum exDisk [exKept; exCopy])
    as [Hiff Hres].
  assert ((calculateChecksums exSum exDisk [exKept; exCopy]).2 = None) as Hok.
  { apply Hiff. repeat constructor.
    - exists (plain [x01; x02; x03]). repeat split; reflexivity.
    - exists (plain [x01; x02; x03]). repeat split; reflexivity. }
  split; [exact Hok | exact (Hres Hok)].
Defined.

(** X6. When [calculateChecksums] fails, the error names the first file that
    cannot be fingerprinted; the files before it carry their digests, the
    files after it are untouched, and the failing file itself is untouched
    unless the failure is that of closing it, in which case its digest has
    already been assigned. *)
Theorem calculateChecksums_stops_at_first_failure
    (md5sum : list byte → list byte) (fs : FS) (files files' : list File)
    (err : Error) :
  calculateChecksums md5sum fs files = (files', Some err) →
  ∃ pre file post pre' file',
    files = pre ++ file :: post ∧ files' = pre' ++ file' :: post
    ∧ Forall (hashable fs) pre ∧ ¬ hashable fs file
    ∧ Forall2 (hashedAs md5sum fs) pre pre'
    ∧ (err = ErrOpen (Path file) ∨ err = ErrWriteToHash (Path file)
       ∨ err = ErrShortReadWrite (Path file) ∨ err = ErrClose (Path file))
    ∧ (err ≠ ErrClose (Path file) → file' = file)
    ∧ (err = ErrClose (Path file) → hashedAs md5sum fs file file').
Proof.
  intros Hcalc.
  destruct (calculateChecksums_outcome md5sum fs files)
    as [(_ & Herr & _)
       |(pre & f & post & pre' & f' & err' & -> & Hpre & Hf & Hcalc' & Hpre'
         & Herr & Hsame & Hclose)].
  - rewrite Hcalc in Herr. discriminate.
  - rewrite Hcalc in Hcalc'. injection Hcalc' as -> ->.
    exists pre, f, post, pre', f'. repeat split; done.
Qed.

Lemma calculateChecksums_stops_at_first_failure_witness :
  calculateChecksums exSum exDisk [exKept; exStale; exCopy]
  = ([setHash (exSum [x01; x02; x03]) exKept; exStale; exCopy],
     Some (ErrShortReadWrite "/a/x.png"))
  ∧ ∃ pre file post pre' file',
      [exKept; exStale; exCopy] = pre ++ file :: post
      ∧ [setHash (exSum [x01; x02; x03]) exKept; exStale; exCopy]
        = pre' ++ file' :: post
      ∧ Forall (hashable exDisk) pre ∧ ¬ hashable exDisk file
      ∧ Forall2 (hashedAs exSum exDisk) pre pre'
      ∧ (ErrShortReadWrite "/a/x.png" = ErrOpen (Path file)
         ∨ ErrShortReadWrite "/a/x.png" = ErrWriteToHash (Path file)
         ∨ ErrShortReadWrite "/a/x.png" = ErrShortReadWrite (Path file)
         ∨ ErrShortReadWrite "/a/x.png" = ErrClose (Path file))
      ∧ (ErrShortReadWrite "/a/x.png" ≠ ErrClose (Path file) → file' = file)
      ∧ (ErrShortReadWrite "/a/x.png" = ErrClose (Path file) →
         hashedAs exSum exDisk file file').
Proof.
  assert (calculateChecksums exSum exDisk [exKept; exStale; exCopy]
          = ([setHash (exSum [x01; x02; x03]) exKept; exStale; exCopy],
             Some (ErrShortReadWrite "/a/x.png"))) as Hcalc
    by (vm_compute; reflexivity).
  split; [exact Hcalc|].
  exact (calculateChecksums_stops_at_first_failure exSum exDisk _ _ _ Hcalc).
Defined.

(** ** How a run can end *)

Lemma readFile_Fail_kind (fs : FS) (file : File) (err : Error) :
  readFile fs file = Fail err →
  kindOf err = IOError ∨ kindOf err = ShortReadError.
Proof.
  unfold readFile. destruct (osOpen fs (Path file)) as [fh|];
    [|intros [= <-]; by left].
  destruct (readAll fh); [|intros [= <-]; by left].
  destruct (negb (closeOk fh)); [intros [= <-]; by left|].
  destruct (decide _); [intros [= <-]; by right | discriminate].
Qed.

Lemma isIdentical_error_kind (fs : FS) (file1 file2 : File) (b : bool)
    (err : Error) :
  isIdentical fs file1 file2 = (b, Some err) →
  kindOf err = IOError ∨ kindOf err = ShortReadError.
Proof.
  unfold isIdentical.
  destruct (readFile fs file1) as [c1|e1] eqn:H1.
  2:{ intros [= _ <-]. by eapply readFile_Fail_kind. }
  destruct (readFile fs file2) as [c2|e2] eqn:H2.
  2:{ intros [= _ <-]. by eapply readFile_Fail_kind. }
  by destruct (decide _).
Qed.

Lemma Configured_resolveLoop_error (rules : list Configured.Rule)
    (file1 file2 : File) (dir1 dir2 : string) (live : bool) (w : World)
    (err : Error) :
  (Configured.resolveLoop rules file1 file2 dir1 dir2 live w).2.2 = Some err →
  kindOf err = DeletionError.
Proof.
  induction rules as [|rule rest IH]; [discriminate|].
  cbn [Configured.resolveLoop].
  destruct (_ && _).
  { destruct live; [|discriminate].
    destruct (osRemove _ _); [discriminate | by intros [= <-]]. }
  destruct (_ && _); [|exact IH].
  destruct live; [|discriminate].
  destruct (osRemove _ _); [discriminate | by intros [= <-]].
Qed.

Lemma Hardcoded_resolveLoop_error (rules : list Hardcoded.Rule)
    (file1 file2 : File) (dir1 dir2 : string) (live : bool) (w : World)
    (err : Error) :
  (Hardcoded.resolveLoop rules file1 file2 dir1 dir2 live w).2 = Some err →
  kindOf err = DeletionError.
Proof.
  revert w. induction rules as [|rule rest IH]; intros w; [discriminate|].
  cbn [Hardcoded.resolveLoop].
  destruct (_ && _).
  { destruct live; [|apply IH].
    destruct (osRemove _ _); [apply IH | by intros [= <-]]. }
  destruct (_ && _); [|apply IH].
  destruct live; [|apply IH].
  destruct (osRemove _ _); [apply IH | by intros [= <-]].
Qed.

Lemma Configured_reportLoop_error (rules : list Configured.Rule)
    (files : list File) (live : bool) (index : gmap (list byte) File)
    (w : World) (err : Error) :
  Forall (λ file, is_Some (checksumKey (Hash file))) files →
  (Configured.reportLoop rules files live index w).2 = Some err →
  kindOf err = IOError ∨ kindOf err = ShortReadError
  ∨ kindOf err = HashCollisionWithoutIdentity ∨ kindOf err = DeletionError.
Proof.
  revert index w. induction files as [|file rest IH]; intros index w Hkeys;
    [discriminate|].
  apply Forall_cons in Hkeys as [[k Hk] Hkeys].
  cbn [Configured.reportLoop]. rewrite Hk.
  destruct (index !! k) as [found|]; [|by apply IH].
  destruct (isIdentical (disk w) found file) as [[] [e|]] eqn:Hid;
    try (intros [= <-]; cbn [kindOf];
         destruct (isIdentical_error_kind _ _ _ _ _ Hid); by auto).
  2:{ intros [= <-]. auto. }
  pose proof (Configured_resolveLoop_error rules found file
                (pathSplit (Path found)).1 (pathSplit (Path file)).1 live
                (logPrintf ("Duplicate files found: " +:+ Path file
                            +:+ " and " +:+ Path found) w)) as Hrm.
  unfold Configured.resolveDuplicate.
  destruct (Configured.resolveLoop _ _ _ _ _ _ _) as [w' [b [e|]]];
    cbn [fst snd] in *.
  - intros [= <-]. rewrite (Hrm e eq_refl). auto.
  - by apply IH.
Qed.

Lemma Hardcoded_reportLoop_error (files : list File) (live : bool)
    (index : gmap (list byte) File) (w : World) (err : Error) :
  Forall (λ file, is_Some (checksumKey (Hash file))) files →
  (Hardcoded.reportLoop files live index w).2 = Some err →
  kindOf err = IOError ∨ kindOf err = ShortReadError
  ∨ kindOf err = DeletionError.
Proof.
  revert index w. induction files as [|file rest IH]; intros index w Hkeys;
    [discriminate|].
  apply Forall_cons in Hkeys as [[k Hk] Hkeys].
  cbn [Hardcoded.reportLoop]. rewrite Hk.
  destruct (index !! k) as [found|]; [|by apply IH].
  destruct (isIdentical (disk w) found file) as [[] [e|]] eqn:Hid;
    try (intros [= <-]; cbn [kindOf];
         destruct (isIdentical_error_kind _ _ _ _ _ Hid); by auto).
  2:{ by apply IH. }
  pose proof (Hardcoded_resolveLoop_error Hardcoded.rules found file
                (pathSplit (Path found)).1 (pathSplit (Path file)).1 live
                (logPrintf ("Duplicate found: " +:+ Path file
                            +:+ " and " +:+ Path found) w)) as Hrm.
  unfold Hardcoded.resolveDuplicate.
  destruct (Hardcoded.resolveLoop _ _ _ _ _ _ _) as [w' [e|]];
    cbn [fst snd] in *.
  - intros [= <-]. rewrite (Hrm e eq_refl). auto.
  - by apply IH.
Qed.

Lemma hashedAs_key (md5sum : list byte → list byte) (fs : FS)
    (file file' : File) :
  (∀ bytes, length (md5sum bytes) = 16) →
  hashedAs md5sum fs file file' →
  checksumKey (Hash file') = Some (Hash file').
Proof.
  intros Hsize (fh & _ & ->). cbn [setHash Hash].
  unfold checksumKey, md5Size. rewrite decide_True by (rewrite Hsize; lia).
  by rewrite Hsize, Nat.sub_diag, app_nil_r.
Qed.

Lemma hashedAs_keys (md5sum : list byte → list byte) (fs : FS)
    (files hashed : list File) :
  (∀ bytes, length (md5sum bytes) = 16) →
  Forall2 (hashedAs md5sum fs) files hashed →
  Forall (λ file, checksumKey (Hash file) = Some (Hash file)) hashed.
Proof.
  intros Hsize Hres. induction Hres as [|f f' l l' Hf _ IH]; constructor.
  - by eapply hashedAs_key.
  - exact IH.
Qed.

Lemma exSum_size (bytes : list byte) : length (exSum bytes) = 16.
Proof.
  unfold exSum. rewrite length_take, length_app, length_replicate. lia.
Qed.

(** X7. Once [calculateChecksums] has assigned sixteen-byte digests to all
    files, each digest is its own index key and neither report loop can
    panic on the key copy; a run over these files then ends early only on an
    I/O or short-read failure while comparing, on a failed removal or, in
    the configured program only, on a hash collision. *)
Theorem hashed_files_never_panic
    (md5sum : list byte → list byte) (fs : FS) (files : list File) :
  (∀ bytes, length (md5sum bytes) = 16) →
  (calculateChecksums md5sum fs files).2 = None →
  let hashed := (calculateChecksums md5sum fs files).1 in
  Forall (λ file, checksumKey (Hash file) = Some (Hash file)) hashed
  ∧ (∀ rules live w err,
       (Configured.reportAndResolveDuplicates rules hashed live w).2
       = Some err →
       kindOf err = IOError ∨ kindOf err = ShortReadError
       ∨ kindOf err = HashCollisionWithoutIdentity
       ∨ kindOf err = DeletionError)
  ∧ (∀ live w err,
       (Hardcoded.reportDupes hashed live w).2 = Some err →
       kindOf err = IOError ∨ kindOf err = ShortReadError
       ∨ kindOf err = DeletionError).
Proof.
  intros Hsize Hok hashed.
  assert (Forall (λ file, checksumKey (Hash file) = Some (Hash file)) hashed)
    as Hkeys.
  { destruct (calculateChecksums_outcome md5sum fs files)
      as [(_ & _ & Hres)|(pre & f & post & pre' & f' & e & _ & _ & _ & Hc & _)].
    - subst hashed. by eapply hashedAs_keys.
    - rewrite Hc in Hok. discriminate. }
  assert (Forall (λ file, is_Some (checksumKey (Hash file))) hashed) as Hsome.
  { eapply Forall_impl; [exact Hkeys|]. intros f ->. by eexists. }
  split; [exact Hkeys|]. split.
  - intros rules live w err. by apply Configured_reportLoop_error.
  - intros live w err. by apply Hardcoded_reportLoop_error.
Qed.

Lemma hashed_files_never_panic_witness :
  (∀ bytes, length (exSum bytes) = 16)
  ∧ (calculateChecksums exSum exDisk [exKept; exOdd; exCopy]).2 = None
  ∧ kindOf (ErrHashCollision "/b/odd.png" "/a/x.png")
    = HashCollisionWithoutIdentity
  ∧ Forall (λ file, checksumKey (Hash file) = Some (Hash file))
      (calculateChecksums exSum exDisk [exKept; exOdd; exCopy]).1.
Proof.
  assert ((calculateChecksums exSum exDisk [exKept; exOdd; exCopy]).2 = None)
    as Hok by (vm_compute; reflexivity).
  split; [exact exSum_size|]. split; [exact Hok|]. split; [reflexivity|].
  exact (proj1 (hashed_files_never_panic exSum exDisk
                  [exKept; exOdd; exCopy] exSum_size Hok)).
Defined.

(** ** What a run that ends without error has reported *)

Lemma atMostOneRemoved_lookup (file1 file2 : File) (live : bool)
    (before after : FS) (path : string) (fh : Inode) :
  atMostOneRemoved file1 file2 live before after →
  after !! path = Some fh → before !! path = Some fh.
Proof.
  intros [-> | [[_ ->] | [_ ->]]]; [done| |];
    intros [_ ?]%lookup_delete_Some; done.
Qed.

Lemma readFile_before (before after : FS) (file : File) (c : list byte) :
  (∀ path fh, after !! path = Some fh → before !! path = Some fh) →
  readFile after file = Ok c → readFile before file = Ok c.
Proof.
  intros Hsub Hread.
  destruct (readFile_Ok_contents _ _ _ Hread) as (fh & Hfh & _).
  rewrite <- Hread. apply readFile_ext. rewrite Hfh. by apply Hsub.
Qed.

Lemma Configured_resolveLoop_log (rules : list Configured.Rule)
    (file1 file2 : File) (dir1 dir2 : string) (live : bool) (w : World) :
  ∃ lines,
    logged (Configured.resolveLoop rules file1 file2 dir1 dir2 live w).1
    = logged w ++ lines.
Proof.
  induction rules as [|rule rest IH]; cbn [Configured.resolveLoop].
  { exists []. by rewrite app_nil_r. }
  destruct (_ && _).
  { destruct live; [destruct (osRemove _ _)|]; by eexists [_]. }
  destruct (_ && _); [|exact IH].
  destruct live; [destruct (osRemove _ _)|]; by eexists [_].
Qed.

Lemma Hardcoded_resolveLoop_log (rules : list Hardcoded.Rule)
    (file1 file2 : File) (dir1 dir2 : string) (live : bool) (w : World) :
  ∃ lines,
    logged (Hardcoded.resolveLoop rules file1 file2 dir1 dir2 live w).1
    = logged w ++ lines.
Proof.
  revert w. induction rules as [|rule rest IH]; intros w;
    cbn [Hardcoded.resolveLoop].
  { exists []. by rewrite app_nil_r. }
  assert (∀ line w',
            disk w' = disk w' → logged w' = logged (logPrintf line w) →
            ∃ lines,
              logged (Hardcoded.resolveLoop rest file1 file2 dir1 dir2 live
                        w').1 = logged w ++ lines) as Hnext.
  { intros line w' _ Hlog. destruct (IH w') as [lines Hl].
    exists (line :: lines). rewrite Hl, Hlog. cbn [logPrintf logged].
    by rewrite <- app_assoc. }
  destruct (_ && _).
  { destruct live; [destruct (osRemove _ _)|]; try (by eapply Hnext).
    by eexists [_]. }
  destruct (_ && _); [|apply IH].
  destruct live; [destruct (osRemove _ _)|]; try (by eapply Hnext).
  by eexists [_].
Qed.

Lemma Configured_reportLoop_log (rules : list Configured.Rule)
    (files : list File) (live : bool) (index : gmap (list byte) File)
    (w : World) :
  ∃ lines,
    logged (Configured.reportLoop rules files live index w).1.2
    = logged w ++ lines.
Proof.
  revert index w. induction files as [|file rest IH]; intros index w;
    cbn [Configured.reportLoop].
  { exists []. by rewrite app_nil_r. }
  destruct (checksumKey (Hash file)) as [k|];
    [|exists []; by rewrite app_nil_r].
  destruct (index !! k) as [found|]; [|apply IH].
  destruct (isIdentical (disk w) found file) as [[] [?|]];
    try (exists []; by rewrite app_nil_r).
  unfold Configured.resolveDuplicate.
  destruct (Configured_resolveLoop_log rules found file
              (pathSplit (Path found)).1 (pathSplit (Path file)).1 live
              (logPrintf ("Duplicate files found: " +:+ Path file
                          +:+ " and " +:+ Path found) w)) as [l1 Hl1].
  destruct (Configured.resolveLoop _ _ _ _ _ _ _) as [w' [b [?|]]];
    cbn [fst snd] in *.
  - eexists. rewrite Hl1. cbn [logPrintf logged]. by rewrite <- app_assoc.
  - destruct b; cbn [negb];
      match goal with
      | |- context [Configured.reportLoop rules rest live index ?w3] =>
          destruct (IH index w3) as [l2 Hl2]
      end;
      eexists; rewrite Hl2; cbn [logPrintf logged]; rewrite Hl1;
      cbn [logPrintf logged]; rewrite <- !app_assoc; done.
Qed.

Lemma Hardcoded_reportLoop_log (files : list File) (live : bool)
    (index : gmap (list byte) File) (w : World) :
  ∃ lines,
    logged (Hardcoded.reportLoop files live index w).1.2 = logged w ++ lines.
Proof.
  revert index w. induction files as [|file rest IH]; intros index w;
    cbn [Hardcoded.reportLoop].
  { exists []. by rewrite app_nil_r. }
  destruct (checksumKey (Hash file)) as [k|];
    [|exists []; by rewrite app_nil_r].
  destruct (index !! k) as [found|]; [|apply IH].
  destruct (isIdentical (disk w) found file) as [[] [?|]];
    try (exists []; by rewrite app_nil_r).
  - unfold Hardcoded.resolveDuplicate.
    destruct (Hardcoded_resolveLoop_log Hardcoded.rules found file
                (pathSplit (Path found)).1 (pathSplit (Path file)).1 live
                (logPrintf ("Duplicate found: " +:+ Path file
                            +:+ " and " +:+ Path found) w)) as [l1 Hl1].
    destruct (Hardcoded.resolveLoop _ _ _ _ _ _ _) as [w' [?|]];
      cbn [fst snd] in *.
    + eexists. rewrite Hl1. cbn [logPrintf logged]. by rewrite <- app_assoc.
    + destruct (IH index w') as [l2 Hl2]. eexists. rewrite Hl2, Hl1.
      cbn [logPrintf logged]. by rewrite <- !app_assoc.
  - match goal with
    | |- context [Hardcoded.reportLoop rest live index ?w3] =>
        destruct (IH index w3) as [l2 Hl2]
    end.
    eexists. rewrite Hl2. cbn [logPrintf logged]. by rewrite <- app_assoc.
Qed.

Lemma firstWithDigest_head (k : list byte) (f h : File) (rest : list File) :
  checksumKey (Hash h) = Some k → firstWithDigest k f (h :: rest) → f = h.
Proof.
  intros Hh (pre & post & Heq & _ & Hpre).
  destruct pre as [|h' pre]; simplify_eq/=; [done|].
  exfalso. apply (Hpre h'); [apply list_elem_of_here | done].
Qed.

Lemma firstWithDigest_nil (k : list byte) (f : File) :
  ¬ firstWithDigest k f [].
Proof. intros (pre & post & Heq & _). by destruct pre. Qed.

(** The representative of [k] once the head of the list has been looked up
    or inserted. *)
Lemma representative_after_step (index : gmap (list byte) File)
    (k kh : list byte) (f h : File) (pre : list File) :
  checksumKey (Hash h) = Some kh →
  index !! k = Some f ∨ (index !! k = None ∧ firstWithDigest k f (h :: pre)) →
  let index' := match index !! kh with
                | Some _ => index
                | None => <[kh := h]> index
                end in
  index' !! k = Some f ∨ (index' !! k = None ∧ firstWithDigest k f pre).
Proof.
  intros Hkh Hrep index'. subst index'.
  destruct (decide (kh = k)) as [->|Hne].
  - destruct (index !! k) as [found|] eqn:Hidx.
    + destruct Hrep as [?|[? _]]; [|discriminate].
      left. cbn beta iota. congruence.
    + destruct Hrep as [?|[_ Hfirst]]; [discriminate|].
      left. cbn beta iota. rewrite lookup_insert_eq.
      by rewrite (firstWithDigest_head _ _ _ _ Hkh Hfirst).
  - assert (match index !! kh with
            | Some _ => index
            | None => <[kh := h]> index
            end !! k = index !! k) as ->.
    { destruct (index !! kh); [done | by rewrite lookup_insert_ne]. }
    destruct Hrep as [?|[? Hfirst]]; [by left|]. right. split; [done|].
    eapply firstWithDigest_tail; [|exact Hfirst]. congruence.
Qed.

Lemma Configured_reportLoop_reports (rules : list Configured.Rule)
    (files : list File) (live : bool) (index : gmap (list byte) File)
    (w : World) (pre post : list File) (g f : File) (k : list byte) :
  (Configured.reportLoop rules files live index w).2 = None →
  files = pre ++ g :: post →
  checksumKey (Hash g) = Some k →
  index !! k = Some f ∨ (index !! k = None ∧ firstWithDigest k f pre) →
  ("Duplicate files found: " +:+ Path g +:+ " and " +:+ Path f)
    ∈ logged (Configured.reportLoop rules files live index w).1.2
  ∧ ∃ c, readFile (disk w) f = Ok c ∧ readFile (disk w) g = Ok c.
Proof.
  revert index w pre. induction files as [|file rest IH];
    intros index w pre Herr Heq Hk Hrep.
  { by destruct pre. }
  destruct pre as [|h pre]; simplify_eq/=.
  - (* the file looked at is [g] itself *)
    destruct Hrep as [Hidx|[_ Hfirst]];
      [|by apply firstWithDigest_nil in Hfirst].
    revert Herr. rewrite Hk, Hidx.
    destruct (isIdentical (disk w) f g) as [[] [?|]] eqn:Hid;
      try discriminate.
    unfold Configured.resolveDuplicate.
    destruct (Configured_resolveLoop_log rules f g
                (pathSplit (Path f)).1 (pathSplit (Path g)).1 live
                (logPrintf ("Duplicate files found: " +:+ Path g
                            +:+ " and " +:+ Path f) w)) as [l1 Hl1].
    destruct (Configured.resolveLoop _ _ _ _ _ _ _) as [w' [b [?|]]];
      cbn [fst snd] in *; [discriminate|]. intros _.
    split.
    + match goal with
      | |- context [Configured.reportLoop rules post live index ?w3] =>
          destruct (Configured_reportLoop_log rules post live index w3)
            as [l2 Hl2];
          assert (∃ l3, logged w3 = logged w' ++ l3) as [l3 Hl3]
            by (destruct b; cbn [negb logPrintf logged];
                [exists []; by rewrite app_nil_r | by eexists])
      end.
      rewrite Hl2, Hl3, Hl1. cbn [logPrintf logged].
      rewrite !elem_of_app, list_elem_of_singleton. tauto.
    + destruct (isIdentical_true_inv (disk w) f g) as (c & ? & ? & _);
        [by rewrite Hid | by exists c].
  - (* an earlier file [h] is looked at *)
    revert Herr.
    destruct (checksumKey (Hash h)) as [kh|] eqn:Hkh; [|discriminate].
    pose proof (representative_after_step index k kh f h pre Hkh Hrep)
      as Hrep'. cbn zeta in Hrep'.
    destruct (index !! kh) as [found|] eqn:Hidx.
    + destruct (isIdentical (disk w) found h) as [[] [?|]] eqn:Hid;
        try discriminate.
      unfold Configured.resolveDuplicate.
      pose proof (Configured_resolveLoop_disk rules found h
                    (pathSplit (Path found)).1 (pathSplit (Path h)).1 live
                    (logPrintf ("Duplicate files found: " +:+ Path h
                                +:+ " and " +:+ Path found) w)) as Hat.
      destruct (Configured.resolveLoop _ _ _ _ _ _ _) as [w' [b [?|]]];
        cbn [fst snd] in *; [discriminate|]. intros Herr.
      match type of Herr with
      | context [Configured.reportLoop rules _ live index ?w3] =>
          destruct (IH index w3 pre Herr eq_refl Hk Hrep')
            as (Hline & c & Hf & Hg);
          assert (disk w3 = disk w') as Hd by (by destruct b)
      end.
      split; [exact Hline|]. rewrite Hd in Hf, Hg. exists c.
      split; eapply readFile_before; try eassumption;
        intros path fh; by eapply atMostOneRemoved_lookup.
    + intros Herr. by apply (IH _ w pre Herr eq_refl Hk Hrep').
Qed.

Lemma isIdentical_false_inv (fs : FS) (file1 file2 : File) :
  isIdentical fs file1 file2 = (false, None) →
  ∃ c1 c2, readFile fs file1 = Ok c1 ∧ readFile fs file2 = Ok c2 ∧ c1 ≠ c2.
Proof.
  destruct (readFile fs file1) as [c1|e1] eqn:H1.
  2:{ unfold isIdentical. rewrite H1. discriminate. }
  destruct (readFile fs file2) as [c2|e2] eqn:H2.
  2:{ unfold isIdentical. rewrite H1, H2. discriminate. }
  rewrite (isIdentical_read _ _ _ _ _ H1 H2). intros [= Hb].
  exists c1, c2. repeat split. intros ->.
  by rewrite bool_decide_eq_true_2 in Hb.
Qed.

Lemma Hardcoded_reportLoop_reports (files : list File) (live : bool)
    (index : gmap (list byte) File) (w : World) (pre post : list File)
    (g f : File) (k : list byte) :
  (Hardcoded.reportLoop files live index w).2 = None →
  files = pre ++ g :: post →
  checksumKey (Hash g) = Some k →
  index !! k = Some f ∨ (index !! k = None ∧ firstWithDigest k f pre) →
  (("Duplicate found: " +:+ Path g +:+ " and " +:+ Path f)
     ∈ logged (Hardcoded.reportLoop files live index w).1.2
   ∧ ∃ c, readFile (disk w) f = Ok c ∧ readFile (disk w) g = Ok c)
  ∨ (("Hash collision but not identical: " +:+ Path g +:+ " and " +:+ Path f)
       ∈ logged (Hardcoded.reportLoop files live index w).1.2
     ∧ ∃ c1 c2, readFile (disk w) f = Ok c1 ∧ readFile (disk w) g = Ok c2
                ∧ c1 ≠ c2).
Proof.
  revert index w pre. induction files as [|file rest IH];
    intros index w pre Herr Heq Hk Hrep.
  { by destruct pre. }
  destruct pre as [|h pre]; simplify_eq/=.
  - (* the file looked at is [g] itself *)
    destruct Hrep as [Hidx|[_ Hfirst]];
      [|by apply firstWithDigest_nil in Hfirst].
    revert Herr. rewrite Hk, Hidx.
    destruct (isIdentical (disk w) f g) as [[] [?|]] eqn:Hid;
      try discriminate.
    + unfold Hardcoded.resolveDuplicate.
      destruct (Hardcoded_resolveLoop_log Hardcoded.rules f g
                  (pathSplit (Path f)).1 (pathSplit (Path g)).1 live
                  (logPrintf ("Duplicate found: " +:+ Path g
                              +:+ " and " +:+ Path f) w)) as [l1 Hl1].
      destruct (Hardcoded.resolveLoop _ _ _ _ _ _ _) as [w' [?|]];
        cbn [fst snd] in *; [discriminate|]. intros _. left. split.
      * destruct (Hardcoded_reportLoop_log post live index w') as [l2 Hl2].
        rewrite Hl2, Hl1. cbn [logPrintf logged].
        rewrite !elem_of_app, list_elem_of_singleton. tauto.
      * destruct (isIdentical_true_inv (disk w) f g) as (c & ? & ? & _);
          [by rewrite Hid | by exists c].
    + intros _. right. split.
      * match goal with
        | |- context [Hardcoded.reportLoop post live index ?w3] =>
            destruct (Hardcoded_reportLoop_log post live index w3)
              as [l2 Hl2]
        end.
        rewrite Hl2. cbn [logPrintf logged].
        rewrite !elem_of_app, list_elem_of_singleton. tauto.
      * by apply isIdentical_false_inv.
  - (* an earlier file [h] is looked at *)
    revert Herr.
    destruct (checksumKey (Hash h)) as [kh|] eqn:Hkh; [|discriminate].
    pose proof (representative_after_step index k kh f h pre Hkh Hrep)
      as Hrep'. cbn zeta in Hrep'.
    destruct (index !! kh) as [found|] eqn:Hidx.
    + destruct (isIdentical (disk w) found h) as [[] [?|]] eqn:Hid;
        try discriminate.
      * pose proof (Hardcoded_resolveDuplicate_disk found h live
                      (logPrintf ("Duplicate found: " +:+ Path h
                                  +:+ " and " +:+ Path found) w)) as Hat.
        destruct (Hardcoded.resolveDuplicate _ _ _ _) as [w' [?|]];
          cbn [fst snd] in *; [discriminate|]. intros Herr.
        assert (∀ file c, readFile (disk w') file = Ok c →
                          readFile (disk w) file = Ok c) as Hback.
        { intros file c. apply readFile_before. intros path fh.
          by eapply atMostOneRemoved_lookup. }
        destruct (IH index w' pre Herr eq_refl Hk Hrep')
          as [(Hline & c & Hf & Hg)|(Hline & c1 & c2 & Hf & Hg & Hne)].
        -- left. split; [exact Hline|]. exists c. auto.
        -- right. split; [exact Hline|]. exists c1, c2. auto.
      * intros Herr.
        by apply (IH index (logPrintf _ w) pre Herr eq_refl Hk Hrep').
    + intros Herr. by apply (IH _ w pre Herr eq_refl Hk Hrep').
Qed.

(** X8. In a run of the configured program that ends without error, every
    file whose digest an earlier file already has is reported in the log as
    a duplicate of the first file with that digest, and the two files held
    the same bytes when the run began. *)
Theorem later_file_reported_as_duplicate
    (rules : list Configured.Rule) (live : bool) (w : World)
    (pre post : list File) (f g : File) (k : list byte) :
  firstWithDigest k f pre →
  checksumKey (Hash g) = Some k →
  (Configured.reportAndResolveDuplicates rules (pre ++ g :: post) live w).2
  = None →
  ("Duplicate files found: " +:+ Path g +:+ " and " +:+ Path f)
    ∈ logged (Configured.reportAndResolveDuplicates rules (pre ++ g :: post)
                live w).1.2
  ∧ ∃ c, readFile (disk w) f = Ok c ∧ readFile (disk w) g = Ok c.
Proof.
  intros Hfirst Hk Herr.
  apply (Configured_reportLoop_reports rules (pre ++ g :: post) live ∅ w
           pre post g f k Herr eq_refl Hk).
  right. split; [apply lookup_empty | exact Hfirst].
Qed.

Lemma later_file_reported_as_duplicate_witness :
  firstWithDigest exDigest exKept [exKept]
  ∧ checksumKey (Hash exCopy) = Some exDigest
  ∧ (Configured.reportAndResolveDuplicates exRules ([exKept] ++ exCopy :: [])
       true exWorld).2 = None
  ∧ ("Duplicate files found: " +:+ Path exCopy +:+ " and " +:+ Path exKept)
      ∈ logged (Configured.reportAndResolveDuplicates exRules
                  ([exKept] ++ exCopy :: []) true exWorld).1.2
  ∧ ∃ c, readFile (disk exWorld) exKept = Ok c
         ∧ readFile (disk exWorld) exCopy = Ok c.
Proof.
  assert (firstWithDigest exDigest exKept [exKept]) as Hfirst
    by (apply firstWithDigest_here; reflexivity).
  assert ((Configured.reportAndResolveDuplicates exRules
             ([exKept] ++ exCopy :: []) true exWorld).2 = None) as Herr
    by (vm_compute; reflexivity).
  split; [exact Hfirst|]. split; [reflexivity|]. split; [exact Herr|].
  exact (later_file_reported_as_duplicate exRules true exWorld [exKept] []
           exKept exCopy exDigest Hfirst eq_refl Herr).
Defined.

(** X9. In a run of the embedded-table variant that ends without error,
    every file whose digest an earlier file already has is reported against
    the first file with that digest: as a duplicate when the two held the
    same bytes at the start of the run, as a hash collision when they held
    different bytes. *)
Theorem later_file_reported_as_duplicate_or_collision
    (live : bool) (w : World) (pre post : list File) (f g : File)
    (k : list byte) :
  firstWithDigest k f pre →
  checksumKey (Hash g) = Some k →
  (Hardcoded.reportDupes (pre ++ g :: post) live w).2 = None →
  (("Duplicate found: " +:+ Path g +:+ " and " +:+ Path f)
     ∈ logged (Hardcoded.reportDupes (pre ++ g :: post) live w).1.2
   ∧ ∃ c, readFile (disk w) f = Ok c ∧ readFile (disk w) g = Ok c)
  ∨ (("Hash collision but not identical: " +:+ Path g +:+ " and " +:+ Path f)
       ∈ logged (Hardcoded.reportDupes (pre ++ g :: post) live w).1.2
     ∧ ∃ c1 c2, readFile (disk w) f = Ok c1 ∧ readFile (disk w) g = Ok c2
                ∧ c1 ≠ c2).
Proof.
  intros Hfirst Hk Herr.
  apply (Hardcoded_reportLoop_reports (pre ++ g :: post) live ∅ w
           pre post g f k Herr eq_refl Hk).
  right. split; [apply lookup_empty | exact Hfirst].
Qed.

Lemma later_file_reported_as_duplicate_or_collision_witness :
  firstWithDigest exDigest exKept [exKept]
  ∧ checksumKey (Hash exOdd) = Some exDigest
  ∧ (Hardcoded.reportDupes ([exKept] ++ exOdd :: [exCopy]) true exWorld).2
    = None
  ∧ ((("Duplicate found: " +:+ Path exOdd +:+ " and " +:+ Path exKept)
        ∈ logged (Hardcoded.reportDupes ([exKept] ++ exOdd :: [exCopy]) true
                    exWorld).1.2
      ∧ ∃ c, readFile (disk exWorld) exKept = Ok c
             ∧ readFile (disk exWorld) exOdd = Ok c)
     ∨ (("Hash collision but not identical: " +:+ Path exOdd +:+ " and "
           +:+ Path exKept)
          ∈ logged (Hardcoded.reportDupes ([exKept] ++ exOdd :: [exCopy])
                      true exWorld).1.2
        ∧ ∃ c1 c2, readFile (disk exWorld) exKept = Ok c1
                   ∧ readFile (disk exWorld) exOdd = Ok c2 ∧ c1 ≠ c2)).
Proof.
  assert (firstWithDigest exDigest exKept [exKept]) as Hfirst
    by (apply firstWithDigest_here; reflexivity).
  assert ((Hardcoded.reportDupes ([exKept] ++ exOdd :: [exCopy]) true
             exWorld).2 = None) as Herr by (vm_compute; reflexivity).
  split; [exact Hfirst|]. split; [reflexivity|]. split; [exact Herr|].
  exact (later_file_reported_as_duplicate_or_collision true exWorld [exKept]
           [exCopy] exKept exOdd exDigest Hfirst eq_refl Herr).
Defined.

(** ** A removal that fails *)

(** X10. In live mode, when the first rule that applies to an identical pair
    asks for a file that [os.Remove] cannot remove, the configured run ends
    there with the removal error: the duplicate and the intended removal
    have been logged, the disk and the index are as they were, and the
    remaining files are not looked at. *)
Theorem failed_removal_ends_run
    (rules : list Configured.Rule) (rule : Configured.Rule)
    (file found : File) (rest : list File)
    (index : gmap (list byte) File) (w : World) (k : list byte) :
  let dirFound := (pathSplit (Path found)).1 in
  let dirFile := (pathSplit (Path file)).1 in
  let target :=
    if bool_decide (dirFound = Configured.KeepDir rule)
       && bool_decide (dirFile = Configured.RemoveDir rule)
    then Path file else Path found in
  checksumKey (Hash file) = Some k →
  index !! k = Some found →
  isIdentical (disk w) found file = (true, None) →
  Configured.firstMatch rules dirFound dirFile = Some rule →
  osRemove (disk w) target = None →
  Configured.reportLoop rules (file :: rest) true index w
  = (index,
     logPrintf ("Deleting " +:+ target)
       (logPrintf ("Duplicate files found: " +:+ Path file +:+ " and "
                   +:+ Path found) w),
     Some (ErrRemove target)).
Proof.
  intros dirFound dirFile target Hk Hidx Hid Hfirst Hrm.
  cbn [Configured.reportLoop]. rewrite Hk, Hidx, Hid.
  unfold Configured.resolveDuplicate. fold dirFound dirFile.
  rewrite Configured_resolveLoop_firstMatch, Hfirst.
  apply Configured_firstMatch_Some in Hfirst as [_ Hm].
  unfold Configured.matchesRule in Hm. cbn [Configured.resolveLoop].
  subst target.
  destruct (bool_decide (dirFound = Configured.KeepDir rule)
            && bool_decide (dirFile = Configured.RemoveDir rule)).
  { cbn [logPrintf disk]. by rewrite Hrm. }
  cbn [orb] in Hm. rewrite Hm. cbn [logPrintf disk]. by rewrite Hrm.
Qed.

Lemma failed_removal_ends_run_witness :
  let w := {| disk := <["/b/y.png" :=
                          {| contents := [x01; x02; x03]; fault := NoFault;
                             removable := false |}]> exDisk;
              logged := [] |} in
  Configured.reportLoop exRules (exCopy :: [exOdd]) true
    {[ exDigest := exKept ]} w
  = ({[ exDigest := exKept ]},
     logPrintf "Deleting /b/y.png"
       (logPrintf "Duplicate files found: /b/y.png and /a/x.png" w),
     Some (ErrRemove "/b/y.png")).
Proof.
  intros w.
  apply (failed_removal_ends_run exRules
           {| Configured.KeepDir := "/a/"; Configured.RemoveDir := "/b/" |}
           exCopy exKept [exOdd] {[ exDigest := exKept ]} w exDigest);
    vm_compute; reflexivity.
Defined.

(** ** From contents to the report *)

Lemma exists_firstWithDigest (k : list byte) (files : list File) (f : File) :
  f ∈ files → checksumKey (Hash f) = Some k →
  ∃ rep, firstWithDigest k rep files.
Proof.
  induction files as [|h rest IH]; intros Hin Hk.
  { by apply elem_of_nil in Hin. }
  destruct (decide (checksumKey (Hash h) = Some k)) as [Hh|Hh].
  - exists h. by apply firstWithDigest_here.
  - apply elem_of_cons in Hin as [->|Hin]; [done|].
    destruct (IH Hin Hk) as [rep Hrep]. exists rep.
    by apply firstWithDigest_later.
Qed.

Lemma firstWithDigest_elem (k : list byte) (rep : File) (files : list File) :
  firstWithDigest k rep files → rep ∈ files.
Proof.
  intros (pre & post & -> & _). apply elem_of_app. right. left.
Qed.

Lemma hashedAs_Path (md5sum : list byte → list byte) (fs : FS)
    (file file' : File) :
  hashedAs md5sum fs file file' → Path file' = Path file.
Proof. by intros (fh & _ & ->). Qed.

(** X11. Fingerprinting followed by the configured run finds identical
    files: when two files of the list hold the same bytes on the disk, all
    files are fingerprinted with sixteen-byte digests and the run ends
    without error, the later of the two is reported in the log as a
    duplicate of an earlier file of the list that holds those same bytes. *)
Theorem identical_files_are_detected
    (md5sum : list byte → list byte) (rules : list Configured.Rule)
    (live : bool) (w : World) (pre mid post hashed : list File) (f g : File)
    (fh1 fh2 : Inode) :
  (∀ bytes, length (md5sum bytes) = 16) →
  calculateChecksums md5sum (disk w) (pre ++ f :: mid ++ g :: post)
  = (hashed, None) →
  disk w !! Path f = Some fh1 → disk w !! Path g = Some fh2 →
  contents fh1 = contents fh2 →
  (Configured.reportAndResolveDuplicates rules hashed live w).2 = None →
  ∃ rep fh,
    rep ∈ pre ++ f :: mid
    ∧ ("Duplicate files found: " +:+ Path g +:+ " and " +:+ Path rep)
        ∈ logged (Configured.reportAndResolveDuplicates rules hashed live
                    w).1.2
    ∧ disk w !! Path rep = Some fh ∧ contents fh = contents fh2.
Proof.
  intros Hsize Hcalc Hf Hg Hsame Herr.
  destruct (calculateChecksums_outcome md5sum (disk w)
              (pre ++ f :: mid ++ g :: post))
    as [(_ & _ & Hres)|(? & ? & ? & ? & ? & ? & _ & _ & _ & Hc & _)];
    [|rewrite Hcalc in Hc; discriminate].
  rewrite Hcalc in Hres. cbn [fst] in Hres.
  change (pre ++ f :: mid ++ g :: post)
    with (pre ++ (f :: mid) ++ g :: post) in Hres.
  rewrite app_assoc in Hres.
  apply Forall2_app_inv_l in Hres as (early' & late' & Hearly & Hlate & ->).
  apply Forall2_cons_inv_l in Hlate as (g' & post' & Hg' & _ & ->).
  assert (∃ f', f' ∈ early' ∧ hashedAs md5sum (disk w) f f')
    as (f' & Hf'in & Hf').
  { apply Forall2_app_inv_l in Hearly as (? & ? & _ & Hfm & ->).
    apply Forall2_cons_inv_l in Hfm as (f' & ? & Hf' & _ & ->).
    exists f'. split; [|done]. apply elem_of_app. right. left. }
  assert (Hash f' = Hash g') as Hhash.
  { destruct Hf' as (? & Hf1 & ->). destruct Hg' as (? & Hg1 & ->).
    cbn [setHash Hash]. simplify_eq. by rewrite Hsame. }
  pose proof (hashedAs_key _ _ _ _ Hsize Hg') as Hkg.
  assert (checksumKey (Hash f') = Some (Hash g')) as Hkf
    by (rewrite Hhash; exact Hkg).
  destruct (exists_firstWithDigest (Hash g') early' f' Hf'in Hkf)
    as [rep' Hrep'].
  destruct (Configured_reportLoop_reports rules (early' ++ g' :: post') live
              ∅ w early' post' g' rep' (Hash g') Herr eq_refl Hkg)
    as (Hline & c & Hrepread & Hgread).
  { right. split; [apply lookup_empty | exact Hrep']. }
  apply firstWithDigest_elem in Hrep'.
  destruct (proj1 (list_elem_of_lookup _ _) Hrep') as [i Hi].
  destruct (Forall2_lookup_r _ _ _ _ _ Hearly Hi) as (rep & Hrepi & Hrephash).
  rewrite (hashedAs_Path _ _ _ _ Hg') in Hline.
  rewrite (hashedAs_Path _ _ _ _ Hrephash) in Hline.
  apply readFile_Ok_contents in Hrepread as (fh & Hfh & Hcfh).
  apply readFile_Ok_contents in Hgread as (fh' & Hfh' & Hcfh').
  rewrite (hashedAs_Path _ _ _ _ Hrephash) in Hfh.
  rewrite (hashedAs_Path _ _ _ _ Hg') in Hfh'.
  exists rep, fh. split; [by eapply list_elem_of_lookup_2|].
  split; [exact Hline|]. split; [exact Hfh|]. simplify_eq. congruence.
Qed.

Lemma identical_files_are_detected_witness :
  (∀ bytes, length (exSum bytes) = 16)
  ∧ calculateChecksums exSum (disk exWorld)
      ([] ++ exKept :: [exOdd] ++ exCopy :: [])
    = ([setHash (exSum [x01; x02; x03]) exKept;
        setHash (exSum [x01; x02; x04]) exOdd;
        setHash (exSum [x01; x02; x03]) exCopy], None)
  ∧ ∃ rep fh,
      rep ∈ [] ++ exKept :: [exOdd]
      ∧ ("Duplicate files found: " +:+ Path exCopy +:+ " and " +:+ Path rep)
          ∈ logged (Configured.reportAndResolveDuplicates exRules
                      [setHash (exSum [x01; x02; x03]) exKept;
                       setHash (exSum [x01; x02; x04]) exOdd;
                       setHash (exSum [x01; x02; x03]) exCopy] true
                      exWorld).1.2
      ∧ disk exWorld !! Path rep = Some fh
      ∧ contents fh = contents (plain [x01; x02; x03]).
Proof.
  split; [exact exSum_size|]. split; [vm_compute; reflexivity|].
  apply (identical_files_are_detected exSum exRules true exWorld [] [exOdd] []
           _ exKept exCopy (plain [x01; x02; x03]) (plain [x01; x02; x03])
           exSum_size);
    vm_compute; reflexivity.
Defined.

(** ** [File.String] *)

Lemma append_nil_l (s : string) : EmptyString +:+ s = s.
Proof. reflexivity. Qed.

Lemma append_cons_l (c : ascii) (s t : string) :
  String c s +:+ t = String c (s +:+ t).
Proof. reflexivity. Qed.

Lemma hex_of_byte (b : byte) :
  unhexDigit (hexDigit (Byte.to_N b / 16)) = Some (Byte.to_N b / 16)%N
  ∧ unhexDigit (hexDigit (Byte.to_N b mod 16)) = Some (Byte.to_N b mod 16)%N
  ∧ hexDigit (Byte.to_N b / 16) ≠ " "%char
  ∧ hexDigit (Byte.to_N b mod 16) ≠ " "%char.
Proof. destruct b; vm_compute; repeat split; discriminate. Qed.

Lemma unhexBytes_hexBytes (bytes : list byte) :
  unhexBytes (hexBytes bytes) = Some bytes.
Proof.
  induction bytes as [|b rest IH]; [done|].
  cbn [hexBytes unhexBytes].
  destruct (hex_of_byte b) as (-> & -> & _). rewrite IH.
  replace (16 * (Byte.to_N b / 16) + Byte.to_N b mod 16)%N
    with (Byte.to_N b) by (rewrite <- N.div_mod; lia).
  by rewrite Byte.of_to_N.
Qed.

Lemma hexBytes_no_space (bytes : list byte) :
  hasSpace (hexBytes bytes) = false.
Proof.
  induction bytes as [|b rest IH]; [done|]. cbn [hexBytes hasSpace].
  destruct (hex_of_byte b) as (_ & _ & Hhi & Hlo).
  by rewrite !bool_decide_eq_false_2, IH.
Qed.

Lemma space_separated_unique (p1 p2 h1 h2 : string) :
  hasSpace h1 = false → hasSpace h2 = false →
  p1 +:+ String " " h1 = p2 +:+ String " " h2 → p1 = p2 ∧ h1 = h2.
Proof.
  intros H1 H2. revert p2.
  assert (∀ p h, hasSpace (p +:+ String " " h) = true) as Hsp.
  { intros p h. induction p as [|c p IH].
    - rewrite append_nil_l. cbn [hasSpace]. by rewrite bool_decide_eq_true_2.
    - rewrite append_cons_l. cbn [hasSpace]. rewrite IH. apply orb_true_r. }
  induction p1 as [|c p1 IH]; intros [|c2 p2].
  - rewrite !append_nil_l. by intros [= ->].
  - rewrite append_nil_l, append_cons_l. intros [= <- ->].
    rewrite Hsp in H1. discriminate.
  - rewrite append_nil_l, append_cons_l. intros [= -> <-].
    rewrite Hsp in H2. discriminate.
  - rewrite !append_cons_l. intros [= -> Heq].
    destruct (IH p2 Heq) as [-> ->]. done.
Qed.

(** X12. The text [File.String] makes of a file, its path, a space and its
    digest in hexadecimal, determines both: two files with the same text
    have the same path and the same digest, even when paths contain
    spaces; and the digest can be read back from its hexadecimal form. *)
Theorem fileString_determines_path_and_hash :
  (∀ f1 f2, fileString f1 = fileString f2 →
            Path f1 = Path f2 ∧ Hash f1 = Hash f2)
  ∧ (∀ bytes, unhexBytes (hexBytes bytes) = Some bytes)
  ∧ (∀ bytes, String.length (hexBytes bytes) = 2 * length bytes).
Proof.
  split; [|split].
  - intros f1 f2 Heq. unfold fileString in Heq.
    change (Path f1 +:+ String " " (hexBytes (Hash f1))
            = Path f2 +:+ String " " (hexBytes (Hash f2))) in Heq.
    apply space_separated_unique in Heq as [Hp Hh];
      try apply hexBytes_no_space.
    split; [done|].
    apply (f_equal unhexBytes) in Hh. rewrite !unhexBytes_hexBytes in Hh.
    by injection Hh.
  - apply unhexBytes_hexBytes.
  - intros bytes. induction bytes as [|b rest IH]; [done|].
    cbn [hexBytes String.length length]. rewrite IH. lia.
Qed.

Lemma fileString_determines_path_and_hash_witness :
  let f1 := {| Basename := "b"; Path := "a b"; Size := 0;
               Hash := [x00; xff] |} in
  let f2 := {| Basename := "c"; Path := "a b"; Size := 7;
               Hash := [x00; xff] |} in
  fileString f1 = "a b 00ff"
  ∧ fileString f1 = fileString f2
  ∧ (Path f1 = Path f2 ∧ Hash f1 = Hash f2)
  ∧ unhexBytes "00ff" = Some [x00; xff].
Proof.
  intros f1 f2.
  destruct fileString_determines_path_and_hash as (Hinj & Hback & _).
  split; [reflexivity|]. split; [reflexivity|].
  split; [apply (Hinj f1 f2); reflexivity|].
  exact (Hback [x00; xff]).
Defined.

(** ** The first program: report by digest alone *)

Lemma Reporting_reportLoop_outcome (files : list File)
    (index : gmap (list byte) File) (w : World) :
  let r := Reporting.reportLoop files index w in
  disk r.1.2 = disk w
  ∧ (r.2 = None ↔ Forall (λ file, length (Hash file) ≤ 32) files)
  ∧ (r.2 = None →
     length (logged r.1.2) + size r.1.1
     = length (logged w) + size index + 2 * length files)
  ∧ ∃ lines, logged r.1.2 = logged w ++ lines.
Proof.
  revert index w. induction files as [|file rest IH]; intros index w.
  { cbn [Reporting.reportLoop fst snd length]. split; [done|].
    split; [done|]. split; [intros _; lia|].
    exists []. by rewrite app_nil_r. }
  cbn [Reporting.reportLoop]. unfold Reporting.checksumKey, Reporting.sha256Size.
  destruct (decide (length (Hash file) ≤ 32)) as [Hlen|Hlen].
  2:{ cbn [fst snd]. split; [done|]. split; [|split].
      - split; [discriminate|]. intros [? _]%Forall_cons. done.
      - discriminate.
      - exists []. by rewrite app_nil_r. }
  set (k := Hash file ++ replicate (32 - length (Hash file)) x00).
  destruct (index !! k) as [found|] eqn:Hidx.
  - destruct (IH index
                (logPrintf ("Duplicate found: " +:+ Path file +:+ " and "
                            +:+ Path found)
                   (logPrintf (fileString file) w)))
      as (Hd & Hiff & Hcount & lines & Hl).
    split; [exact Hd|]. split; [|split].
    + rewrite Hiff, Forall_cons. tauto.
    + intros Herr. rewrite (Hcount Herr). cbn [logPrintf logged length].
      rewrite !length_app. cbn [length]. lia.
    + eexists. rewrite Hl. cbn [logPrintf logged]. by rewrite <- !app_assoc.
  - destruct (IH (<[k := file]> index) (logPrintf (fileString file) w))
      as (Hd & Hiff & Hcount & lines & Hl).
    split; [exact Hd|]. split; [|split].
    + rewrite Hiff, Forall_cons. tauto.
    + intros Herr. rewrite (Hcount Herr). cbn [logPrintf logged length].
      rewrite length_app, map_size_insert_None by done. cbn [length]. lia.
    + eexists. rewrite Hl. cbn [logPrintf logged]. by rewrite <- !app_assoc.
Qed.

(** X13. [reportDupes] of the first program never touches the disk and
    fails only by the panic of the key copy, exactly when some digest is
    longer than thirty-two bytes.  Otherwise it writes one line for every
    file and one more for every file that is not the first of its digest:
    the lines written and the records stored add up to twice the number of
    files. *)
Theorem first_program_counts_files (files : list File) (w : World) :
  let r := Reporting.reportDupes files w in
  disk r.1.2 = disk w
  ∧ (r.2 = None ↔ Forall (λ file, length (Hash file) ≤ 32) files)
  ∧ (r.2 = None →
     length (logged r.1.2) + size r.1.1
     = length (logged w) + 2 * length files).
Proof.
  intros r. subst r. unfold Reporting.reportDupes.
  destruct (Reporting_reportLoop_outcome files ∅ w) as (Hd & Hiff & Hc & _).
  split; [exact Hd|]. split; [exact Hiff|].
  intros Herr. rewrite (Hc Herr), map_size_empty. lia.
Qed.

Lemma first_program_counts_files_witness :
  (Reporting.reportDupes [exKept; exOdd; exCopy] exWorld).2 = None
  ∧ length (logged (Reporting.reportDupes [exKept; exOdd; exCopy]
                      exWorld).1.2)
    + size (Reporting.reportDupes [exKept; exOdd; exCopy] exWorld).1.1
    = length (logged exWorld) + 2 * length [exKept; exOdd; exCopy].
Proof.
  destruct (first_program_counts_files [exKept; exOdd; exCopy] exWorld)
    as (_ & Hiff & Hcount).
  assert ((Reporting.reportDupes [exKept; exOdd; exCopy] exWorld).2 = None)
    as Herr.
  { apply Hiff. repeat constructor; vm_compute; lia. }
  split; [exact Herr | exact (Hcount Herr)].
Defined.

Lemma Reporting_firstWithKey_here (k : list byte) (file : File)
    (rest : list File) :
  Reporting.checksumKey (Hash file) = Some k →
  Reporting.firstWithKey k file (file :: rest).
Proof.
  intros Hk. exists [], rest. repeat split; [done|].
  intros g Hg. by apply elem_of_nil in Hg.
Qed.

Lemma Reporting_firstWithKey_tail (k : list byte) (f g : File)
    (rest : list File) :
  Reporting.checksumKey (Hash g) ≠ Some k →
  Reporting.firstWithKey k f (g :: rest) → Reporting.firstWithKey k f rest.
Proof.
  intros Hg (pre & post & Heq & Hk & Hpre).
  destruct pre as [|g' pre]; [by simplify_eq/=|]. simplify_eq/=.
  exists pre, post. repeat split; [done|].
  intros h Hh. apply Hpre. by apply list_elem_of_further.
Qed.

Lemma Reporting_firstWithKey_head (k : list byte) (f h : File)
    (rest : list File) :
  Reporting.checksumKey (Hash h) = Some k →
  Reporting.firstWithKey k f (h :: rest) → f = h.
Proof.
  intros Hh (pre & post & Heq & _ & Hpre).
  destruct pre as [|h' pre]; simplify_eq/=; [done|].
  exfalso. apply (Hpre h'); [apply list_elem_of_here | done].
Qed.

Lemma Reporting_reportLoop_reports (files : list File)
    (index : gmap (list byte) File) (w : World) (pre post : list File)
    (g f : File) (k : list byte) :
  (Reporting.reportLoop files index w).2 = None →
  files = pre ++ g :: post →
  Reporting.checksumKey (Hash g) = Some k →
  index !! k = Some f ∨ (index !! k = None ∧ Reporting.firstWithKey k f pre) →
  ("Duplicate found: " +:+ Path g +:+ " and " +:+ Path f)
    ∈ logged (Reporting.reportLoop files index w).1.2.
Proof.
  revert index w pre. induction files as [|file rest IH];
    intros index w pre Herr Heq Hk Hrep.
  { by destruct pre. }
  destruct pre as [|h pre]; simplify_eq/=.
  - destruct Hrep as [Hidx|[_ (pre & ? & Heq & _)]]; [|by destruct pre].
    rewrite Hk, Hidx.
    match goal with
    | |- context [Reporting.reportLoop post index ?w3] =>
        destruct (Reporting_reportLoop_outcome post index w3)
          as (_ & _ & _ & lines & ->)
    end.
    cbn [logPrintf logged]. rewrite !elem_of_app, !list_elem_of_singleton.
    auto.
  - revert Herr.
    destruct (Reporting.checksumKey (Hash h)) as [kh|] eqn:Hkh;
      [|discriminate].
    assert (kh = k → index !! k = None → f = h) as Hsame.
    { intros -> Hnone. destruct Hrep as [?|[_ Hfirst]]; [congruence|].
      by eapply Reporting_firstWithKey_head. }
    assert (kh ≠ k → index !! k = None → Reporting.firstWithKey k f pre)
      as Hother.
    { intros Hne Hnone. destruct Hrep as [?|[_ Hfirst]]; [congruence|].
      eapply Reporting_firstWithKey_tail; [|exact Hfirst]. congruence. }
    destruct (index !! kh) as [found|] eqn:Hidx; intros Herr.
    + apply (IH _ _ pre Herr eq_refl Hk).
      destruct (index !! k) as [f0|] eqn:Hk0.
      * left. destruct Hrep as [?|[? _]]; congruence.
      * right. split; [done|]. apply Hother; [congruence | done].
    + apply (IH _ _ pre Herr eq_refl Hk).
      destruct (decide (kh = k)) as [->|Hne].
      * left. rewrite lookup_insert_eq. by rewrite (Hsame eq_refl Hidx).
      * rewrite lookup_insert_ne by done.
        destruct (index !! k) as [f0|] eqn:Hk0.
        -- left. destruct Hrep as [?|[? _]]; congruence.
        -- right. split; [done|]. by apply Hother.
Qed.

(** X14. The first program reports by digest alone: in a run that does not
    panic, every file whose digest an earlier file already has is logged as
    a duplicate of the first file with that digest, without any look at the
    contents of either file. *)
Theorem first_program_reports_equal_digests
    (w : World) (pre post : list File) (f g : File) (k : list byte) :
  Reporting.firstWithKey k f pre →
  Reporting.checksumKey (Hash g) = Some k →
  (Reporting.reportDupes (pre ++ g :: post) w).2 = None →
  ("Duplicate found: " +:+ Path g +:+ " and " +:+ Path f)
    ∈ logged (Reporting.reportDupes (pre ++ g :: post) w).1.2.
Proof.
  intros Hfirst Hk Herr.
  apply (Reporting_reportLoop_reports (pre ++ g :: post) ∅ w pre post g f k
           Herr eq_refl Hk).
  right. split; [apply lookup_empty | exact Hfirst].
Qed.

Lemma first_program_reports_equal_digests_witness :
  isIdentical (disk exWorld) exKept exOdd = (false, None)
  ∧ ("Duplicate found: " +:+ Path exOdd +:+ " and " +:+ Path exKept)
      ∈ logged (Reporting.reportDupes ([exKept] ++ exOdd :: [exCopy])
                  exWorld).1.2.
Proof.
  split; [vm_compute; reflexivity|].
  apply (first_program_reports_equal_digests exWorld [exKept] [exCopy]
           exKept exOdd
           (exDigest ++ replicate 16 x00)).
  - apply Reporting_firstWithKey_here. reflexivity.
  - reflexivity.
  - vm_compute. reflexivity.
Defined.



(** ** Finding the files *)

Lemma walkEntries_acc (find : string → Tree → FindError + list File)
    (dir : string) (fis : list (string * Tree)) (acc : list File) :
  walkEntries find dir fis acc
  = match walkEntries find dir fis [] with
    | inl err => inl err
    | inr new => inr (acc ++ new)
    end.
Proof.
  revert acc. induction fis as [|[name child] rest IH]; intros acc.
  { cbn. by rewrite app_nil_r. }
  cbn [walkEntries]. destruct (decide (name = "." ∨ name = "..")); [apply IH|].
  destruct child as [size|fault entries].
  - rewrite (IH (acc ++ _)), (IH ([] ++ _)).
    destruct (walkEntries find dir rest []); [done|].
    by rewrite <- !app_assoc.
  - destruct (find _ _) as [err|dirFiles]; [done|].
    rewrite (IH (acc ++ _)), (IH ([] ++ _)).
    destruct (walkEntries find dir rest []); [done|].
    by rewrite <- !app_assoc.
Qed.

Lemma walkEntries_cons (find : string → Tree → FindError + list File)
    (dir : string) (entry : string * Tree) (rest : list (string * Tree)) :
  walkEntries find dir (entry :: rest) []
  = match entryFiles find dir entry with
    | inl err => inl err
    | inr part =>
        match walkEntries find dir rest [] with
        | inl err => inl err
        | inr new => inr (part ++ new)
        end
    end.
Proof.
  destruct entry as [name child]. unfold entryFiles, skippedName.
  cbn [walkEntries fst snd].
  destruct (decide (name = "." ∨ name = "..")) as [Hs|Hs].
  { rewrite bool_decide_eq_true_2 by done.
    by destruct (walkEntries find dir rest []). }
  rewrite bool_decide_eq_false_2 by done.
  destruct child as [size|fault entries].
  - by rewrite walkEntries_acc.
  - destruct (find _ _); [done|]. by rewrite walkEntries_acc.
Qed.

Lemma walkEntries_shape (dir : string) (entries : list (string * Tree)) :
  Forall (λ entry, ∀ dir, findShape entry.2 dir) entries →
  match walkEntries findFiles dir entries [] with
  | inr files =>
      forallb (λ entry, skippedName entry.1 || faultFree entry.2) entries
      = true
      ∧ length files
        = foldr (λ entry total,
                   if skippedName entry.1 then total
                   else countLeaves entry.2 + total) 0 entries
      ∧ Forall (λ file, Hash file = []) files
  | inl err =>
      forallb (λ entry, skippedName entry.1 || faultFree entry.2) entries
      = false
  end.
Proof.
  induction 1 as [|[name child] rest Hchild _ IH]; [by cbn|].
  rewrite walkEntries_cons. unfold entryFiles. cbn [fst snd forallb foldr].
  destruct (skippedName name) eqn:Hskip; cbn [orb].
  { destruct (walkEntries findFiles dir rest []); [done|].
    by rewrite app_nil_l. }
  destruct child as [size|fault entries].
  - destruct (walkEntries findFiles dir rest []) as [err|new]; [done|].
    destruct IH as (Hall & Hlen & Hhash). cbn [faultFree countLeaves].
    repeat split; [done|cbn; lia|by constructor].
  - specialize (Hchild (pathJoin dir name)). unfold findShape in Hchild.
    cbn [snd] in Hchild.
    destruct (findFiles (pathJoin dir name) (Dir fault entries))
      as [err|part].
    + destruct Hchild as [[? ?]| ->]; [discriminate | done].
    + destruct Hchild as (_ & -> & Hlen' & Hhash').
      destruct (walkEntries findFiles dir rest []) as [err|new]; [done|].
      destruct IH as (Hall & Hlen & Hhash).
      repeat split; [done|rewrite length_app; lia|by apply Forall_app].
Qed.

Lemma findFiles_shape (node : Tree) (dir : string) : findShape node dir.
Proof.
  revert dir. induction node as [size|fault entries IH] using Tree_induction;
    intros dir.
  { left. by exists size. }
  unfold findShape.
  destruct fault; cbn [findFiles]; try (by right).
  pose proof (walkEntries_shape dir entries IH) as Hwalk.
  destruct (walkEntries findFiles dir entries []) as [err|files].
  - right. cbn [faultFree]. by rewrite Hwalk, andb_false_r.
  - destruct Hwalk as (Hall & Hlen & Hhash). cbn [faultFree countLeaves].
    repeat split; [by eexists _, _|by rewrite Hall|done|done].
Qed.

(** X16. [findFiles] succeeds exactly on a directory in which every
    directory the walk enters can be listed (entries named [.] or [..] are
    passed over, with all that is below them); on something that is not a
    directory it fails.  A successful result has one record for every entry
    that is not a directory, and no record has a digest yet. *)
Theorem findFiles_lists_every_leaf (dir : string) (node : Tree) :
  ((∃ files, findFiles dir node = inr files)
   ↔ (∃ fault entries, node = Dir fault entries) ∧ faultFree node = true)
  ∧ (∀ files, findFiles dir node = inr files →
       length files = countLeaves node
       ∧ Forall (λ file, Hash file = []) files)
  ∧ (∀ size, findFiles dir (Leaf size) = inl (ErrNotDirectory dir)).
Proof.
  pose proof (findFiles_shape node dir) as Hshape. unfold findShape in Hshape.
  split; [|split; [|done]].
  - split.
    + intros [files Hfiles]. rewrite Hfiles in Hshape. tauto.
    + intros [(fault & entries & ->) Hfree].
      destruct (findFiles dir (Dir fault entries)) as [err|files];
        [|by eexists].
      destruct Hshape as [[? ?]|Hno]; [discriminate | congruence].
  - intros files Hfiles. rewrite Hfiles in Hshape. tauto.
Qed.

(** ** [path.Clean] and [path.Join] *)

Lemma splitSlash_not_nil (path : string) : splitSlash path ≠ [].
Proof.
  induction path as [|c rest IH]; [done|]. cbn [splitSlash].
  destruct (decide (c = "/"%char)); [done|]. by destruct (splitSlash rest).
Qed.

Lemma splitSlash_app (a b : string) :
  splitSlash (a +:+ String "/" b) = splitSlash a ++ splitSlash b.
Proof.
  induction a as [|c a IH].
  - rewrite append_nil_l. cbn [splitSlash]. by rewrite decide_True.
  - rewrite append_cons_l. cbn [splitSlash]. rewrite IH.
    destruct (decide (c = "/"%char)); [done|].
    pose proof (splitSlash_not_nil a). by destruct (splitSlash a).
Qed.

Lemma splitSlash_no_slash (name : string) :
  hasSlash name = false → splitSlash name = [name].
Proof.
  induction name as [|c name IH]; [done|]. cbn [hasSlash splitSlash].
  intros [Hc Hrest]%orb_false_iff. apply bool_decide_eq_false_1 in Hc.
  rewrite decide_False by done. by rewrite IH.
Qed.

Lemma splitSlash_elems (path : string) :
  Forall (λ elem, hasSlash elem = false) (splitSlash path).
Proof.
  induction path as [|c rest IH]; [by repeat constructor|].
  cbn [splitSlash]. destruct (decide (c = "/"%char)) as [|Hc].
  { by constructor. }
  destruct (splitSlash rest) as [|first others].
  { constructor; [|constructor]. cbn [hasSlash].
    by rewrite bool_decide_eq_false_2. }
  apply Forall_cons in IH as [Hfirst Hothers]. constructor; [|done].
  cbn [hasSlash]. by rewrite bool_decide_eq_false_2, Hfirst.
Qed.

Lemma isRooted_app (a b : string) :
  a ≠ EmptyString → isRooted (a +:+ b) = isRooted a.
Proof. by destruct a. Qed.

Lemma simpleName_inv (name : string) :
  simpleName name = true →
  name ≠ EmptyString ∧ hasSlash name = false ∧ name ≠ "." ∧ name ≠ "..".
Proof.
  unfold simpleName. rewrite !andb_true_iff, !negb_true_iff.
  intros [[[H1 H2] H3] H4]. repeat split; try done;
    by eapply bool_decide_eq_false_1.
Qed.

Lemma cleanElem_push (rooted : bool) (kept : list string) (elem : string) :
  elem ≠ EmptyString → elem ≠ "." → elem ≠ ".." →
  cleanElem rooted kept elem = elem :: kept.
Proof.
  intros H1 H2 H3. unfold cleanElem.
  rewrite decide_False by tauto. by rewrite decide_False.
Qed.

Lemma pathJoin_simple (dir name : string) :
  dir ≠ EmptyString → simpleName name = true →
  pathJoin dir name = renderPath (isRooted dir) (name :: keptElems dir).
Proof.
  intros Hdir (Hne & Hslash & Hdot & Hdotdot)%simpleName_inv.
  unfold pathJoin, pathClean. rewrite decide_False by done.
  rewrite decide_False by (by destruct dir).
  change (dir +:+ "/" +:+ name) with (dir +:+ String "/" name).
  unfold keptElems. rewrite isRooted_app by done.
  rewrite splitSlash_app, foldl_app, (splitSlash_no_slash name) by done.
  cbn [foldl]. by rewrite cleanElem_push.
Qed.

Lemma normalKept_nil (rooted : bool) : normalKept rooted [].
Proof. exists [], 0. split; [done|]. split; [constructor | done]. Qed.

Lemma normalKept_push (rooted : bool) (kept : list string) (elem : string) :
  elem ≠ EmptyString → elem ≠ "." → elem ≠ ".." → hasSlash elem = false →
  normalKept rooted kept → normalKept rooted (elem :: kept).
Proof.
  intros H1 H2 H3 H4 (tops & m & -> & Htops & Hm).
  exists (elem :: tops), m. split; [done|]. split; [by constructor | done].
Qed.

Lemma cleanElem_normal (rooted : bool) (kept : list string) (elem : string) :
  hasSlash elem = false → normalKept rooted kept →
  normalKept rooted (cleanElem rooted kept elem).
Proof.
  intros Hslash Hkept. unfold cleanElem.
  destruct (decide (elem = EmptyString ∨ elem = ".")) as [|Hreal]; [done|].
  destruct (decide (elem = "..")) as [->|Hdd].
  2:{ apply normalKept_push; tauto. }
  destruct Hkept as (tops & m & -> & Htops & Hm).
  destruct tops as [|top tops]; cbn [app].
  - destruct m as [|m]; cbn [replicate].
    + destruct rooted; [apply normalKept_nil|].
      exists [], 1. split; [done|]. split; [constructor | done].
    + rewrite decide_True by done. exists [], (S (S m)).
      split; [done|]. split; [constructor|].
      intros Hr. by specialize (Hm Hr).
  - apply Forall_cons in Htops as [(_ & _ & Htop & _) Htops].
    rewrite decide_False by done. by exists tops, m.
Qed.

Lemma foldl_cleanElem_normal (rooted : bool) (elems kept : list string) :
  Forall (λ elem, hasSlash elem = false) elems → normalKept rooted kept →
  normalKept rooted (foldl (cleanElem rooted) kept elems).
Proof.
  intros Helems. revert kept.
  induction Helems as [|elem elems Helem _ IH]; intros kept Hkept; [done|].
  cbn [foldl]. by apply IH, cleanElem_normal.
Qed.

Lemma keptElems_normal (path : string) :
  normalKept (isRooted path) (keptElems path).
Proof.
  apply foldl_cleanElem_normal; [apply splitSlash_elems | apply normalKept_nil].
Qed.

Lemma foldl_cleanElem_dotdots (below m : nat) :
  foldl (cleanElem false) (replicate below "..") (replicate m "..")
  = replicate (m + below) "..".
Proof.
  revert below. induction m as [|m IH]; intros below; [done|].
  cbn [replicate foldl]. unfold cleanElem at 2.
  rewrite decide_False by (intros [|]; discriminate).
  rewrite decide_True by done.
  destruct below as [|below]; cbn [replicate].
  - etrans; [exact (IH 1)|]. f_equal. lia.
  - rewrite decide_True by done.
    etrans; [exact (IH (S (S below)))|]. f_equal. lia.
Qed.

Lemma foldl_cleanElem_tops (rooted : bool) (tops acc : list string) :
  Forall (λ elem, elem ≠ EmptyString ∧ elem ≠ "." ∧ elem ≠ ".."
                  ∧ hasSlash elem = false) tops →
  foldl (cleanElem rooted) acc (reverse tops) = tops ++ acc.
Proof.
  induction 1 as [|top tops (H1 & H2 & H3 & _) _ IH]; [done|].
  rewrite reverse_cons, foldl_app, IH. cbn [foldl].
  by rewrite cleanElem_push.
Qed.

Lemma foldl_cleanElem_reverse (rooted : bool) (kept : list string) :
  normalKept rooted kept →
  foldl (cleanElem rooted) [] (reverse kept) = kept.
Proof.
  intros (tops & m & -> & Htops & Hm).
  rewrite reverse_app, reverse_replicate, foldl_app.
  rewrite foldl_cleanElem_tops by done. f_equal.
  destruct rooted.
  - by rewrite (Hm eq_refl).
  - etrans; [exact (foldl_cleanElem_dotdots 0 m)|]. f_equal. lia.
Qed.

Lemma splitSlash_joinSlash (elems : list string) :
  elems ≠ [] → Forall (λ elem, hasSlash elem = false) elems →
  splitSlash (joinSlash elems) = elems.
Proof.
  intros Hne Hall. induction Hall as [|elem rest Helem Hrest IH]; [done|].
  destruct rest as [|next rest].
  - by apply splitSlash_no_slash.
  - change (joinSlash (elem :: next :: rest))
      with (elem +:+ String "/" (joinSlash (next :: rest))).
    rewrite splitSlash_app, splitSlash_no_slash by done.
    by rewrite IH.
Qed.

Lemma normalKept_elems (rooted : bool) (kept : list string) :
  normalKept rooted kept →
  Forall (λ elem, elem ≠ EmptyString ∧ hasSlash elem = false) kept.
Proof.
  intros (tops & m & -> & Htops & _). apply Forall_app. split.
  - eapply Forall_impl; [exact Htops|]. by intros elem (? & _ & _ & ?).
  - apply Forall_replicate. done.
Qed.

Lemma isRooted_joinSlash (elems : list string) :
  Forall (λ elem, elem ≠ EmptyString ∧ hasSlash elem = false) elems →
  isRooted (joinSlash elems) = false.
Proof.
  intros Hall. destruct Hall as [|elem rest [Hne Hslash] _]; [done|].
  assert (isRooted elem = false) as Helem.
  { destruct elem as [|c elem]; [done|]. cbn [hasSlash] in Hslash.
    apply orb_false_iff in Hslash as [Hc _].
    apply bool_decide_eq_false_1 in Hc. unfold isRooted. cbn.
    apply bool_decide_eq_false_2. by intros [= ->]. }
  destruct rest as [|next rest]; [done|].
  change (joinSlash (elem :: next :: rest))
    with (elem +:+ String "/" (joinSlash (next :: rest))).
  by rewrite isRooted_app.
Qed.

Lemma renderPath_round_trip (rooted : bool) (kept : list string) :
  normalKept rooted kept → kept ≠ [] →
  renderPath rooted kept ≠ EmptyString
  ∧ isRooted (renderPath rooted kept) = rooted
  ∧ keptElems (renderPath rooted kept) = kept.
Proof.
  intros Hnormal Hne.
  pose proof (normalKept_elems _ _ Hnormal) as Helems.
  assert (reverse kept ≠ []) as Hrev.
  { intros Hnil. apply Hne. by apply (inj reverse). }
  assert (Forall (λ elem, hasSlash elem = false) (reverse kept)) as Hslash.
  { apply Forall_reverse. eapply Forall_impl; [exact Helems|].
    by intros elem [_ ?]. }
  unfold renderPath. destruct rooted.
  - change ("/" +:+ joinSlash (reverse kept))
      with (String "/" (joinSlash (reverse kept))).
    split; [done|]. split; [done|].
    unfold keptElems. change (isRooted (String "/" _)) with true.
    cbn [splitSlash]. rewrite decide_True by done. cbn [foldl].
    unfold cleanElem at 2. rewrite decide_True by (by left).
    rewrite splitSlash_joinSlash by done.
    by apply foldl_cleanElem_reverse.
  - rewrite decide_False by done.
    assert (isRooted (joinSlash (reverse kept)) = false) as Hroot.
    { apply isRooted_joinSlash, Forall_reverse, Helems. }
    split; [|split; [done|]].
    + intros Hempty. apply (f_equal splitSlash) in Hempty.
      rewrite splitSlash_joinSlash in Hempty by done. cbn in Hempty.
      destruct (reverse kept) as [|e [|e' l]] eqn:Hk; try done.
      injection Hempty as ->. apply Forall_reverse in Helems.
      rewrite Hk in Helems. apply Forall_cons in Helems as [[? _] _]. done.
    + unfold keptElems. rewrite Hroot, splitSlash_joinSlash by done.
      by apply foldl_cleanElem_reverse.
Qed.

Lemma renderPath_inj (rooted : bool) (kept1 kept2 : list string) :
  normalKept rooted kept1 → normalKept rooted kept2 →
  kept1 ≠ [] → kept2 ≠ [] →
  renderPath rooted kept1 = renderPath rooted kept2 → kept1 = kept2.
Proof.
  intros Hn1 Hn2 Hne1 Hne2 Heq.
  destruct (renderPath_round_trip _ _ Hn1 Hne1) as (_ & _ & <-).
  destruct (renderPath_round_trip _ _ Hn2 Hne2) as (_ & _ & <-).
  by rewrite Heq.
Qed.

Lemma string_append_assoc (a b c : string) :
  (a +:+ b) +:+ c = a +:+ (b +:+ c).
Proof.
  induction a as [|x a IH]; [done|]. rewrite !append_cons_l. by rewrite IH.
Qed.

Lemma pathSplit_no_slash (name : string) :
  hasSlash name = false → pathSplit name = (EmptyString, name).
Proof.
  intros Hslash. pose proof (pathSplit_join name) as Hjoin.
  apply pathSplit_dir_empty_iff in Hslash.
  destruct (pathSplit name) as [dir file]. cbn [fst snd] in *. subst dir.
  by rewrite append_nil_l in Hjoin; subst.
Qed.

Lemma pathSplit_append (pre name : string) :
  hasSlash name = false →
  pre = EmptyString ∨ endsWithSlash pre = true →
  pathSplit (pre +:+ name) = (pre, name).
Proof.
  intros Hname. induction pre as [|c pre IH]; intros Hpre.
  { rewrite append_nil_l. by apply pathSplit_no_slash. }
  destruct Hpre as [|Hends]; [done|].
  rewrite append_cons_l. cbn [pathSplit].
  destruct pre as [|c' pre].
  - rewrite append_nil_l, pathSplit_no_slash by done.
    cbn [endsWithSlash] in Hends. apply bool_decide_eq_true_1 in Hends.
    rewrite decide_True by done. by rewrite decide_True.
  - rewrite IH by (by right). by rewrite decide_False.
Qed.

Lemma endsWithSlash_app_slash (s : string) :
  endsWithSlash (s +:+ "/") = true.
Proof.
  induction s as [|c s IH]; [done|]. rewrite append_cons_l.
  cbn [endsWithSlash]. destruct (s +:+ "/") eqn:Hs; [by destruct s|done].
Qed.

Lemma joinSlash_snoc (elems : list string) (name : string) :
  joinSlash (elems ++ [name])
  = (if decide (elems = []) then EmptyString else joinSlash elems +:+ "/")
    +:+ name.
Proof.
  induction elems as [|elem rest IH]; [done|].
  rewrite decide_False by done. destruct rest as [|next rest].
  { change (elem +:+ ("/" +:+ name) = (elem +:+ "/") +:+ name).
    by rewrite string_append_assoc. }
  change (joinSlash ((elem :: next :: rest) ++ [name]))
    with (elem +:+ "/" +:+ joinSlash ((next :: rest) ++ [name])).
  rewrite IH, decide_False by done.
  change (joinSlash (elem :: next :: rest))
    with (elem +:+ "/" +:+ joinSlash (next :: rest)).
  by rewrite !string_append_assoc.
Qed.

Lemma pathSplit_renderPath (rooted : bool) (kept : list string)
    (name : string) :
  hasSlash name = false →
  (pathSplit (renderPath rooted (name :: kept))).2 = name
  ∧ ((pathSplit (renderPath rooted (name :: kept))).1 = EmptyString
     ∨ endsWithSlash (pathSplit (renderPath rooted (name :: kept))).1 = true).
Proof.
  intros Hname.
  assert (∃ pre, renderPath rooted (name :: kept) = pre +:+ name
                 ∧ (pre = EmptyString ∨ endsWithSlash pre = true))
    as (pre & -> & Hpre).
  { unfold renderPath. rewrite reverse_cons, joinSlash_snoc.
    destruct rooted.
    - destruct (decide (reverse kept = [])).
      + exists "/". split; [done | by right].
      + exists ("/" +:+ (joinSlash (reverse kept) +:+ "/")).
        split; [by rewrite !string_append_assoc|]. right.
        rewrite <- string_append_assoc. apply endsWithSlash_app_slash.
    - rewrite decide_False by done.
      destruct (decide (reverse kept = [])).
      + exists EmptyString. split; [done | by left].
      + exists (joinSlash (reverse kept) +:+ "/").
        split; [done|]. right. apply endsWithSlash_app_slash. }
  rewrite pathSplit_append by done. split; [done | exact Hpre].
Qed.

(** ** Paths of the files found *)

Lemma simpleName_real (name : string) :
  simpleName name = true → realName name.
Proof. intros (? & ? & ? & ?)%simpleName_inv. by repeat split. Qed.

Lemma simpleName_not_skipped (name : string) :
  simpleName name = true → skippedName name = false.
Proof.
  intros (? & ? & ? & ?)%simpleName_inv. unfold skippedName.
  apply bool_decide_eq_false_2. tauto.
Qed.

Lemma relOf_shape (entry : string * Tree) :
  relShape entry.2 → simpleName entry.1 = true → wellNamed entry.2 = true →
  NoDup (relOf entry)
  ∧ Forall (λ names, names ≠ [] ∧ Forall realName names
                     ∧ last names = Some entry.1) (relOf entry).
Proof.
  destruct entry as [name child]. cbn [fst snd]. intros Hchild Hname Hwell.
  unfold relOf. cbn [fst snd]. rewrite simpleName_not_skipped by done.
  pose proof (simpleName_real _ Hname) as Hreal.
  destruct child as [size|fault entries].
  - split; [apply NoDup_singleton|]. apply Forall_singleton.
    split; [done|]. split; [by apply Forall_singleton | done].
  - destruct (Hchild Hwell) as [Hnodup Hall]. split.
    + apply NoDup_fmap_2; [|done]. intros x y Hxy. by apply app_inv_tail in Hxy.
    + apply Forall_fmap. eapply Forall_impl; [exact Hall|].
      intros names [Hne Hnames]. cbn. split; [by destruct names|].
      split; [apply Forall_app; split; [done | by constructor]|].
      by rewrite last_snoc.
Qed.

Lemma relNames_shape (node : Tree) : relShape node.
Proof.
  induction node as [size|fault entries IH] using Tree_induction.
  { intros _. split; constructor. }
  intros Hwell. cbn [wellNamed] in Hwell.
  apply andb_true_iff in Hwell as [Hnames Hentries].
  apply bool_decide_eq_true_1 in Hnames. cbn [relNames].
  change (flat_map _ entries) with (flat_map relOf entries).
  induction entries as [|entry rest IHrest]; [split; constructor|].
  cbn [forallb] in Hentries.
  apply andb_true_iff in Hentries as [Hentry Hrest].
  apply andb_true_iff in Hentry as [Hsimple Hchild].
  apply Forall_cons in IH as [IHentry IH].
  rewrite fmap_cons in Hnames. apply NoDup_cons in Hnames as [Hfresh Hnames].
  destruct (IHrest IH Hnames Hrest) as [Hnodup Hall].
  destruct (relOf_shape entry IHentry Hsimple Hchild) as [Hnodup1 Hall1].
  cbn [flat_map]. split.
  - apply NoDup_app. split; [done|]. split; [|done].
    intros names Hin1 Hin2.
    rewrite Forall_forall in Hall1. destruct (Hall1 _ Hin1) as (_ & _ & Hlast).
    apply Hfresh. clear -Hin2 Hlast Hrest IH.
    induction rest as [|other rest IHr]; [by apply elem_of_nil in Hin2|].
    cbn [flat_map] in Hin2. cbn [forallb] in Hrest.
    apply andb_true_iff in Hrest as [Hother Hrest].
    apply andb_true_iff in Hother as [Hsimple Hchild].
    apply Forall_cons in IH as [IHother IH].
    apply elem_of_app in Hin2 as [Hin2|Hin2].
    + destruct (relOf_shape other IHother Hsimple Hchild) as [_ Hall2].
      rewrite Forall_forall in Hall2.
      destruct (Hall2 _ Hin2) as (_ & _ & Hlast2).
      rewrite fmap_cons. apply elem_of_cons. left. congruence.
    + rewrite fmap_cons. apply elem_of_cons. right. by apply IHr.
  - apply Forall_app. split; [|done].
    eapply Forall_impl; [exact Hall1|]. by intros names (? & ? & _).
Qed.

Lemma subdirectory_path (dir name : string) :
  dir ≠ EmptyString → simpleName name = true →
  pathJoin dir name ≠ EmptyString
  ∧ isRooted (pathJoin dir name) = isRooted dir
  ∧ keptElems (pathJoin dir name) = name :: keptElems dir.
Proof.
  intros Hdir Hname. rewrite pathJoin_simple by done.
  destruct (simpleName_real _ Hname) as (? & ? & ? & ?).
  apply renderPath_round_trip; [|done].
  apply normalKept_push; try done. apply keptElems_normal.
Qed.

Lemma entryFiles_names (dir : string) (entry : string * Tree)
    (part : list File) :
  dir ≠ EmptyString → namesShape entry.2 →
  simpleName entry.1 = true → wellNamed entry.2 = true →
  entryFiles findFiles dir entry = inr part →
  filesMatch dir part (relOf entry).
Proof.
  destruct entry as [name child]. cbn [fst snd].
  intros Hdir IH Hname Hwell. unfold entryFiles, relOf. cbn [fst snd].
  rewrite simpleName_not_skipped by done.
  destruct child as [size|fault entries].
  - intros [= <-]. constructor; [|constructor]. cbn [Path Basename].
    by rewrite pathJoin_simple.
  - intros Hfind.
    destruct (subdirectory_path dir name Hdir Hname) as (Hne & Hroot & Hkept).
    pose proof (IH _ _ Hne Hwell Hfind) as Hmatch. unfold filesMatch in *.
    rewrite Hroot, Hkept in Hmatch. apply Forall2_fmap_r.
    eapply Forall2_impl; [exact Hmatch|].
    intros file names [Hpath Hhead]. cbn beta. split.
    + rewrite Hpath. f_equal. by rewrite <- app_assoc.
    + by destruct names.
Qed.

Lemma walkEntries_names (dir : string) (entries : list (string * Tree))
    (files : list File) :
  dir ≠ EmptyString →
  Forall (λ entry, namesShape entry.2) entries →
  forallb (λ entry, simpleName entry.1 && wellNamed entry.2) entries = true →
  walkEntries findFiles dir entries [] = inr files →
  filesMatch dir files (flat_map relOf entries).
Proof.
  intros Hdir IH. revert files.
  induction IH as [|entry rest IHentry _ IHrest]; intros files Hall.
  { intros [= <-]. constructor. }
  cbn [forallb] in Hall. apply andb_true_iff in Hall as [Hentry Hrest].
  apply andb_true_iff in Hentry as [Hname Hwell].
  rewrite walkEntries_cons.
  destruct (entryFiles findFiles dir entry) as [err|part] eqn:Hpart;
    [discriminate|].
  destruct (walkEntries findFiles dir rest []) as [err|new] eqn:Hnew;
    [discriminate|].
  intros [= <-]. cbn [flat_map]. apply Forall2_app.
  - by apply entryFiles_names.
  - by apply IHrest.
Qed.

Lemma findFiles_names (node : Tree) : namesShape node.
Proof.
  induction node as [size|fault entries IH] using Tree_induction;
    intros dir files Hdir Hwell; [discriminate|].
  cbn [wellNamed] in Hwell. apply andb_true_iff in Hwell as [_ Hall].
  destruct fault; cbn [findFiles]; try discriminate.
  intros Hwalk. cbn [relNames].
  change (flat_map _ entries) with (flat_map relOf entries).
  by apply walkEntries_names.
Qed.

Lemma filesMatch_paths (dir : string) (files : list File)
    (rels : list (list string)) :
  filesMatch dir files rels →
  Path <$> files
  = (λ names, renderPath (isRooted dir) (names ++ keptElems dir)) <$> rels.
Proof.
  induction 1 as [|file names files rels [Hpath _] _ IH]; [done|].
  by rewrite !fmap_cons, Hpath, IH.
Qed.

Lemma filesMatch_split (dir : string) (files : list File)
    (rels : list (list string)) :
  filesMatch dir files rels →
  Forall (λ names, names ≠ [] ∧ Forall realName names) rels →
  Forall (λ file,
            (pathSplit (Path file)).2 = Basename file
            ∧ ((pathSplit (Path file)).1 = EmptyString
               ∨ endsWithSlash (pathSplit (Path file)).1 = true)
            ∧ Path file ≠ EmptyString) files.
Proof.
  induction 1 as [|file names files rels [Hpath Hhead] _ IH];
    intros Hshape; [constructor|].
  apply Forall_cons in Hshape as [[_ Hnames] Hshape].
  constructor; [|by apply IH].
  destruct names as [|base names]; [discriminate|].
  injection Hhead as ->. apply Forall_cons in Hnames as [Hbase Hnames].
  destruct Hbase as (Hne & _ & _ & Hslash).
  rewrite Hpath. cbn [app].
  destruct (pathSplit_renderPath (isRooted dir) (names ++ keptElems dir)
              (Basename file) Hslash) as [Hfile Hdirpart].
  split; [done|]. split; [done|].
  intros Hempty. rewrite Hempty in Hfile. cbn in Hfile. congruence.
Qed.

(** X17. For a directory whose entries have simple names (not empty, no
    slash, neither [.] nor [..]), every record [findFiles] returns has a
    non-empty path whose last element, as [path.Split] cuts it, is the
    record's base name; the directory part is empty or ends with a slash. *)
Theorem found_files_keep_their_names
    (dir : string) (node : Tree) (files : list File) :
  dir ≠ EmptyString → wellNamed node = true →
  findFiles dir node = inr files →
  Forall (λ file,
            (pathSplit (Path file)).2 = Basename file
            ∧ ((pathSplit (Path file)).1 = EmptyString
               ∨ endsWithSlash (pathSplit (Path file)).1 = true)
            ∧ Path file ≠ EmptyString) files.
Proof.
  intros Hdir Hwell Hfind.
  pose proof (findFiles_names node dir files Hdir Hwell Hfind) as Hmatch.
  destruct (relNames_shape node Hwell) as [_ Hshape].
  by eapply filesMatch_split.
Qed.

Lemma found_paths_differ (dir : string) (node : Tree) (files : list File) :
  dir ≠ EmptyString → wellNamed node = true →
  findFiles dir node = inr files →
  NoDup (Path <$> files).
Proof.
  intros Hdir Hwell Hfind.
  pose proof (findFiles_names node dir files Hdir Hwell Hfind) as Hmatch.
  destruct (relNames_shape node Hwell) as [Hnodup Hshape].
  rewrite (filesMatch_paths _ _ _ Hmatch).
  apply NoDup_fmap_2_strong; [|done].
  intros names1 names2 Hin1 Hin2 Heq.
  rewrite Forall_forall in Hshape.
  destruct (Hshape _ Hin1) as [Hne1 Hreal1].
  destruct (Hshape _ Hin2) as [Hne2 Hreal2].
  assert (∀ names, Forall realName names →
            normalKept (isRooted dir) (names ++ keptElems dir)) as Hnormal.
  { intros names Hreal. induction Hreal as [|n ns (? & ? & ? & ?) _ IH].
    - apply keptElems_normal.
    - by apply normalKept_push. }
  apply renderPath_inj in Heq; [by apply app_inv_tail in Heq|auto|auto|..];
    by destruct names1, names2.
Qed.

(** X18. For a directory whose entries have simple names that differ within
    each directory, the records [findFiles] returns have pairwise different
    paths. *)
Theorem found_files_have_different_paths
    (dir : string) (node : Tree) (files : list File) :
  dir ≠ EmptyString → wellNamed node = true →
  findFiles dir node = inr files →
  NoDup (Path <$> files).
Proof. apply found_paths_differ. Qed.

Lemma findFiles_lists_every_leaf_witness :
  findFiles "/" exTree = inr exFound
  ∧ length exFound = countLeaves exTree
  ∧ Forall (λ file, Hash file = []) exFound
  ∧ ∃ err, findFiles "/" (Dir DirOk [("a", Dir ReaddirFails [])]) = inl err.
Proof.
  destruct (findFiles_lists_every_leaf "/" exTree) as (_ & Hshape & _).
  assert (findFiles "/" exTree = inr exFound) as Hfind
    by (vm_compute; reflexivity).
  destruct (Hshape exFound Hfind) as [Hlen Hhash].
  split; [exact Hfind|]. split; [exact Hlen|]. split; [exact Hhash|].
  destruct (findFiles "/" (Dir DirOk [("a", Dir ReaddirFails [])]))
    as [err|files] eqn:Hbad; [by exists err|].
  destruct (findFiles_lists_every_leaf "/"
              (Dir DirOk [("a", Dir ReaddirFails [])])) as ([Hiff _] & _).
  destruct Hiff as [_ Hfree]; [by exists files|]. vm_compute in Hfree.
  discriminate.
Defined.

Lemma found_files_keep_their_names_witness :
  "/" ≠ EmptyString ∧ wellNamed exTree = true
  ∧ findFiles "/" exTree = inr exFound
  ∧ Forall (λ file,
              (pathSplit (Path file)).2 = Basename file
              ∧ ((pathSplit (Path file)).1 = EmptyString
                 ∨ endsWithSlash (pathSplit (Path file)).1 = true)
              ∧ Path file ≠ EmptyString) exFound.
Proof.
  assert ("/" ≠ EmptyString) as Hdir by discriminate.
  assert (wellNamed exTree = true) as Hwell by (vm_compute; reflexivity).
  assert (findFiles "/" exTree = inr exFound) as Hfind
    by (vm_compute; reflexivity).
  split; [exact Hdir|]. split; [exact Hwell|]. split; [exact Hfind|].
  exact (found_files_keep_their_names "/" exTree exFound Hdir Hwell Hfind).
Defined.

Lemma found_files_have_different_paths_witness :
  "/" ≠ EmptyString ∧ wellNamed exTree = true
  ∧ findFiles "/" exTree = inr exFound
  ∧ NoDup (Path <$> exFound).
Proof.
  assert ("/" ≠ EmptyString) as Hdir by discriminate.
  assert (wellNamed exTree = true) as Hwell by (vm_compute; reflexivity).
  assert (findFiles "/" exTree = inr exFound) as Hfind
    by (vm_compute; reflexivity).
  split; [exact Hdir|]. split; [exact Hwell|]. split; [exact Hfind|].
  exact (found_files_have_different_paths "/" exTree exFound Hdir Hwell Hfind).
Defined.

(** ** From the walk to the run *)




(** ** Files directly under the current directory *)

Lemma pathClean_dot (dir : string) :
  dir ≠ EmptyString → pathClean dir = "." →
  isRooted dir = false ∧ keptElems dir = [].
Proof.
  intros Hdir. unfold pathClean. rewrite decide_False by done.
  pose proof (keptElems_normal dir) as Hnormal.
  destruct (decide (keptElems dir = [])) as [Hnil|Hne].
  - rewrite Hnil. unfold renderPath. by destruct (isRooted dir).
  - intros Hdot.
    destruct (renderPath_round_trip _ _ Hnormal Hne) as (_ & Hroot & Hkept).
    rewrite Hdot in Hroot, Hkept. by rewrite <- Hkept in Hne.
Qed.

Lemma Configured_no_rule_for_empty_directory (rules : list Configured.Rule)
    (dir1 dir2 : string) :
  Forall Configured.validRule rules →
  dir1 = EmptyString ∨ dir2 = EmptyString →
  Configured.firstMatch rules dir1 dir2 = None.
Proof.
  intros Hvalid Hempty. induction Hvalid as [|rule rest Hrule _ IH]; [done|].
  cbn [Configured.firstMatch]. unfold Configured.matchesRule.
  destruct Hrule as (HK & HR & _).
  destruct Hempty as [-> | ->];
    rewrite (bool_decide_eq_false_2 (EmptyString = Configured.KeepDir rule))
      by done;
    rewrite (bool_decide_eq_false_2 (EmptyString = Configured.RemoveDir rule))
      by done;
    by rewrite ?andb_false_r.
Qed.

(** X20. When the directory searched cleans to [.], a file directly under
    it gets its bare name as path, so its parent directory is the empty
    string, and [resolveDuplicate] with rules accepted by [readRules] finds
    no rule for any pair that includes the file: it writes nothing and
    removes nothing. *)
Theorem files_under_dot_match_no_rule (dir name : string) :
  dir ≠ EmptyString → pathClean dir = "." → simpleName name = true →
  pathJoin dir name = name
  ∧ (pathSplit (pathJoin dir name)).1 = EmptyString
  ∧ ∀ configFile rules file other live w,
      Configured.readRules configFile = Ok rules →
      Path file = pathJoin dir name →
      Configured.resolveDuplicate rules file other live w
      = (w, (false, None))
      ∧ Configured.resolveDuplicate rules other file live w
        = (w, (false, None)).
Proof.
  intros Hdir Hdot Hname.
  destruct (pathClean_dot dir Hdir Hdot) as [Hroot Hkept].
  assert (pathJoin dir name = name) as Hjoin.
  { rewrite pathJoin_simple by done. by rewrite Hroot, Hkept. }
  assert ((pathSplit name).1 = EmptyString) as Hsplit.
  { apply simpleName_inv in Hname as (_ & Hslash & _).
    by rewrite pathSplit_no_slash. }
  split; [done|]. split; [by rewrite Hjoin|].
  intros configFile rules file other live w Hread Hpath.
  apply readRules_valid_inv in Hread as [_ Hvalid].
  unfold Configured.resolveDuplicate.
  rewrite !Configured_resolveLoop_firstMatch, Hpath, Hjoin, Hsplit.
  rewrite !Configured_no_rule_for_empty_directory by auto. done.
Qed.

Lemma files_under_dot_match_no_rule_witness :
  pathJoin "." "x.png" = "x.png"
  ∧ Configured.resolveDuplicate exRules exBare exCopy true exWorld
    = (exWorld, (false, None)).
Proof.
  destruct (files_under_dot_match_no_rule "." "x.png")
    as (Hjoin & _ & Hnone); [discriminate | reflexivity | reflexivity |].
  split; [exact Hjoin|].
  apply (Hnone (Configured.Decoded exRules) exRules exBare exCopy true
           exWorld); reflexivity.
Defined.

(** ** Which rule [readRules] complains about *)

Lemma checkRules_Some_inv (j : nat) (rules : list Configured.Rule)
    (err : Error) :
  Configured.checkRules j rules = Some err →
  ∃ i rule,
    rules !! i = Some rule
    ∧ Forall Configured.validRule (take i rules)
    ∧ ((Configured.KeepDir rule = EmptyString
        ∨ Configured.RemoveDir rule = EmptyString)
       ∧ err = ErrRuleMissingDir ((j + i) + (j + i))
       ∨ (Configured.KeepDir rule ≠ EmptyString
          ∧ Configured.RemoveDir rule ≠ EmptyString
          ∧ (¬ Configured.absolute (Configured.KeepDir rule)
             ∨ ¬ Configured.absolute (Configured.RemoveDir rule)))
         ∧ err = ErrRuleNotAbsolute ((j + i) + (j + i))
       ∨ (Configured.absolute (Configured.KeepDir rule)
          ∧ Configured.absolute (Configured.RemoveDir rule)
          ∧ Configured.KeepDir rule = Configured.RemoveDir rule)
         ∧ err = ErrRuleIdentical ((j + i) + (j + i))).
Proof.
  revert j. induction rules as [|rule rest IH]; intros j; [discriminate|].
  cbn [Configured.checkRules].
  destruct (bool_decide (String.length (Configured.KeepDir rule) = 0)
            || bool_decide (String.length (Configured.RemoveDir rule) = 0))
    eqn:Hmiss.
  { intros [= <-]. exists 0, rule. rewrite Nat.add_0_r.
    split; [done|]. split; [constructor|]. left. split; [|done].
    apply orb_true_iff in Hmiss.
    rewrite !bool_decide_eq_true, !string_length_zero in Hmiss. done. }
  apply orb_false_iff in Hmiss as [HK HR].
  apply bool_decide_eq_false_1 in HK, HR.
  rewrite string_length_zero in HK, HR.
  destruct (bool_decide (String.get 0 (Configured.KeepDir rule)
                         ≠ Some "/"%char)
            || bool_decide (String.get 0 (Configured.RemoveDir rule)
                            ≠ Some "/"%char)) eqn:Habs.
  { intros [= <-]. exists 0, rule. rewrite Nat.add_0_r.
    split; [done|]. split; [constructor|]. right. left. split; [|done].
    split; [done|]. split; [done|]. apply orb_true_iff in Habs.
    rewrite !bool_decide_eq_true in Habs.
    by rewrite <- !first_byte_slash_iff_absolute. }
  apply orb_false_iff in Habs as [HaK HaR].
  apply bool_decide_eq_false_1, dec_stable in HaK, HaR.
  apply first_byte_slash_iff_absolute in HaK, HaR.
  case_bool_decide as Hid.
  { intros [= <-]. exists 0, rule. rewrite Nat.add_0_r.
    split; [done|]. split; [constructor|]. by right; right. }
  intros (i & r & Hi & Htake & Hr)%IH.
  exists (S i), r. split; [done|]. split.
  - cbn [take]. constructor; [|done]. by repeat split.
  - by replace (j + S i) with (S j + i) by lia.
Qed.

(** X21. When [readRules] refuses a decoded list of rules, the list is
    empty or the error is about the first rule that fails a check: missing
    when one of its directories is empty, else non-absolute when one does
    not start with a slash, else identical.  The rule number in the message
    is twice the position of that rule counted from zero, so the first rule
    is reported as rule 0 and the second as rule 2. *)
Theorem readRules_reports_first_bad_rule
    (rules : list Configured.Rule) (err : Error) :
  Configured.readRules (Configured.Decoded rules) = Fail err →
  (rules = [] ∧ err = ErrNoRules)
  ∨ ∃ i rule,
      rules !! i = Some rule
      ∧ Forall Configured.validRule (take i rules)
      ∧ ((Configured.KeepDir rule = EmptyString
          ∨ Configured.RemoveDir rule = EmptyString)
         ∧ err = ErrRuleMissingDir (i + i)
         ∨ (Configured.KeepDir rule ≠ EmptyString
            ∧ Configured.RemoveDir rule ≠ EmptyString
            ∧ (¬ Configured.absolute (Configured.KeepDir rule)
               ∨ ¬ Configured.absolute (Configured.RemoveDir rule)))
           ∧ err = ErrRuleNotAbsolute (i + i)
         ∨ (Configured.absolute (Configured.KeepDir rule)
            ∧ Configured.absolute (Configured.RemoveDir rule)
            ∧ Configured.KeepDir rule = Configured.RemoveDir rule)
           ∧ err = ErrRuleIdentical (i + i)).
Proof.
  cbn [Configured.readRules]. case_bool_decide as Hlen.
  { intros [= <-]. left. by destruct rules. }
  destruct (Configured.checkRules 0 rules) as [e|] eqn:Hcheck;
    [|discriminate].
  intros [= <-]. right. by apply (checkRules_Some_inv 0) in Hcheck.
Qed.

Lemma readRules_reports_first_bad_rule_witness :
  Configured.readRules (Configured.Decoded (exRules ++ [exEmptyRule]))
  = Fail (ErrRuleMissingDir 2)
  ∧ ∃ i rule,
      (exRules ++ [exEmptyRule]) !! i = Some rule
      ∧ Forall Configured.validRule (take i (exRules ++ [exEmptyRule]))
      ∧ ErrRuleMissingDir 2 = ErrRuleMissingDir (i + i).
Proof.
  split; [reflexivity|].
  destruct (readRules_reports_first_bad_rule (exRules ++ [exEmptyRule])
              (ErrRuleMissingDir 2) eq_refl)
    as [[Hnil _]|(i & rule & Hi & Htake & Hr)]; [discriminate|].
  exists i, rule. split; [exact Hi|]. split; [exact Htake|].
  destruct Hr as [[_ He]|[[_ He]|[_ He]]]; [exact He|discriminate..].
Defined.

(** ** The verdict of [isIdentical] *)

(** X22. The verdict of [isIdentical] does not depend on the order of the
    two files, although the error, when both files fail, is that of the
    file read first; and a file is identical to itself exactly when it can
    be read back in full. *)
Theorem isIdentical_verdict_is_symmetric (fs : FS) (file1 file2 : File) :
  (isIdentical fs file1 file2).1 = (isIdentical fs file2 file1).1
  ∧ ((isIdentical fs file1 file2).2 = None
     ↔ (isIdentical fs file2 file1).2 = None)
  ∧ (isIdentical fs file1 file1 = (true, None)
     ↔ ∃ c, readFile fs file1 = Ok c).
Proof.
  assert (∀ c : list byte, sameBytes c c = true) as Hrefl
    by (intros c; by apply sameBytes_true_iff).
  assert (∀ c1 c2 : list byte, length c1 = length c2 →
            sameBytes c1 c2 = sameBytes c2 c1) as Hsym.
  { intros c1 c2 Hlen.
    destruct (sameBytes c1 c2) eqn:H12, (sameBytes c2 c1) eqn:H21; try done.
    - apply sameBytes_true_iff in H12; [|done]. subst c2. congruence.
    - apply sameBytes_true_iff in H21; [|done]. subst c2. congruence. }
  unfold isIdentical.
  destruct (readFile fs file1) as [c1|e1], (readFile fs file2) as [c2|e2];
    cbn [fst snd].
  - rewrite (decide_False (P := length c1 ≠ length c1))
      by (intros H; by apply H).
    rewrite Hrefl.
    destruct (decide (length c1 ≠ length c2)) as [Hne|Heq].
    + rewrite (decide_True (P := length c2 ≠ length c1)) by done.
      repeat split; try done. by eexists.
    + apply dec_stable in Heq.
      rewrite (decide_False (P := length c2 ≠ length c1))
        by (intros H; by apply H).
      cbn [fst snd]. rewrite (Hsym c1 c2 Heq).
      repeat split; try done. by eexists.
  - rewrite (decide_False (P := length c1 ≠ length c1))
      by (intros H; by apply H).
    rewrite Hrefl. repeat split; try done. by eexists.
  - repeat split; try done. by intros [c ?].
  - repeat split; try done. by intros [c ?].
Qed.

(** ** The two later programs on one table *)

Lemma asConfigured_live_step (rules : list Hardcoded.Rule)
    (file1 file2 : File) (dir1 dir2 : string) (w : World) :
  Hardcoded.noOverlap rules = true →
  Hardcoded.resolveLoop rules file1 file2 dir1 dir2 true w
  = ((Configured.resolveLoop (asConfigured <$> rules) file1 file2 dir1 dir2
        true w).1,
     (Configured.resolveLoop (asConfigured <$> rules) file1 file2 dir1 dir2
        true w).2.2).
Proof.
  induction rules as [|rule rest IH]; [done|]. intros Hno.
  pose proof (Hardcoded_noOverlap_rest rule rest dir1 dir2 Hno) as Hrest.
  cbn [Hardcoded.noOverlap] in Hno. apply andb_true_iff in Hno as [_ Hno].
  unfold Hardcoded.matchesRule in Hrest.
  cbn [fmap list_fmap Hardcoded.resolveLoop Configured.resolveLoop
       asConfigured Configured.KeepDir Configured.RemoveDir].
  destruct (bool_decide (dir1 = Hardcoded.KeepDir rule)
            && bool_decide (dir2 = Hardcoded.RmDir rule)).
  { destruct (osRemove _ _); [|done].
    by rewrite Hardcoded_resolveLoop_no_match by auto. }
  destruct (bool_decide (dir1 = Hardcoded.RmDir rule)
            && bool_decide (dir2 = Hardcoded.KeepDir rule)).
  { destruct (osRemove _ _); [|done].
    by rewrite Hardcoded_resolveLoop_no_match by auto. }
  by apply IH.
Qed.

(** X23. In live mode the program with the embedded table and the program
    with configured rules resolve a duplicate alike: on a table in which no
    two rules can apply to the same pair of directories, the loop that goes
    on after a match and the loop that returns at the first match leave the
    same disk, write the same lines and return the same error.  The embedded
    table is such a table. *)
Theorem live_resolution_agrees_across_variants
    (rules : list Hardcoded.Rule) (file1 file2 : File) (dir1 dir2 : string)
    (w : World) :
  Hardcoded.noOverlap rules = true →
  let configured :=
    Configured.resolveLoop (asConfigured <$> rules) file1 file2 dir1 dir2
      true w in
  Hardcoded.resolveLoop rules file1 file2 dir1 dir2 true w
  = (configured.1, configured.2.2).
Proof. intros Hno. by apply asConfigured_live_step. Qed.

Lemma live_resolution_agrees_across_variants_witness :
  Hardcoded.noOverlap Hardcoded.rules = true
  ∧ ∀ file1 file2 w,
      Hardcoded.resolveDuplicate file1 file2 true w
      = ((Configured.resolveDuplicate (asConfigured <$> Hardcoded.rules)
            file1 file2 true w).1,
         (Configured.resolveDuplicate (asConfigured <$> Hardcoded.rules)
            file1 file2 true w).2.2).
Proof.
  split; [vm_compute; reflexivity|]. intros file1 file2 w.
  apply (live_resolution_agrees_across_variants Hardcoded.rules).
  vm_compute. reflexivity.
Defined.

(** ** What a dry run of the embedded table announces *)

Lemma Hardcoded_resolveLoop_dry_log (rules : list Hardcoded.Rule)
    (file1 file2 : File) (dir1 dir2 : string) (wl wd : World) :
  logged wl = logged wd →
  ∃ more,
    logged (Hardcoded.resolveLoop rules file1 file2 dir1 dir2 false wd).1
    = logged (Hardcoded.resolveLoop rules file1 file2 dir1 dir2 true wl).1
      ++ more
    ∧ ((Hardcoded.resolveLoop rules file1 file2 dir1 dir2 true wl).2 = None
       → more = []).
Proof.
  revert wl wd. induction rules as [|rule rest IH]; intros wl wd Hlog;
    cbn [Hardcoded.resolveLoop].
  { exists []. cbn [fst snd]. rewrite app_nil_r. by split. }
  assert (∀ line,
            logged (logPrintf line wl) = logged (logPrintf line wd)) as Hline.
  { intros line. cbn [logPrintf logged]. by rewrite Hlog. }
  assert (∀ line,
    ∃ more,
      logged (Hardcoded.resolveLoop rest file1 file2 dir1 dir2 false
                (logPrintf line wd)).1
      = logged (logPrintf line wl) ++ more) as Hstop.
  { intros line.
    destruct (Hardcoded_resolveLoop_dry rest file1 file2 dir1 dir2
                (logPrintf line wd)) as (_ & _ & lines & Hl).
    exists lines. by rewrite Hl, Hline. }
  destruct (bool_decide (dir1 = Hardcoded.KeepDir rule)
            && bool_decide (dir2 = Hardcoded.RmDir rule)).
  { destruct (osRemove _ _) as [fs|].
    - apply IH. cbn [setDisk logPrintf logged]. by rewrite Hlog.
    - destruct (Hstop ("Deleting " +:+ Path file2)) as [more Hmore].
      exists more. split; [exact Hmore | discriminate]. }
  destruct (bool_decide (dir1 = Hardcoded.RmDir rule)
            && bool_decide (dir2 = Hardcoded.KeepDir rule)); [|by apply IH].
  destruct (osRemove _ _) as [fs|].
  - apply IH. cbn [setDisk logPrintf logged]. by rewrite Hlog.
  - destruct (Hstop ("Deleting " +:+ Path file1)) as [more Hmore].
    exists more. split; [exact Hmore | discriminate].
Qed.

(** X24. In the program with the embedded table a dry run of
    [resolveDuplicate] announces what the live run does: both write the same
    [Deleting] lines, in the same order, up to the point where the live run
    stops at a removal that fails, and all of them when the live run
    returns without error.  The disk of the dry run is the one it was
    given. *)
Theorem dry_run_announces_live_deletions
    (file1 file2 : File) (w : World) :
  let dry := Hardcoded.resolveDuplicate file1 file2 false w in
  let live := Hardcoded.resolveDuplicate file1 file2 true w in
  disk dry.1 = disk w
  ∧ dry.2 = None
  ∧ ∃ more,
      logged dry.1 = logged live.1 ++ more
      ∧ (live.2 = None → more = []).
Proof.
  cbn zeta. unfold Hardcoded.resolveDuplicate.
  destruct (Hardcoded_resolveLoop_dry Hardcoded.rules file1 file2
              (pathSplit (Path file1)).1 (pathSplit (Path file2)).1 w)
    as (Hd & He & _).
  split; [exact Hd|]. split; [exact He|].
  by apply Hardcoded_resolveLoop_dry_log.
Qed.
